(** * yt-trimmer: the trim pipeline, its progress bus and the time utilities

  A shallow embedding of [src/robots/download.js] (the command-line robot
  with [timeToSeconds] and [download]) and of the server that follows it in
  the same source file (the SSE progress endpoint, [sendProgress], the
  [/trim] handler and [processVideo]; then the rate limiter, the
  [/video-info] and [/download] handlers and the periodic clean-up), and
  of the handlers of the page ([main.js]) that follow the progress events
  and keep the download history.

  JavaScript numbers are IEEE 754 binary64 values: they are modelled by
  Rocq's primitive floats, whose operations are the same binary64
  operations.  A JavaScript string is the sequence of its UTF-16 code
  units, and its length, [substring] and the other operations count code
  units.  It is modelled by a [string] with one character for each code
  unit: the strings of the model are the texts whose code units are all
  below 256 (ASCII and Latin-1), and a text with a higher code unit is
  not a text of the model.  The output of a subprocess is taken as
  the string that [data.toString()] made of it. *)

From Stdlib Require Import ZArith String Ascii List Bool Floats Lia.
From stdpp Require Import base option strings gmap pretty.
Import ListNotations.

Local Open Scope Z_scope.

(** ** JavaScript primitives used by the sources *)
Module JS.

(** *** Numbers *)

(** The Number value of a mathematical integer: the closest binary64
    value, ties to even, infinite past the largest finite one. *)
Definition Z2F (z : Z) : float :=
  SF2Prim (binary_normalize prec emax z 0 false).

(** The Number value of the decimal [n / 10^k], [0 <= n]. *)
Definition decimal2F (n : Z) (k : nat) : float :=
  match n with
  | Zpos m =>
      SF2Prim (SFdiv prec emax (S754_finite false m 0)
                 (S754_finite false (Z.to_pos (10 ^ Z.of_nat k)) 0))
  | _ => 0%float
  end.

(** [Math.min(a, b)]: NaN if either is NaN, and -0 below +0. *)
Definition Math_min (a b : float) : float :=
  if is_nan a || is_nan b then nan
  else if (a <? b)%float then a
  else if (b <? a)%float then b
  else if get_sign a then a else b.

(** [Math.round(x)]: the integer closest to [x], ties towards +infinity;
    NaN, the infinities and the zeros are returned unchanged, and a
    negative [x] that rounds to zero gives -0.  A finite
    [x = (-1)^s * m * 2^e] with [0 <= e] is an integer already; otherwise
    [floor (x + 1/2) = (2 * (+-m) + 2^(-e)) / 2^(1 - e)]. *)
Definition Math_round (x : float) : float :=
  match Prim2SF x with
  | S754_finite s m e =>
      if 0 <=? e then x
      else
        let n := ((if s then - (2 * Zpos m) else 2 * Zpos m) + 2 ^ (- e))
                 / 2 ^ (1 - e) in
        if n =? 0 then (if s then neg_zero else zero) else Z2F n
  | _ => x
  end.

(** *** Characters and strings *)

Definition is_digit (c : ascii) : bool :=
  (48 <=? nat_of_ascii c)%nat && (nat_of_ascii c <=? 57)%nat.

Definition digit_value (c : ascii) : Z := Z.of_nat (nat_of_ascii c) - 48.

(** The white space that [parseInt] and [trim] skip: of the white space
    and line terminators of ECMAScript, the code units below 256 are the
    characters 9 to 13, the space and the no-break space (160). *)
Definition is_space (c : ascii) : bool :=
  let n := nat_of_ascii c in
  ((9 <=? n)%nat && (n <=? 13)%nat) || (n =? 32)%nat || (n =? 160)%nat.

Fixpoint trim_start (s : string) : string :=
  match s with
  | String c r => if is_space c then trim_start r else s
  | EmptyString => s
  end.

(** The longest prefix of decimal digits, and what follows it. *)
Fixpoint span_digits (s : string) : string * string :=
  match s with
  | String c r =>
      if is_digit c
      then let '(d, rest) := span_digits r in (String c d, rest)
      else (EmptyString, s)
  | EmptyString => (EmptyString, EmptyString)
  end.

(** The integer written by a string of digits, most significant first. *)
Fixpoint digits_value_from (acc : Z) (s : string) : Z :=
  match s with
  | String c r => digits_value_from (10 * acc + digit_value c) r
  | EmptyString => acc
  end.

Definition digits_value (s : string) : Z := digits_value_from 0 s.

(** [parseInt(s, 10)]: leading white space, an optional sign, then the
    longest run of digits; NaN when there is no digit. *)
Definition parseInt (s : string) : float :=
  let s1 := trim_start s in
  let '(neg, s2) :=
    match s1 with
    | String "-" r => (true, r)
    | String "+" r => (false, r)
    | _ => (false, s1)
    end in
  let '(ds, _) := span_digits s2 in
  match ds with
  | EmptyString => nan
  | _ =>
      let n := digits_value ds in
      if neg then (if n =? 0 then neg_zero else Z2F (- n)) else Z2F n
  end.

(** [parseFloat(s)] on the strings the pattern of [match_percent] below can
    capture: digits, then possibly a point and more digits (no sign, no
    exponent).  The value is the decimal read, correctly rounded. *)
Definition parseFloat (s : string) : float :=
  let '(int_part, r) := span_digits s in
  match int_part with
  | EmptyString => nan
  | _ =>
      match r with
      | String "." r' =>
          let '(frac, _) := span_digits r' in
          decimal2F (digits_value (int_part +:+ frac)) (String.length frac)
      | _ => Z2F (digits_value int_part)
      end
  end.

(** [s.startsWith(p)], [s.includes(sub)], [s.endsWith(suf)]. *)
Definition startsWith (s p : string) : bool := String.prefix p s.

Fixpoint includes (s sub : string) : bool :=
  if String.prefix sub s then true
  else match s with
       | String _ r => includes r sub
       | EmptyString => false
       end.

Definition endsWith (s suf : string) : bool :=
  (String.length suf <=? String.length s)%nat
  && String.eqb
       (String.substring (String.length s - String.length suf)
          (String.length suf) s)
       suf.

(** [s.substring(0, n)]: the first [n] code units. *)
Definition substring_0 (n : nat) (s : string) : string :=
  String.substring 0 n s.

(** [s.split(':')]. *)
Fixpoint split_colon (s : string) : list string :=
  match s with
  | EmptyString => [EmptyString]
  | String c r =>
      if Ascii.eqb c ":" then EmptyString :: split_colon r
      else match split_colon r with
           | h :: t => String c h :: t
           | [] => [String c EmptyString]
           end
  end.

(** One attempt, at the start of [s], of the pattern by which the
    download handlers read a percentage: one or more digits, an optional
    point, any number of digits (the three captured as group 1), then a
    percent sign.  The result is the capture.  The digits before the point are taken greedily, and giving some of
    them back never helps, since what follows a digit run is then a
    digit and not the percent sign. *)
Definition match_percent_at (s : string) : option string :=
  let '(d1, r1) := span_digits s in
  match d1 with
  | EmptyString => None
  | _ =>
      match r1 with
      | String "%" _ => Some d1
      | String "." r2 =>
          let '(d2, r3) := span_digits r2 in
          match r3 with
          | String "%" _ => Some (d1 +:+ "." +:+ d2)
          | _ => None
          end
      | _ => None
      end
  end.

(** [s.match(pattern)] for that pattern: group 1 of the leftmost match. *)
Fixpoint match_percent (s : string) : option string :=
  match match_percent_at s with
  | Some tok => Some tok
  | None =>
      match s with
      | String _ r => match_percent r
      | EmptyString => None
      end
  end.

(** How a template literal prints an integer or [null]. *)
Definition show_Z (z : Z) : string := pretty z.

(** *** Reading numbers exactly *)

(** The value of the positive finite number [m * 2^e], counted in units of
    [2^-1074], the smallest positive binary64 value. *)
Definition units (m : positive) (e : Z) : Z := Zpos m * 2 ^ (e + 1074).

(** [x] is a finite number with [lo <= x <= hi], for integers [lo], [hi]. *)
Definition between (lo hi : Z) (x : float) : Prop :=
  exists m e,
    Prim2SF x = S754_finite false m e
    /\ lo * 2 ^ 1074 <= units m e <= hi * 2 ^ 1074.

(** The integer closest to a positive finite [x], ties upwards. *)
Definition nearest (x : float) : Z :=
  match Prim2SF x with
  | S754_finite false m e => (2 * units m e + 2 ^ 1074) / 2 ^ 1075
  | _ => 0
  end.

(** A list of integers is non-decreasing. *)
Fixpoint ascending (l : list Z) : Prop :=
  match l with
  | x :: (y :: _) as rest => x <= y /\ ascending rest
  | _ => True
  end.

(** The integers from 0 to 100. *)
Definition percents : list Z := map Z.of_nat (seq 0 101).

End JS.

(** ** The command-line robot: [src/robots/download.js] *)
Module Robot.
Import JS.

(** The loop of [timeToSeconds]: [parts.pop()] takes the segments from the
    last one to the first one, so the loop runs over the reversed list. *)
Fixpoint timeToSeconds_loop (popped : list string) (seconds multiplier : float)
  : float :=
  match popped with
  | [] => seconds
  | part :: rest =>
      timeToSeconds_loop rest
        (seconds + multiplier * parseInt part)%float
        (multiplier * 60)%float
  end.

Definition timeToSeconds (timeString : string) : float :=
  match timeString with
  | EmptyString => 0%float                       (* if (!timeString) return 0 *)
  | _ => timeToSeconds_loop (rev (split_colon timeString)) 0 1
  end.

(** The words of the specification for [parseTimeToSeconds]: the segments
    are folded from the right; the accumulator holds the seconds so far
    and the weight of the next segment, sixty times the previous one. *)
Definition parseTimeToSeconds_fold (segments : list string) : float * float :=
  fold_right
    (fun segment '(seconds, weight) =>
       ((seconds + weight * parseInt segment)%float, (weight * 60)%float))
    (0%float, 1%float) segments.

Definition parseTimeToSeconds_spec (text : string) : float :=
  match text with
  | EmptyString => 0%float
  | _ => fst (parseTimeToSeconds_fold (split_colon text))
  end.

(** The argument of [download]; a missing property is [None]. *)
Record content := {
  c_startTime : option string;
  c_start : option string;
  c_endTime : option string;
  c_end : option string;
  c_fileName : option string;
  c_filename : option string;
  c_url : string
}.

(** [a || b] on values that are a string or undefined. *)
Definition js_or (a b : option string) : option string :=
  match a with
  | Some (String _ _) => a
  | _ => b
  end.

(** [!a]. *)
Definition js_not (a : option string) : bool :=
  match a with
  | Some (String _ _) => false
  | _ => true
  end.

(** The value a template literal prints for it. *)
Definition js_text (a : option string) : string :=
  match a with
  | Some s => s
  | None => "undefined"
  end.

(** The commands [download] passes to [execSync], with the values it
    interpolates in them. *)
Inductive command :=
| yt_dlp_get_url (format_selector url : string)
| ffmpeg_cut (startTime videoUrl audioUrl : string) (duration : float)
    (fileName : string).

(** What [download] prints. *)
Inductive console :=
| rule
| warn_no_start
| warn_no_end
| error_invalid_duration (duration : float)
| log_final_data (startTime endTime : string) (duration : float)
| log_processing
| log_success (fileName : string)
| error_caught (message : string).

(** The world [download] runs in: the lines typed at the prompts of
    [readline.question], and what each command does ([inl] its standard
    output, [inr] the message of the error [execSync] throws). *)
Record world := {
  typed : list string;
  shell : command -> string + string
}.

Record state := {
  tty : list string;
  executed : list command;
  printed : list console
}.

Definition print (line : console) (st : state) : state :=
  {| tty := tty st; executed := executed st; printed := printed st ++ [line] |}.

Definition question (st : state) : string * state :=
  match tty st with
  | answer :: rest =>
      (answer, {| tty := rest; executed := executed st; printed := printed st |})
  | [] => (EmptyString, st)
  end.

(** [execSync(cmd)]: the command is launched, then it returns or throws. *)
Definition execSync (w : world) (cmd : command) (st : state)
  : (string + string) * state :=
  (shell w cmd,
   {| tty := tty st; executed := executed st ++ [cmd]; printed := printed st |}).

Fixpoint trim_end (s : string) : string :=
  match s with
  | String c r =>
      match trim_end r with
      | EmptyString => if is_space c then EmptyString else String c EmptyString
      | r' => String c r'
      end
  | EmptyString => EmptyString
  end.

Definition trim (s : string) : string := trim_end (trim_start s).

(** The start of [download]: the two times, each asked at the prompt when
    the content has none. *)
Definition read_times (c : content) (st : state) : string * string * state :=
  let startTime := js_or (c_startTime c) (c_start c) in
  let endTime := js_or (c_endTime c) (c_end c) in
  let '(startTime, st) :=
    if js_not startTime
    then let '(answer, st) := question (print warn_no_start st) in (answer, st)
    else (js_text startTime, st) in
  let '(endTime, st) :=
    if js_not endTime
    then let '(answer, st) := question (print warn_no_end st) in (answer, st)
    else (js_text endTime, st) in
  (startTime, endTime, st).

Definition download (w : world) (c : content) : state :=
  let st := print rule {| tty := typed w; executed := []; printed := [] |} in
  let '(startTime, endTime, st) := read_times c st in
  let startSec := timeToSeconds startTime in
  let endSec := timeToSeconds endTime in
  let duration := (endSec - startSec)%float in
  if (duration <=? 0)%float then
    print (error_invalid_duration duration) st
  else
    let fileName :=
      js_text (js_or (js_or (c_fileName c) (c_filename c))
                 (Some "video_potong.mp4")) in
    let fileName :=
      if endsWith fileName ".mp4" then fileName else fileName +:+ ".mp4" in
    let st := print (log_final_data startTime endTime duration) st in
    match execSync w (yt_dlp_get_url "bestvideo[height<=1080][ext=mp4]/bestvideo"
                        (c_url c)) st with
    | (inr message, st) => print (error_caught message) st
    | (inl out1, st) =>
        let videoUrl := trim out1 in
        match execSync w (yt_dlp_get_url "bestaudio[ext=m4a]/bestaudio"
                            (c_url c)) st with
        | (inr message, st) => print (error_caught message) st
        | (inl out2, st) =>
            let audioUrl := trim out2 in
            let command :=
              ffmpeg_cut startTime videoUrl audioUrl duration fileName in
            let st := print log_processing st in
            match execSync w command st with
            | (inr message, st) => print (error_caught message) st
            | (inl _, st) => print (log_success fileName) st
            end
        end
    end.

End Robot.

(** ** The server: progress bus, [/trim] and [processVideo] *)
Module Server.
Import JS.

(** *** Progress events *)

Inductive status :=
| connected | downloading | trimming | cleaning | complete | error.

(** The [message] of an event: a text, or the download template
    [`Mengunduh video... ${Math.round(downloadPercent)}%`] with the number
    it interpolates. *)
Inductive message :=
| text (s : string)
| downloading_percent (rounded : float).

Record event := {
  ev_status : status;
  ev_progress : float;
  ev_message : option message;
  ev_filename : option string
}.

Definition progress_event (s : status) (p : float) (m : string) : event :=
  {| ev_status := s; ev_progress := p; ev_message := Some (text m);
     ev_filename := None |}.

(** [{ status: 'connected', progress: 0 }] *)
Definition connected_event : event :=
  {| ev_status := connected; ev_progress := 0; ev_message := None;
     ev_filename := None |}.

(** The events [processVideo] sends. *)

(** [{ status: 'error', progress: 0, message: `Error: ${error.message}` }] *)
Definition error_event (error_message : string) : event :=
  progress_event error 0 ("Error: " +:+ error_message).

(** The events [processVideo] sends at fixed points. *)
Definition started_event : event :=
  progress_event downloading 5 "Memulai pengunduhan video...".

Definition downloaded_event : event :=
  progress_event downloading 65 "Download selesai, mempersiapkan trimming...".

Definition trimming_event : event :=
  progress_event trimming 70 "Memotong video sesuai durasi yang dipilih...".

Definition cutting_event : event :=
  progress_event trimming 85 "Memotong video...".

Definition cleaning_event : event :=
  progress_event cleaning 96 "Membersihkan file temporary...".

Definition complete_event (filename : string) : event :=
  {| ev_status := complete; ev_progress := 100;
     ev_message := Some (text "Selesai! Mengunduh file...");
     ev_filename := Some filename |}.

(** The event of the download handlers, for a scaled progress. *)
Definition download_event (scaled downloadPercent : float) : event :=
  {| ev_status := downloading;
     ev_progress := Math_round scaled;
     ev_message := Some (downloading_percent (Math_round downloadPercent));
     ev_filename := None |}.

(** *** The progress bus

    [progressStreams] and [taskProgress] are the two global maps of the
    server.  A response object is known by a number; [written] holds what
    has been written to each response, oldest first (one entry per
    [data: ...] frame), and [journal] what [logger.task] was given, one
    entry per call of [sendProgress]. *)
Record bus := {
  progressStreams : gmap string nat;
  taskProgress : gmap string event;
  written : gmap nat (list event);
  journal : list (string * event)
}.

Definition empty_bus : bus :=
  {| progressStreams := ∅; taskProgress := ∅; written := ∅; journal := [] |}.

(** [res.write(`data: ${JSON.stringify(data)}\n\n`)] *)
Definition write (res : nat) (data : event) (b : bus) : bus :=
  {| progressStreams := progressStreams b;
     taskProgress := taskProgress b;
     written := <[res := default [] (written b !! res) ++ [data]]> (written b);
     journal := journal b |}.

(** What a response has received so far. *)
Definition received (res : nat) (b : bus) : list event :=
  default [] (written b !! res).

(** The handler of [GET /progress/:taskId], for the response [res]. *)
Definition get_progress (taskId : string) (res : nat) (b : bus) : bus :=
  let b := write res connected_event b in
  {| progressStreams := <[taskId := res]> (progressStreams b);
     taskProgress := taskProgress b;
     written := written b;
     journal := journal b |}.

(** Its [req.on('close', ...)] callback. *)
Definition get_progress_close (taskId : string) (b : bus) : bus :=
  {| progressStreams := delete taskId (progressStreams b);
     taskProgress := taskProgress b;
     written := written b;
     journal := journal b |}.

Definition sendProgress (taskId : string) (data : event) (b : bus) : bus :=
  let b :=
    match progressStreams b !! taskId with
    | Some stream => write stream data b
    | None => b
    end in
  {| progressStreams := progressStreams b;
     taskProgress := <[taskId := data]> (taskProgress b);
     written := written b;
     journal := journal b ++ [(taskId, data)] |}.

(** One call of a handler of the bus: [sendProgress(taskId, data)], a
    request [GET /progress/:taskId] answered on the response [res], or the
    ['close'] callback of a connection to the task. *)
Inductive bus_call :=
| published (taskId : string) (data : event)
| subscribed (taskId : string) (res : nat)
| disconnected (taskId : string).

Definition call (c : bus_call) (b : bus) : bus :=
  match c with
  | published taskId data => sendProgress taskId data b
  | subscribed taskId res => get_progress taskId res b
  | disconnected taskId => get_progress_close taskId b
  end.

(** Calls handled one after the other, in the order the server meets
    them. *)
Definition calls (cs : list bus_call) (b : bus) : bus :=
  fold_left (λ b c, call c b) cs b.

(** The events published for a task among some calls, in order. *)
Definition events_for (taskId : string) (cs : list bus_call) : list event :=
  flat_map
    (λ c, match c with
          | published t data => if String.eqb t taskId then [data] else []
          | _ => []
          end)
    cs.

(** The call registers the response [res] as a sink. *)
Definition registers (res : nat) (c : bus_call) : bool :=
  match c with
  | subscribed _ r => Nat.eqb r res
  | _ => false
  end.

(** The call changes the sink of the task: it is a subscription to the
    task, or the close of a connection to it. *)
Definition changes_sink (taskId : string) (c : bus_call) : bool :=
  match c with
  | subscribed t _ | disconnected t => String.eqb t taskId
  | published _ _ => false
  end.

(** Some calls without those that publish for a task. *)
Definition without_events_of (taskId : string) (cs : list bus_call)
  : list bus_call :=
  List.filter
    (λ c, match c with
          | published t _ => negb (String.eqb t taskId)
          | _ => true
          end)
    cs.

(** *** Paths

    Every path of the server lies in one working directory; a path is
    modelled by the name of the file in it, so that [path.dirname] is that
    directory, [path.join(dir, file)] is [file] and [fs.readdirSync(dir)]
    is the list of the names present. *)

(** The part of [s] from its last point on, if it has a point. *)
Fixpoint from_last_dot (s : string) : option string :=
  match s with
  | EmptyString => None
  | String c r =>
      match from_last_dot r with
      | Some ext => Some ext
      | None => if Ascii.eqb c "." then Some s else None
      end
  end.

(** [path.extname(name)]: from the last point on; a point that starts the
    name does not count. *)
Definition extname (name : string) : string :=
  match name with
  | EmptyString => EmptyString
  | String _ r => default EmptyString (from_last_dot r)
  end.

(** [path.basename(name, ext)]: the name without the suffix [ext], when it
    ends with it and is more than it. *)
Definition basename (name ext : string) : string :=
  if endsWith name ext && negb (String.eqb name ext)
  then String.substring 0 (String.length name - String.length ext) name
  else name.

(** [s.split(sep)] for a separator of one character. *)
Fixpoint split_on (sep : ascii) (s : string) : list string :=
  match s with
  | EmptyString => [EmptyString]
  | String c r =>
      if Ascii.eqb c sep then EmptyString :: split_on sep r
      else match split_on sep r with
           | h :: t => String c h :: t
           | [] => [String c EmptyString]
           end
  end.

(** *** The file system and the subprocesses *)

(** The commands the server spawns, with the values interpolated. *)
Inductive command :=
| yt_dlp_audio (tempFile url : string)
| yt_dlp_video (quality tempFile url : string)
| ffmpeg_trim (input start : string) (duration : float) (output : string).

(** How the file system fails: the message of the error with which
    [fs.readdirSync] of the working directory throws, and for each name
    the messages with which [fs.statSync] and [fs.unlinkSync] throw;
    [None] where the call succeeds. *)
Record faults := {
  readdir_error : option string;
  stat_error : string -> option string;
  unlink_error : string -> option string
}.

Definition no_faults : faults :=
  {| readdir_error := None;
     stat_error := λ _, None;
     unlink_error := λ _, None |}.

(** The state a task runs in: the bus, the names present in the working
    directory, how the file system fails, and the subprocesses spawned so
    far. *)
Record pstate := {
  the_bus : bus;
  disk : list string;
  fs_faults : faults;
  spawned : list command
}.

(** A computation that may throw (the message of the [Error]). *)
Inductive outcome (A : Type) :=
| returned (a : A)
| thrown (error_message : string).
Arguments returned {A} a.
Arguments thrown {A} error_message.

Definition proc (A : Type) : Type := pstate -> outcome A * pstate.

Definition ret {A : Type} (a : A) : proc A := λ st, (returned a, st).

Definition bind {A B : Type} (m : proc A) (f : A -> proc B) : proc B :=
  λ st,
    match m st with
    | (returned a, st') => f a st'
    | (thrown e, st') => (thrown e, st')
    end.

Notation "x <- m ;; k" := (bind m (λ x, k))
  (at level 100, m at next level, right associativity).
Notation "m ;; k" := (bind m (λ _, k))
  (at level 100, right associativity).

Definition throw {A : Type} (error_message : string) : proc A :=
  λ st, (thrown error_message, st).

(** [try { body } catch (error) { handler(error.message) }] *)
Definition try_catch (body : proc ()) (handler : string -> proc ()) : proc () :=
  λ st,
    match body st with
    | (returned tt, st') => (returned tt, st')
    | (thrown e, st') => handler e st'
    end.

Definition send (taskId : string) (data : event) : proc () :=
  λ st, (returned tt,
         {| the_bus := sendProgress taskId data (the_bus st);
            disk := disk st; fs_faults := fs_faults st; spawned := spawned st |}).

Definition spawn (cmd : command) : proc () :=
  λ st, (returned tt,
         {| the_bus := the_bus st; disk := disk st; fs_faults := fs_faults st;
            spawned := spawned st ++ [cmd] |}).

(** The subprocess has ended: the directory holds what it left there, and
    the file system fails as it does then. *)
Definition subprocess_left (names : list string) (failing : faults) : proc () :=
  λ st, (returned tt,
         {| the_bus := the_bus st; disk := names; fs_faults := failing;
            spawned := spawned st |}).

(** [fs.readdirSync(dir)]: the names present, or the error. *)
Definition readdirSync : proc (list string) :=
  λ st,
    match readdir_error (fs_faults st) with
    | Some error_message => (thrown error_message, st)
    | None => (returned (disk st), st)
    end.

(** [fs.existsSync(name)], which never throws. *)
Definition existsSync (name : string) : proc bool :=
  λ st, (returned (bool_decide (name ∈ disk st)), st).

(** [fs.unlinkSync(name)] of a name that is present: the name goes, or
    the call throws and the name stays. *)
Definition unlinkSync (name : string) : proc () :=
  λ st,
    match unlink_error (fs_faults st) name with
    | Some error_message => (thrown error_message, st)
    | None =>
        (returned tt,
         {| the_bus := the_bus st;
            disk := List.filter (λ f, negb (String.eqb f name)) (disk st);
            fs_faults := fs_faults st;
            spawned := spawned st |})
    end.

(** [files.forEach(f)] *)
Fixpoint forEach {A : Type} (f : A -> proc ()) (l : list A) : proc () :=
  match l with
  | [] => ret tt
  | x :: rest => f x ;; forEach f rest
  end.

(** *** [processVideo] *)

Record options := {
  url : string;
  start : string;
  duration : float;
  format : string;
  quality : string;
  tempFile : string;
  finalFile : string;
  filename : string
}.

(** A chunk of output of a subprocess, on one of its two streams. *)
Inductive chunk :=
| stdout (output : string)
| stderr (output : string).

(** How a subprocess ends for the promise that waits for it: its ['close']
    event with the exit code ([None] for [null], a process ended by a
    signal), or its ['error'] event with the message of the error. *)
Inductive stage_end :=
| close (code : option Z)
| spawn_error (error_message : string).

(** What the outside world does during one run of [processVideo]: the
    output and the end of the downloader, the names in the working
    directory and the way the file system fails when it has ended, and
    the same for the cutter.

    The file system is as the world gives it during the steps that
    follow the end of a subprocess without waiting.

    In a run of [processVideo] each subprocess ends: the promise that
    waits for it is settled by its ['close'] or its ['error'] event.  The
    code sets no time limit, and a run whose subprocess never ends stays
    where [until_download_ends] or [until_cut_ends] below leave it.  The
    other handlers of the server that run while the task waits
    (subscriptions to [/progress] and their ends) are not part of a run:
    what the responses receive is described on the bus, for the calls in
    any order. *)
Record world := {
  yt_output : list chunk;
  yt_end : stage_end;
  disk_after_download : list string;
  faults_after_download : faults;
  ff_output : list chunk;
  ff_end : stage_end;
  disk_after_cut : list string;
  faults_after_cut : faults
}.

Definition has_media_extension (file : string) : bool :=
  endsWith file ".mp4" || endsWith file ".mp3" || endsWith file ".webm"
  || endsWith file ".mkv".

(** The loop of [findDownloadedFile] over the matching names: the first
    that exists and has the extension of a media file, or else the path
    asked for. *)
Fixpoint first_media_file (matches : list string) (basePath : string)
  : proc string :=
  match matches with
  | [] => ret basePath
  | file :: rest =>
      present <- existsSync file ;;
      if present && has_media_extension file then ret file
      else first_media_file rest basePath
  end.

Definition findDownloadedFile (basePath : string) : proc string :=
  let base := basename basePath (extname basePath) in
  files <- readdirSync ;;
  let matches :=
    List.filter
      (λ f, startsWith f base || includes f (basename basePath ".mp4"))
      files in
  exact <- existsSync basePath ;;
  if exact then ret basePath else first_media_file matches basePath.

(** The variables the two download handlers share. *)
Record download_vars := {
  lastProgress : float;
  errorOutput : string
}.

(** [Math.min(5 + (downloadPercent * 0.6), 65)]; the literal [0.6] is the
    binary64 value written here in hexadecimal. *)
Definition scaledProgress (downloadPercent : float) : float :=
  Math_min (5 + downloadPercent * 0x1.3333333333333p-1)%float 65.

(** The part the two handlers have in common: read a percentage in the
    chunk, scale it, and report it when it is above [lastProgress]. *)
Definition report_download (taskId output : string) (v : download_vars)
  : proc download_vars :=
  match match_percent output with
  | Some token =>
      let downloadPercent := parseFloat token in
      let scaled := scaledProgress downloadPercent in
      if (lastProgress v <? scaled)%float then
        send taskId (download_event scaled downloadPercent) ;;
        ret {| lastProgress := scaled; errorOutput := errorOutput v |}
      else ret v
  | None => ret v
  end.

(** [ytProcess.stdout.on('data', ...)] and [ytProcess.stderr.on('data', ...)] *)
Definition yt_on_data (taskId : string) (c : chunk) (v : download_vars)
  : proc download_vars :=
  match c with
  | stdout output => report_download taskId output v
  | stderr output =>
      report_download taskId output
        {| lastProgress := lastProgress v;
           errorOutput := errorOutput v +:+ output |}
  end.

Fixpoint yt_data (taskId : string) (chunks : list chunk) (v : download_vars)
  : proc download_vars :=
  match chunks with
  | [] => ret v
  | c :: rest => v' <- yt_on_data taskId c v ;; yt_data taskId rest v'
  end.

(** [`${code}`] for an exit code. *)
Definition show_code (code : option Z) : string :=
  match code with
  | Some n => show_Z n
  | None => "null"
  end.

(** [ytProcess.on('close', ...)] and [ytProcess.on('error', ...)] *)
Definition yt_on_end (e : stage_end) (v : download_vars) : proc () :=
  match e with
  | close (Some 0) => ret tt
  | close code =>
      throw ("Download gagal (code " +:+ show_code code +:+ "): "
             +:+ substring_0 200 (errorOutput v))
  | spawn_error error_message => throw error_message
  end.

(** [ffProcess.stderr.on('data', ...)]; nothing listens to the standard
    output of the cutter. *)
Definition ff_on_data (taskId : string) (c : chunk) : proc () :=
  match c with
  | stderr output =>
      if includes output "time=" then send taskId cutting_event else ret tt
  | stdout _ => ret tt
  end.

Definition ff_on_end (e : stage_end) : proc () :=
  match e with
  | close (Some 0) => ret tt
  | close code => throw ("ffmpeg exited with code " +:+ show_code code)
  | spawn_error error_message => throw error_message
  end.

(** [`temp_` + taskId.split('_')[1]] *)
Definition temp_prefix_of (taskId : string) : string :=
  "temp_" +:+ default "undefined" (split_on "_" taskId !! 1%nat).

(** The clean-up after a successful cut.  Its outer [try] catches the
    error of [fs.readdirSync], and the inner one, for each file, that of
    [fs.unlinkSync]; both go on after a warning in the log. *)
Definition cleanup_success (taskId : string) (o : options) : proc () :=
  try_catch
    (let base := basename (tempFile o) (extname (tempFile o)) in
     files <- readdirSync ;;
     forEach
       (λ file,
          if startsWith file base || startsWith file (temp_prefix_of taskId) then
            if negb (String.eqb file (finalFile o)) then
              present <- existsSync file ;;
              if present
              then try_catch (unlinkSync file) (λ _, ret tt)
              else ret tt
            else ret tt
          else ret tt)
       files)
    (λ _, ret tt).

(** The clean-up of the [catch] block, with the same two [try]
    statements, whose [catch] blocks are empty. *)
Definition cleanup_error (taskId : string) (o : options) : proc () :=
  try_catch
    (files <- readdirSync ;;
     forEach
       (λ file,
          if includes file taskId
             || startsWith file (basename (tempFile o) ".mp4") then
            present <- existsSync file ;;
            if present
            then try_catch (unlinkSync file) (λ _, ret tt)
            else ret tt
          else ret tt)
       files)
    (λ _, ret tt).

(** The run from its start to the point where it waits for the end of
    the downloader: the first event, the downloader spawned, and its
    output handled.  A run whose downloader never ends stays there. *)
Definition until_download_ends (w : world) (taskId : string) (o : options)
  : proc download_vars :=
  send taskId started_event ;;
  spawn (if String.eqb (format o) "mp3"
         then yt_dlp_audio (tempFile o) (url o)
         else yt_dlp_video (quality o) (tempFile o) (url o)) ;;
  yt_data taskId (yt_output w)
    {| lastProgress := 5; errorOutput := EmptyString |}.

(** The run from its start to the point where it waits for the end of
    the cutter, when nothing has thrown before.  A run whose cutter never
    ends stays there. *)
Definition until_cut_ends (w : world) (taskId : string) (o : options) : proc () :=
  v <- until_download_ends w taskId o ;;
  subprocess_left (disk_after_download w) (faults_after_download w) ;;
  yt_on_end (yt_end w) v ;;
  send taskId downloaded_event ;;
  actualTempFile <- findDownloadedFile (tempFile o) ;;
  found <- existsSync actualTempFile ;;
  (if found then ret tt else throw "File download tidak ditemukan") ;;
  send taskId trimming_event ;;
  spawn (ffmpeg_trim actualTempFile (start o) (duration o) (finalFile o)) ;;
  forEach (ff_on_data taskId) (ff_output w).

Definition processVideo (w : world) (taskId : string) (o : options) : proc () :=
  try_catch
    (until_cut_ends w taskId o ;;
     subprocess_left (disk_after_cut w) (faults_after_cut w) ;;
     ff_on_end (ff_end w) ;;
     send taskId cleaning_event ;;
     cleanup_success taskId o ;;
     final <- existsSync (finalFile o) ;;
     (if final then ret tt else throw "File hasil trim tidak ditemukan") ;;
     send taskId (complete_event (filename o)))
    (λ error_message,
       cleanup_error taskId o ;;
       send taskId (error_event error_message)).

(** *** [POST /trim] *)

(** The body of a request. *)
Record trim_body := {
  b_url : string;
  b_start : string;
  b_end : string;
  b_filename : option string;
  b_format : string;
  b_quality : string
}.

Inductive validation_error :=
| invalid_url | invalid_start | invalid_end | invalid_duration.

Record validation := {
  isValid : bool;
  errors : list validation_error;
  data : trim_body;
  data_filename : string
}.

(** The answer to [POST /trim]: status 400 with the joined errors, or the
    identifier of the task that was started. *)
Inductive response :=
| bad_request (errors : list validation_error)
| started (taskId : string).

Section Trim.

(** [utils/validators] is not among the sources.  The checks of shape and
    the cleaning of file names it supplies are parameters. *)
Variable isVideoUrl : string -> bool.
Variable isTimeString : string -> bool.
Variable sanitizeFilename : option string -> string.

(** Modelled from the spec: [validators.timeToSeconds], of the missing
    [utils/validators]; section 4.1 describes it as [parseTimeToSeconds]:
    split on the colon, segments from right to left, each weighing sixty
    times the previous one, 0 on empty input. *)
Definition validators_timeToSeconds (text : string) : float :=
  Robot.parseTimeToSeconds_spec text.

(** Modelled from the spec: [validators.validateTrimRequest], of the missing
    [utils/validators]; section 4.4 lists what is validated before any
    subprocess: the URL matches a recognized video host, start and end each
    match the pattern of a time, the computed duration is greater than 0,
    and the file name is sanitized, a default standing for an absent one. *)
Definition validateTrimRequest (body : trim_body) : validation :=
  let duration :=
    (validators_timeToSeconds (b_end body)
     - validators_timeToSeconds (b_start body))%float in
  let errors :=
    (if isVideoUrl (b_url body) then [] else [invalid_url])
    ++ (if isTimeString (b_start body) then [] else [invalid_start])
    ++ (if isTimeString (b_end body) then [] else [invalid_end])
    ++ (if (0 <? duration)%float then [] else [invalid_duration]) in
  {| isValid := match errors with [] => true | _ => false end;
     errors := errors;
     data := body;
     data_filename := sanitizeFilename (b_filename body) |}.

(** The handler of [POST /trim].  [now] is [Date.now()] and [random] is
    [Math.random().toString(36).substr(2, 9)].  The answer is sent before
    [processVideo] runs; the order plays no role here, and it is returned
    at the end.  The rate limiter and the check of disk space run before
    the handler and are not part of it. *)
Definition post_trim (w : world) (now : Z) (random : string) (body : trim_body)
  : proc response :=
  let validation := validateTrimRequest body in
  if negb (isValid validation) then
    ret (bad_request (errors validation))
  else
    let d := data validation in
    let startSec := validators_timeToSeconds (b_start d) in
    let endSec := validators_timeToSeconds (b_end d) in
    let duration := (endSec - startSec)%float in
    let taskId := "task_" +:+ show_Z now +:+ "_" +:+ random in
    let extension := if String.eqb (b_format d) "mp3" then "mp3" else "mp4" in
    let tempFile := "temp_" +:+ taskId +:+ "." +:+ extension in
    let finalFile := data_filename validation +:+ "." +:+ extension in
    let outputFilename := data_filename validation +:+ "." +:+ extension in
    processVideo w taskId
      {| url := b_url d; start := b_start d; duration := duration;
         format := b_format d; quality := b_quality d;
         tempFile := tempFile; finalFile := finalFile;
         filename := outputFilename |} ;;
    ret (started taskId).

End Trim.

(** *** Reading a run *)

(** The state before anything happened. *)
Definition initial_state : pstate :=
  {| the_bus := empty_bus; disk := []; fs_faults := no_faults; spawned := [] |}.

(** [sendProgress] called for each event of a list, in order. *)
Definition publish_all (taskId : string) (evs : list event) (b : bus) : bus :=
  fold_left (λ b data, sendProgress taskId data b) evs b.

(** The events [sendProgress] was called with between two states of the
    bus, oldest first. *)
Definition events_since (before after : bus) : list event :=
  map snd (drop (length (journal before)) (journal after)).

(** A list of numbers is non-decreasing, in the order of JavaScript. *)
Fixpoint nondecreasing (l : list float) : bool :=
  match l with
  | x :: (y :: _) as rest => (x <=? y)%float && nondecreasing rest
  | _ => true
  end.

Definition is_terminal (s : status) : bool :=
  match s with
  | complete | error => true
  | _ => false
  end.

Definition status_eqb (a b : status) : bool :=
  match a, b with
  | connected, connected | downloading, downloading | trimming, trimming
  | cleaning, cleaning | complete, complete | error, error => true
  | _, _ => false
  end.

(** The last [n] characters of a text. *)
Definition last_chars (n : nat) (s : string) : string :=
  String.substring (String.length s - n) n s.

(** All that a subprocess wrote on its standard error. *)
Fixpoint stderr_text (chunks : list chunk) : string :=
  match chunks with
  | [] => EmptyString
  | stderr output :: rest => output +:+ stderr_text rest
  | stdout _ :: rest => stderr_text rest
  end.

(** *** The run as a value

    What a run of [processVideo] does, computed without the state: the
    events it sends, the names it leaves in the directory and the commands
    it spawns.  [processVideo_view] below proves that the run is that. *)

Definition report_view (output : string) (v : download_vars)
  : list event * download_vars :=
  match match_percent output with
  | Some token =>
      let scaled := scaledProgress (parseFloat token) in
      if (lastProgress v <? scaled)%float
      then ([download_event scaled (parseFloat token)],
            {| lastProgress := scaled; errorOutput := errorOutput v |})
      else ([], v)
  | None => ([], v)
  end.

Fixpoint yt_view (chunks : list chunk) (v : download_vars)
  : list event * download_vars :=
  match chunks with
  | [] => ([], v)
  | c :: rest =>
      let '(evs, v') :=
        match c with
        | stdout output => report_view output v
        | stderr output =>
            report_view output
              {| lastProgress := lastProgress v;
                 errorOutput := errorOutput v +:+ output |}
        end in
      let '(more, v'') := yt_view rest v' in
      (evs ++ more, v'')
  end.

Definition ff_view (chunks : list chunk) : list event :=
  flat_map
    (λ c, match c with
          | stderr output =>
              if includes output "time="
              then [cutting_event]
              else []
          | stdout _ => []
          end)
    chunks.

Definition found_view (names : list string) (basePath : string) : string :=
  if bool_decide (basePath ∈ names) then basePath
  else
    default basePath
      (List.find
         (λ file, bool_decide (file ∈ names) && has_media_extension file)
         (List.filter
            (λ f, startsWith f (basename basePath (extname basePath))
                  || includes f (basename basePath ".mp4"))
            names)).

(** The names the clean-up after a successful cut removes. *)
Definition removed_on_success (taskId : string) (o : options) (file : string)
  : bool :=
  (startsWith file (basename (tempFile o) (extname (tempFile o)))
   || startsWith file (temp_prefix_of taskId))
  && negb (String.eqb file (finalFile o)).

(** The names the clean-up of the [catch] block removes. *)
Definition removed_on_error (taskId : string) (o : options) (file : string)
  : bool :=
  includes file taskId || startsWith file (basename (tempFile o) ".mp4").

(** Whether [fs.unlinkSync] of a name succeeds. *)
Definition unlinkable (failing : faults) (name : string) : bool :=
  match unlink_error failing name with
  | Some _ => false
  | None => true
  end.

(** The names a clean-up leaves that selects with [selected]: all of
    them when the directory cannot be read, and otherwise those that are
    not selected and those that cannot be unlinked. *)
Definition swept (failing : faults) (selected : string -> bool)
    (names : list string) : list string :=
  match readdir_error failing with
  | Some _ => names
  | None => List.filter (λ f, negb (selected f && unlinkable failing f)) names
  end.

Definition end_error (stage : string -> string) (e : stage_end) : option string :=
  match e with
  | close (Some 0) => None
  | close code => Some (stage (show_code code))
  | spawn_error error_message => Some error_message
  end.

Record run := {
  run_events : list event;
  run_disk : list string;
  run_faults : faults;
  run_spawned : list command
}.

Definition run_view (w : world) (taskId : string) (o : options) : run :=
  let '(reports, v) :=
    yt_view (yt_output w) {| lastProgress := 5; errorOutput := EmptyString |} in
  let download_cmd :=
    if String.eqb (format o) "mp3"
    then yt_dlp_audio (tempFile o) (url o)
    else yt_dlp_video (quality o) (tempFile o) (url o) in
  let failed (evs : list event) (names : list string) (failing : faults)
        (cmds : list command) (error_message : string) :=
    {| run_events := evs ++ [error_event error_message];
       run_disk := swept failing (removed_on_error taskId o) names;
       run_faults := failing;
       run_spawned := cmds |} in
  let downloading_events := started_event :: reports in
  match
    end_error
      (λ code, "Download gagal (code " +:+ code +:+ "): "
               +:+ substring_0 200 (errorOutput v))
      (yt_end w)
  with
  | Some error_message =>
      failed downloading_events (disk_after_download w)
        (faults_after_download w) [download_cmd] error_message
  | None =>
      let downloaded_events := downloading_events ++ [downloaded_event] in
      match readdir_error (faults_after_download w) with
      | Some error_message =>
          failed downloaded_events (disk_after_download w)
            (faults_after_download w) [download_cmd] error_message
      | None =>
          let actualTempFile := found_view (disk_after_download w) (tempFile o) in
          if negb (bool_decide (actualTempFile ∈ disk_after_download w)) then
            failed downloaded_events (disk_after_download w)
              (faults_after_download w) [download_cmd]
              "File download tidak ditemukan"
          else
            let cmds :=
              [download_cmd;
               ffmpeg_trim actualTempFile (start o) (duration o) (finalFile o)] in
            let trimming_events :=
              downloaded_events ++ trimming_event :: ff_view (ff_output w) in
            match
              end_error (λ code, "ffmpeg exited with code " +:+ code) (ff_end w)
            with
            | Some error_message =>
                failed trimming_events (disk_after_cut w) (faults_after_cut w)
                  cmds error_message
            | None =>
                let cleaning_events := trimming_events ++ [cleaning_event] in
                let names :=
                  swept (faults_after_cut w) (removed_on_success taskId o)
                    (disk_after_cut w) in
                if bool_decide (finalFile o ∈ names) then
                  {| run_events :=
                       cleaning_events ++ [complete_event (filename o)];
                     run_disk := names;
                     run_faults := faults_after_cut w;
                     run_spawned := cmds |}
                else
                  failed cleaning_events names (faults_after_cut w) cmds
                    "File hasil trim tidak ditemukan"
            end
      end
  end.

(** *** Definitions for the proofs *)

(** One step of a clean-up loop: the file goes when [del] selects it,
    it is present and it can be unlinked. *)
Definition sweep_step (del : string -> bool) (file : string) : proc () :=
  λ st,
    (returned tt,
     if del file && unlinkable (fs_faults st) file && bool_decide (file ∈ disk st)
     then {| the_bus := the_bus st;
             disk := List.filter (λ f, negb (String.eqb f file)) (disk st);
             fs_faults := fs_faults st;
             spawned := spawned st |}
     else st).

(** The events of a task that runs to the end, in the order sent. *)
Definition all_events (w : world) (o : options) : list event :=
  (((started_event
     :: fst (yt_view (yt_output w)
               {| lastProgress := 5; errorOutput := EmptyString |}))
    ++ [downloaded_event])
   ++ trimming_event :: ff_view (ff_output w))
  ++ [cleaning_event] ++ [complete_event (filename o)].

End Server.

(** ** Examples *)
Module Examples.
Import JS Server.

(** Examples: a task, and worlds for it. *)
Definition example_task : string := "task_1700000000000_k3x9q2m1a".

Definition example_options : options :=
  {| url := "https://www.youtube.com/watch?v=dQw4w9WgXcQ";
     start := "00:03:00"; duration := 60; format := "mp4"; quality := "720";
     tempFile := "temp_task_1700000000000_k3x9q2m1a.mp4";
     finalFile := "clip.mp4"; filename := "clip.mp4" |}.

(** The downloader fails at once. *)
Definition world_download_fails : world :=
  {| yt_output := [stderr "ERROR: Video unavailable"];
     yt_end := close (Some 1);
     disk_after_download := [];
     faults_after_download := no_faults;
     ff_output := []; ff_end := close (Some 0);
     disk_after_cut := [];
     faults_after_cut := no_faults |}.

(** Everything goes well. *)
Definition world_success : world :=
  {| yt_output :=
       [stdout "[download]   1.0% of 10.00MiB";
        stdout "[download]   1.2% of 10.00MiB";
        stdout "[download]  50.0% of 10.00MiB";
        stderr "[download]  10.0% of 10.00MiB";
        stdout "[download] 100% of 10.00MiB"];
     yt_end := close (Some 0);
     disk_after_download := ["temp_task_1700000000000_k3x9q2m1a.mp4"];
     faults_after_download := no_faults;
     ff_output := [stderr "frame=  100 fps=0.0 time=00:00:04.00 bitrate=..."];
     ff_end := close (Some 0);
     disk_after_cut := ["temp_task_1700000000000_k3x9q2m1a.mp4"; "clip.mp4"];
     faults_after_cut := no_faults |}.

(** A request from 00:04:00 back to 00:03:00. *)
Definition reversed_content : Robot.content :=
  {| Robot.c_startTime := None; Robot.c_start := Some "00:04:00";
     Robot.c_endTime := None; Robot.c_end := Some "00:03:00";
     Robot.c_fileName := None; Robot.c_filename := Some "clip";
     Robot.c_url := "https://www.youtube.com/watch?v=dQw4w9WgXcQ" |}.

Definition reversed_body : trim_body :=
  {| b_url := "https://www.youtube.com/watch?v=dQw4w9WgXcQ";
     b_start := "00:04:00"; b_end := "00:03:00";
     b_filename := Some "clip"; b_format := "mp4"; b_quality := "720" |}.

Definition quiet_world : Robot.world :=
  {| Robot.typed := []; Robot.shell := fun _ => inl EmptyString |}.

(** The downloader fails after many warnings; the error comes last. *)
Definition world_download_fails_late : world :=
  {| yt_output :=
       [stderr "WARNING: unable to extract uploader id; please report it. ";
        stderr "WARNING: unable to extract uploader id; please report it. ";
        stderr "WARNING: unable to extract uploader id; please report it. ";
        stderr "WARNING: unable to extract uploader id; please report it. ";
        stderr "ERROR: Video unavailable"];
     yt_end := close (Some 1);
     disk_after_download := [];
     faults_after_download := no_faults;
     ff_output := []; ff_end := close (Some 0);
     disk_after_cut := [];
     faults_after_cut := no_faults |}.

(** The cutter fails. *)
Definition world_cut_fails : world :=
  {| yt_output := [stdout "[download] 100% of 10.00MiB"];
     yt_end := close (Some 0);
     disk_after_download := ["temp_task_1700000000000_k3x9q2m1a.mp4"];
     faults_after_download := no_faults;
     ff_output := [stderr "Conversion failed!"];
     ff_end := close (Some 1);
     disk_after_cut :=
       ["notes.txt"; "temp_task_1700000000000_k3x9q2m1a.mp4";
        "temp_task_1700000000001_zzzzzzzzz.mp4"];
     faults_after_cut := no_faults |}.

(** The cutter fails, and the temporary file of the task cannot be
    unlinked. *)
Definition world_cut_fails_locked : world :=
  {| yt_output := [stdout "[download] 100% of 10.00MiB"];
     yt_end := close (Some 0);
     disk_after_download := ["temp_task_1700000000000_k3x9q2m1a.mp4"];
     faults_after_download := no_faults;
     ff_output := [stderr "Conversion failed!"];
     ff_end := close (Some 1);
     disk_after_cut := ["notes.txt"; "temp_task_1700000000000_k3x9q2m1a.mp4"];
     faults_after_cut :=
       {| readdir_error := None;
          stat_error := fun _ => None;
          unlink_error := fun name =>
            if String.eqb name "temp_task_1700000000000_k3x9q2m1a.mp4"
            then Some "EPERM: operation not permitted, unlink"
            else None |} |}.

(** A task whose identifier starts the identifier of another task, created
    in the same millisecond. *)
Definition short_task : string := "task_1700000000000_i".

Definition short_options : options :=
  {| url := "https://www.youtube.com/watch?v=dQw4w9WgXcQ";
     start := "00:03:00"; duration := 60; format := "mp4"; quality := "720";
     tempFile := "temp_task_1700000000000_i.mp4";
     finalFile := "clip.mp4"; filename := "clip.mp4" |}.

(** The cutter fails while the other task has its temporary file. *)
Definition world_cut_fails_beside : world :=
  {| yt_output := [];
     yt_end := close (Some 0);
     disk_after_download :=
       ["temp_task_1700000000000_i.mp4"; "temp_task_1700000000000_i4x9q2m1a.mp4"];
     faults_after_download := no_faults;
     ff_output := [];
     ff_end := close (Some 1);
     disk_after_cut :=
       ["temp_task_1700000000000_i.mp4"; "temp_task_1700000000000_i4x9q2m1a.mp4"];
     faults_after_cut := no_faults |}.

(** The cutter succeeds while the other task has its temporary file. *)
Definition world_success_beside : world :=
  {| yt_output := [];
     yt_end := close (Some 0);
     disk_after_download :=
       ["temp_task_1700000000000_i.mp4"; "temp_task_1700000000000_i4x9q2m1a.mp4"];
     faults_after_download := no_faults;
     ff_output := [];
     ff_end := close (Some 0);
     disk_after_cut :=
       ["temp_task_1700000000000_i.mp4"; "temp_task_1700000000000_i4x9q2m1a.mp4";
        "clip.mp4"];
     faults_after_cut := no_faults |}.

(** The cutter succeeds and leaves no final file. *)
Definition world_final_missing : world :=
  {| yt_output := [stdout "[download] 100% of 10.00MiB"];
     yt_end := close (Some 0);
     disk_after_download := ["temp_task_1700000000000_k3x9q2m1a.mp4"];
     faults_after_download := no_faults;
     ff_output := [stderr "frame=  100 fps=0.0 time=00:00:04.00 bitrate=..."];
     ff_end := close (Some 0);
     disk_after_cut := ["notes.txt"; "temp_task_1700000000000_k3x9q2m1a.mp4"];
     faults_after_cut := no_faults |}.

End Examples.

(** ** The command-line robot, read as a value *)
Module RobotRun.
Import JS Robot.

(** The name [download] gives to its output: the [fileName] of the content,
    or its [filename], or [video_potong.mp4], with [.mp4] added when the
    name does not end with it. *)
Definition output_name (c : content) : string :=
  let fileName :=
    js_text (js_or (js_or (c_fileName c) (c_filename c))
               (Some "video_potong.mp4")) in
  if endsWith fileName ".mp4" then fileName else fileName +:+ ".mp4".

Definition get_video_url (c : content) : command :=
  yt_dlp_get_url "bestvideo[height<=1080][ext=mp4]/bestvideo" (c_url c).

Definition get_audio_url (c : content) : command :=
  yt_dlp_get_url "bestaudio[ext=m4a]/bestaudio" (c_url c).

(** What [download] executes and prints once the duration has passed its
    check: the commands in order up to the first that fails, and the lines
    after the one with the final data. *)
Definition commands_view (w : world) (c : content) (startTime : string)
    (duration : float) : list command * list console :=
  match shell w (get_video_url c) with
  | inr message => ([get_video_url c], [error_caught message])
  | inl out1 =>
      match shell w (get_audio_url c) with
      | inr message =>
          ([get_video_url c; get_audio_url c], [error_caught message])
      | inl out2 =>
          let cut :=
            ffmpeg_cut startTime (trim out1) (trim out2) duration
              (output_name c) in
          ([get_video_url c; get_audio_url c; cut],
           log_processing
           :: match shell w cut with
              | inr message => [error_caught message]
              | inl _ => [log_success (output_name c)]
              end)
      end
  end.

End RobotRun.

(** ** Clock times *)
Module ClockTime.
Import JS Robot.

(** A text of decimal digits only. *)
Fixpoint digits_only (s : string) : bool :=
  match s with
  | String c r => is_digit c && digits_only r
  | EmptyString => true
  end.

(** A text without any decimal digit. *)
Fixpoint no_digit (s : string) : bool :=
  match s with
  | String c r => negb (is_digit c) && no_digit r
  | EmptyString => true
  end.

(** The integers from 0 up to, and without, [n]. *)
Fixpoint count_up (fuel : nat) (from : Z) : list Z :=
  match fuel with
  | O => []
  | S fuel => from :: count_up fuel (from + 1)
  end.

Definition upto (n : Z) : list Z := count_up (Z.to_nat n) 0.

(** The Number value of a small natural number, by the conversion of the
    machine: it is [Z2F] there, and it is computed fast. *)
Definition small (z : Z) : float := of_uint63 (Uint63.of_Z z).

(** The three sums of the loop of [timeToSeconds] on a time of three
    segments: the seconds, then the minutes with weight [1 * 60], then the
    hours with weight [1 * 60 * 60]; each is the Number value of the
    integer sum. *)
Definition seconds_sum_exact (s : Z) : bool :=
  Leibniz.eqb (0 + 1 * small s) (small s).

Definition minutes_sum_exact (m s : Z) : bool :=
  Leibniz.eqb (small s + 1 * 60 * small m) (small (60 * m + s)).

Definition hours_sum_exact (h x : Z) : bool :=
  Leibniz.eqb (small x + 1 * 60 * 60 * small h) (small (3600 * h + x)).

End ClockTime.

(** ** The rate limiter of the server *)
Module Limiter.
Import JS.

(** What the limiter reads of a request: [req.ip] and
    [req.connection?.remoteAddress], each a string or undefined. *)
Record request := {
  req_ip : option string;
  remoteAddress : option string
}.

(** [req.ip || req.connection?.remoteAddress || 'unknown'] *)
Definition client_of (req : request) : string :=
  Robot.js_text
    (Robot.js_or (Robot.js_or (req_ip req) (remoteAddress req)) (Some "unknown")).

(** A record of [rateLimitStore].  [Date.now()] and the counters are
    integers far below 2^53, where the arithmetic of Numbers is exact:
    they are modelled by [Z]. *)
Record entry := {
  count : Z;
  startTime : Z
}.

(** What the middleware does with the request: it calls [next()], or it
    answers with status 429. *)
Inductive answer :=
| next
| too_many_requests.

Section LimiterConfig.

(** [config.rateLimit.windowMs] and [config.rateLimit.max]; the module
    [config] is not among the sources. *)
Variable windowMs : Z.
Variable max : Z.

Definition rateLimiter (req : request) (now : Z) (rateLimitStore : gmap string entry)
  : answer * gmap string entry :=
  let ip := client_of req in
  match rateLimitStore !! ip with
  | None => (next, <[ip := {| count := 1; startTime := now |}]> rateLimitStore)
  | Some record =>
      if windowMs <? now - startTime record then
        (next, <[ip := {| count := 1; startTime := now |}]> rateLimitStore)
      else if max <=? count record then
        (too_many_requests, rateLimitStore)
      else
        (next,
         <[ip := {| count := count record + 1; startTime := startTime record |}]>
           rateLimitStore)
  end.

(** The callback of [setInterval] that forgets old records: it goes over
    the entries of the store and deletes those whose window is over. *)
Definition forget_old (now : Z) (rateLimitStore : gmap string entry)
  : gmap string entry :=
  map_fold
    (fun ip record store =>
       if windowMs <? now - startTime record then delete ip store else store)
    rateLimitStore rateLimitStore.

(** The requests that reach the middleware, each with the time at which
    it is handled, in order. *)
Fixpoint serve (requests : list (request * Z)) (rateLimitStore : gmap string entry)
  : list answer * gmap string entry :=
  match requests with
  | [] => ([], rateLimitStore)
  | (req, now) :: rest =>
      let '(a, store) := rateLimiter req now rateLimitStore in
      let '(answers, store) := serve rest store in
      (a :: answers, store)
  end.

(** One store is the other without some records whose window was over at
    [now0]. *)
Definition forgot (now0 : Z) (s1 s2 : gmap string entry) : Prop :=
  forall ip : string,
    s1 !! ip = s2 !! ip
    \/ (s1 !! ip = None
        /\ exists record, s2 !! ip = Some record /\ windowMs < now0 - startTime record).

End LimiterConfig.

End Limiter.

(** ** Handing out the result and the periodic clean-up *)
Module Delivery.
Import JS Server.

(** [filename.replace(pattern, '')], where the pattern is a point, then
    [mp4] or [mp3], then the end of the text: the text without its last
    four characters, when these are [.mp4] or [.mp3]. *)
Definition strip_media_extension (filename : string) : string :=
  if endsWith filename ".mp4" || endsWith filename ".mp3"
  then String.substring 0 (String.length filename - 4) filename
  else filename.

(** How reading the file ends: the ['end'] event of the stream, or its
    ['error'] event. *)
Inductive stream_end :=
| stream_ended
| stream_failed (error_message : string).

(** The answer to [GET /download/:filename]: status 404; or the two
    headers, for the name and the type, and the file piped to the
    response, with or without a timer that deletes the file two seconds
    later; or the same headers and then status 500, when reading failed. *)
Inductive download_answer :=
| not_found
| attachment (safeFilename contentType : string) (delete_later : bool)
| stream_error (safeFilename contentType : string).

Section DeliveryConfig.

(** [validators.sanitizeFilename], of the missing [utils/validators], and
    [config.cleanup.autoDeleteAfterDownload] and
    [config.cleanup.cleanupIntervalMs], of the missing [config]. *)
Variable sanitizeFilename : option string -> string.
Variable autoDeleteAfterDownload : bool.
Variable cleanupIntervalMs : float.

Definition get_download (filename : string) (reading : stream_end)
  : proc download_answer :=
  let sanitized := sanitizeFilename (Some (strip_media_extension filename)) in
  let extension := if endsWith filename ".mp3" then "mp3" else "mp4" in
  let safeFilename := sanitized +:+ "." +:+ extension in
  present <- existsSync safeFilename ;;
  if negb present then ret not_found
  else
    let contentType :=
      if String.eqb extension "mp3" then "audio/mpeg" else "video/mp4" in
    match reading with
    | stream_ended => ret (attachment safeFilename contentType autoDeleteAfterDownload)
    | stream_failed _ => ret (stream_error safeFilename contentType)
    end.

(** The callback of the timer set when the stream has ended; its [catch]
    block logs the error of [fs.unlinkSync] and goes on. *)
Definition delete_after_download (safeFilename : string) : proc () :=
  try_catch
    (present <- existsSync safeFilename ;;
     if present then unlinkSync safeFilename else ret tt)
    (fun _ => ret tt).

(** [fs.statSync(name).mtimeMs], or the error of [fs.statSync];
    [mtimeMs name] is the time the file system holds for the name. *)
Definition stat_mtimeMs (mtimeMs : string -> float) (name : string) : proc float :=
  fun st =>
    match stat_error (fs_faults st) name with
    | Some error_message => (thrown error_message, st)
    | None => (returned (mtimeMs name), st)
    end.

(** The callback of [setInterval] that removes old temporary files; [now]
    is [Date.now()].  One [try] holds the whole loop: the first call of
    [fs.statSync] or [fs.unlinkSync] that throws ends it. *)
Definition cleanup_old_temp_files (now : float) (mtimeMs : string -> float)
  : proc () :=
  try_catch
    (files <- readdirSync ;;
     forEach
       (fun file =>
          if startsWith file "temp_"
             && (endsWith file ".mp4" || endsWith file ".mp3") then
            mtime <- stat_mtimeMs mtimeMs file ;;
            let ageMs := (now - mtime)%float in
            if (cleanupIntervalMs <? ageMs)%float then unlinkSync file else ret tt
          else ret tt)
       files)
    (fun _ => ret tt).

(** Whether the loop of the periodic clean-up ends at a name: the name
    is one of a temporary media file, and [fs.statSync] throws for it, or
    the file is old and [fs.unlinkSync] throws for it. *)
Definition sweep_stops_at (failing : faults) (now : float)
    (mtimeMs : string -> float) (file : string) : bool :=
  startsWith file "temp_" && (endsWith file ".mp4" || endsWith file ".mp3")
  && match stat_error failing file with
     | Some _ => true
     | None =>
         (cleanupIntervalMs <? now - mtimeMs file)%float
         && negb (unlinkable failing file)
     end.

End DeliveryConfig.

(** The names listed before the first one at which a loop stops. *)
Fixpoint listed_before (stops : string -> bool) (names : list string)
  : list string :=
  match names with
  | [] => []
  | name :: rest => if stops name then [] else name :: listed_before stops rest
  end.

End Delivery.

(** ** The preview of a video: [GET /video-info] *)
Module VideoInfo.
Import JS.

(** A value that [JSON.parse] returns.  An object is the list of its own
    properties, each name once. *)
#[warnings="-register-all"]
Inductive json :=
| jnull
| jbool (b : bool)
| jnumber (x : float)
| jstring (s : string)
| jarray (items : list json)
| jobject (properties : list (string * json)).

(** Whether a value, or [undefined], counts as true. *)
Definition truthy (v : option json) : bool :=
  match v with
  | None => false
  | Some jnull => false
  | Some (jbool b) => b
  | Some (jnumber x) => negb (is_nan x || (x =? 0)%float)
  | Some (jstring s) => negb (String.eqb s EmptyString)
  | Some (jarray _) => true
  | Some (jobject _) => true
  end.

(** [v || d] *)
Definition or_default (v : option json) (d : json) : json :=
  match v with
  | Some value => if truthy v then value else d
  | None => d
  end.

Fixpoint own_property (properties : list (string * json)) (key : string)
  : option json :=
  match properties with
  | [] => None
  | (name, value) :: rest =>
      if String.eqb name key then Some value else own_property rest key
  end.

(** [info.key], for the keys the handler reads: a [TypeError] on [null]
    ([None] here), [undefined] on the other values that are no object. *)
Definition property (info : json) (key : string) : option (option json) :=
  match info with
  | jnull => None
  | jobject properties => Some (own_property properties key)
  | _ => Some None
  end.

(** The [data] of the answer; [video_formats] is [formats.video], and
    [formats.audio] is always the list with [mp3] alone. *)
Record video_data := {
  id : option string;
  title : json;
  duration : json;
  durationFormatted : json;
  thumbnail : json;
  uploader : json;
  viewCount : json;
  video_formats : json
}.

(** The answer: status 400, or [success: true] with the data. *)
Inductive info_answer :=
| invalid_url
| video_info (data : video_data).

Section InfoHandler.

(** [validators.sanitizeYouTubeUrl] and [validators.extractVideoId], of
    the missing [utils/validators]; [config.video.supportedQualities], of
    the missing [config]; and [JSON.parse], [None] when it throws. *)
Variable sanitizeYouTubeUrl : option string -> option string.
Variable extractVideoId : string -> option string.
Variable supportedQualities : json.
Variable JSON_parse : string -> option json.

(** [`https://i.ytimg.com/vi/${videoId}/hqdefault.jpg`] *)
Definition default_thumbnail (videoId : option string) : json :=
  jstring ("https://i.ytimg.com/vi/" +:+ Robot.js_text videoId +:+ "/hqdefault.jpg").

(** The data of the [catch] block. *)
Definition fallback (videoId : option string) : video_data :=
  {| id := videoId;
     title := jstring "Video YouTube";
     duration := jnumber 0;
     durationFormatted := jstring "??:??";
     thumbnail := default_thumbnail videoId;
     uploader := jstring "Unknown";
     viewCount := jnumber 0;
     video_formats := supportedQualities |}.

(** The data built from what [yt-dlp] printed, [None] when reading a
    property throws. *)
Definition from_info (videoId : option string) (info : json) : option video_data :=
  match property info "title", property info "duration",
        property info "duration_string", property info "thumbnail",
        property info "uploader", property info "view_count" with
  | Some t, Some d, Some ds, Some th, Some u, Some vc =>
      Some {| id := videoId;
              title := or_default t (jstring "Unknown Title");
              duration := or_default d (jnumber 0);
              durationFormatted := or_default ds (jstring "00:00");
              thumbnail := or_default th (default_thumbnail videoId);
              uploader := or_default u (jstring "Unknown");
              viewCount := or_default vc (jnumber 0);
              video_formats := supportedQualities |}
  | _, _, _, _, _, _ => None
  end.

(** The handler.  [exec url] is what [execPromise] does with the command
    for that address: [inl] the standard output it resolves with, [inr] the
    message of the error it rejects with.  The result is the answer and the
    addresses for which the command was run. *)
Definition get_video_info (url : option string) (exec : string -> string + string)
  : info_answer * list string :=
  let sanitizedUrl := sanitizeYouTubeUrl url in
  if Robot.js_not sanitizedUrl then (invalid_url, [])
  else
    let sanitizedUrl := Robot.js_text sanitizedUrl in
    let videoId := extractVideoId sanitizedUrl in
    (video_info
       match exec sanitizedUrl with
       | inr _ => fallback videoId
       | inl stdout =>
           match JSON_parse stdout with
           | None => fallback videoId
           | Some info => default (fallback videoId) (from_info videoId info)
           end
       end,
     [sanitizedUrl]).

(** The data of an answer: the identifier and the formats are those of
    the address; the title, the formatted duration, the thumbnail and the
    uploader count as true (none is an empty text, [null], 0 or NaN); the
    duration and the number of views count as true or are 0. *)
Definition well_formed (videoId : option string) (data : video_data) : Prop :=
  id data = videoId
  /\ video_formats data = supportedQualities
  /\ truthy (Some (title data)) = true
  /\ truthy (Some (durationFormatted data)) = true
  /\ truthy (Some (thumbnail data)) = true
  /\ truthy (Some (uploader data)) = true
  /\ (truthy (Some (duration data)) = true \/ duration data = jnumber 0)
  /\ (truthy (Some (viewCount data)) = true \/ viewCount data = jnumber 0).

End InfoHandler.

End VideoInfo.

(** ** More examples *)
Module MoreExamples.
Import JS Server.

(** A request whose start time ends with a colon. *)
Definition unfinished_content : Robot.content :=
  {| Robot.c_startTime := None; Robot.c_start := Some "00:03:";
     Robot.c_endTime := None; Robot.c_end := Some "00:04:05";
     Robot.c_fileName := None; Robot.c_filename := Some "clip";
     Robot.c_url := "https://www.youtube.com/watch?v=dQw4w9WgXcQ" |}.

(** A request from 00:03:01 to 00:04:05. *)
Definition good_content : Robot.content :=
  {| Robot.c_startTime := None; Robot.c_start := Some "00:03:01";
     Robot.c_endTime := None; Robot.c_end := Some "00:04:05";
     Robot.c_fileName := None; Robot.c_filename := Some "clip";
     Robot.c_url := "https://www.youtube.com/watch?v=dQw4w9WgXcQ" |}.

(** A world in which the second [yt-dlp] command fails. *)
Definition world_no_audio : Robot.world :=
  {| Robot.typed := [];
     Robot.shell := fun cmd =>
       match cmd with
       | Robot.yt_dlp_get_url selector _ =>
           if String.eqb selector "bestaudio[ext=m4a]/bestaudio"
           then inr "Command failed: yt-dlp"
           else inl "https://example.org/video "
       | Robot.ffmpeg_cut _ _ _ _ _ => inl EmptyString
       end |}.

(** The downloader leaves the video under a name with a format suffix, and
    a part it did not finish; the cutter writes the final file. *)
Definition world_success_with_suffix : world :=
  {| yt_output := [stdout "[download] 100% of 10.00MiB"];
     yt_end := close (Some 0);
     disk_after_download :=
       ["notes.txt"; "temp_task_1700000000000_k3x9q2m1a.f399.mp4.part";
        "temp_task_1700000000000_k3x9q2m1a.f399.mp4"];
     faults_after_download := no_faults;
     ff_output := [];
     ff_end := close (Some 0);
     disk_after_cut :=
       ["notes.txt"; "temp_task_1700000000000_k3x9q2m1a.f399.mp4.part";
        "temp_task_1700000000000_k3x9q2m1a.f399.mp4"; "clip.mp4"];
     faults_after_cut := no_faults |}.

(** A chunk of the downloader with two lines of progress. *)
Definition two_lines : string :=
  "[download]  12.5% of 10.00MiB at 1.00MiB/s" +:+ "[download]  50.0% of 10.00MiB".

(** A client, and the times of the requests it sends after a first one at
    1700000000000: one each second, eleven of them. *)
Definition visitor : Limiter.request :=
  {| Limiter.req_ip := Some "203.0.113.7"; Limiter.remoteAddress := None |}.

Definition neighbour : Limiter.request :=
  {| Limiter.req_ip := None; Limiter.remoteAddress := Some "198.51.100.23" |}.

Definition burst : list Z :=
  map (fun k => 1700000000000 + 1000 * k) [1; 2; 3; 4; 5; 6; 7; 8; 9; 10; 11].

(** A cleaning of file names that keeps a given name and puts a default
    for a missing one. *)
Definition keep_name (name : option string) : string := default "video-part" name.

(** The directory after a task has written [clip.mp4]. *)
Definition state_with_clip : pstate :=
  {| the_bus := empty_bus; disk := ["notes.txt"; "clip.mp4"];
     fs_faults := no_faults; spawned := [] |}.

(** The same directory, where [clip.mp4] cannot be unlinked. *)
Definition state_with_locked_clip : pstate :=
  {| the_bus := empty_bus; disk := ["notes.txt"; "clip.mp4"];
     fs_faults :=
       {| readdir_error := None;
          stat_error := fun _ => None;
          unlink_error := fun name =>
            if String.eqb name "clip.mp4"
            then Some "EBUSY: resource busy or locked, unlink"
            else None |};
     spawned := [] |}.

End MoreExamples.

(** ** The page that follows a task: [main.js] *)
Module Page.
Import JS Server.

(** The two gradients [updateProgress] paints the bar with. *)
Inductive background :=
| unchanged_background
| green
| red.

(** What the handlers below read and write of the page.  A text made of
    a number and a percent sign is held by the number.  [eventSource] is
    [true] for an open source and [false] for [null]; [timers] holds the
    file names of the downloads that [setTimeout] will trigger, and
    [notice] what [showStatus] was last called with. *)
Record page := {
  bar_width : float;
  bar_background : background;
  percent_text : float;
  status_text : string;
  message_text : option message;
  notice : option (string * option message);
  eventSource : bool;
  timers : list string;
  button_enabled : bool
}.

(** Whether a text, or [undefined], counts as true. *)
Definition present_text (s : option string) : bool :=
  match s with
  | Some (String _ _) => true
  | _ => false
  end.

(** Whether the message of an event counts as true: a text that is not
    empty; the text of the download template never is. *)
Definition present_message (m : option message) : bool :=
  match m with
  | Some (text (String _ _)) => true
  | Some (downloading_percent _) => true
  | _ => false
  end.

(** [m || d] for a message, [None] standing for the text [d]. *)
Definition message_or (m : option message) (d : string) : option message :=
  if present_message m then m else Some (text d).

Definition status_label (s : status) : string :=
  match s with
  | downloading => "Mengunduh Video..."
  | trimming => "Memotong Video..."
  | cleaning => "Membersihkan..."
  | complete => "Selesai!"
  | error => "Error!"
  | connected => "Memproses..."
  end.

Definition updateProgress (data : event) (p : page) : page :=
  {| bar_width := ev_progress data;
     bar_background :=
       match ev_status data with
       | complete => green
       | error => red
       | _ => bar_background p
       end;
     percent_text := ev_progress data;
     status_text := status_label (ev_status data);
     message_text := message_or (ev_message data) EmptyString;
     notice := notice p;
     eventSource := eventSource p;
     timers := timers p;
     button_enabled := button_enabled p |}.

(** The [onmessage] handler that [connectToProgress] installs, for a
    message whose data is the event the server wrote; the page has the
    elements that [updateProgress] writes to, so nothing throws. *)
Definition onmessage (data : event) (p : page) : page :=
  let p := updateProgress data p in
  match ev_status data with
  | complete =>
      if present_text (ev_filename data) then
        {| bar_width := bar_width p; bar_background := bar_background p;
           percent_text := percent_text p; status_text := status_text p;
           message_text := message_text p; notice := notice p;
           eventSource := false;
           timers := timers p ++ [default EmptyString (ev_filename data)];
           button_enabled := button_enabled p |}
      else p
  | error =>
      {| bar_width := bar_width p; bar_background := bar_background p;
         percent_text := percent_text p; status_text := status_text p;
         message_text := message_text p;
         notice := Some ("error", message_or (ev_message data) "Terjadi kesalahan");
         eventSource := false;
         timers := timers p;
         button_enabled := true |}
  | _ => p
  end.

(** The messages of a source reach its handler as long as it is open. *)
Fixpoint deliver (messages : list event) (p : page) : page :=
  match messages with
  | [] => p
  | data :: rest => if eventSource p then deliver rest (onmessage data p) else p
  end.

End Page.

Module PageExamples.
Import Server Page.

(** The page after the form was sent: the source is open, the button is
    disabled and nothing is shown yet. *)
Definition waiting_page : page :=
  {| bar_width := 0; bar_background := unchanged_background; percent_text := 0;
     status_text := "Memproses..."; message_text := Some (text "Mengirim request...");
     notice := None; eventSource := true; timers := []; button_enabled := false |}.

(** The events of the run that completes, but for the first one, which
    was sent before the page subscribed. *)
Definition seen_by_the_page : list event :=
  drop 1
    (events_since (the_bus initial_state)
       (the_bus (snd (processVideo Examples.world_success Examples.example_task
                        Examples.example_options initial_state)))).

End PageExamples.

(** ** The download history of the page: [main.js] *)
Module History.
Import JS VideoInfo.

(** The value that [JSON.parse] reads from the text that
    [JSON.stringify] makes of a value: a number that is not finite is
    written as [null] and the negative zero as [0]; nothing else
    changes. *)
Fixpoint reread (v : json) : json :=
  match v with
  | jnumber x =>
      if is_finite x then jnumber (if is_zero x then 0%float else x) else jnull
  | jarray items => jarray (map reread items)
  | jobject properties =>
      jobject (map (fun p : string * json => let (name, value) := p in
                                             (name, reread value))
                 properties)
  | _ => v
  end.

(** What [localStorage] holds under [HISTORY_KEY]: a text that
    [JSON.parse] reads, held as the value it is read as, or a text that
    it rejects. *)
Inductive stored :=
| json_text (v : json)
| other_text.

(** [localStorage.getItem(HISTORY_KEY)] is [null] when nothing is
    stored. *)
Definition storage := option stored.

Definition MAX_HISTORY_ITEMS : nat := 10.

(** [null], the empty text (which is no text that [JSON.parse] reads)
    and a text that makes [JSON.parse] throw all give the empty array. *)
Definition getHistory (s : storage) : json :=
  match s with
  | Some (json_text v) => v
  | Some other_text => jarray []
  | None => jarray []
  end.

(** The item that [triggerDownload] hands to [addToHistory]. *)
Record download_item := {
  item_filename : string;
  item_url : string;
  item_start : string;
  item_end : string;
  item_format : string
}.

(** [{ ...item, timestamp }] *)
Definition history_entry (item : download_item) (timestamp : string) : json :=
  jobject [("filename", jstring (item_filename item));
           ("url", jstring (item_url item));
           ("start", jstring (item_start item));
           ("end", jstring (item_end item));
           ("format", jstring (item_format item));
           ("timestamp", jstring timestamp)].

(** [addToHistory(item)] at the time [timestamp]; [accepted] tells
    whether [localStorage.setItem] stores the text or throws.  Only an
    array has [unshift]: on another value the call throws, and so does a
    refused [setItem]; both are caught and leave the storage as it
    was. *)
Definition addToHistory (item : download_item) (timestamp : string)
    (accepted : bool) (s : storage) : storage :=
  match getHistory s with
  | jarray history =>
      let trimmed :=
        take MAX_HISTORY_ITEMS (history_entry item timestamp :: history) in
      if accepted then Some (json_text (reread (jarray trimmed))) else s
  | _ => s
  end.

(** [clearHistory()] *)
Definition clearHistory (s : storage) : storage := None.

(** One call of [addToHistory]: the item, the time and whether the
    storage accepts the write. *)
Definition addition : Type := download_item * string * bool.

Definition add (s : storage) (a : addition) : storage :=
  addToHistory a.1.1 a.1.2 a.2 s.

(** The entries of the calls whose write was accepted, the first call
    first. *)
Definition saved (additions : list addition) : list json :=
  map (fun a : addition => history_entry a.1.1 a.1.2)
    (List.filter (fun a : addition => a.2) additions).

End History.

(** * Properties *)

(** ** Binary64 numbers *)
Module NumberFacts.
Import JS.

Lemma digits2_bounds (m : positive) :
  2 ^ (Zpos (digits2_pos m) - 1) <= Zpos m < 2 ^ Zpos (digits2_pos m).
Proof.
  induction m as [m IH|m IH|]; cbn [digits2_pos].
  - rewrite Pos2Z.inj_succ, Z.pow_succ_r by lia.
    replace (Z.succ (Zpos (digits2_pos m)) - 1)
      with (Z.succ (Zpos (digits2_pos m) - 1)) by lia.
    rewrite Z.pow_succ_r by lia. lia.
  - rewrite Pos2Z.inj_succ, Z.pow_succ_r by lia.
    replace (Z.succ (Zpos (digits2_pos m)) - 1)
      with (Z.succ (Zpos (digits2_pos m) - 1)) by lia.
    rewrite Z.pow_succ_r by lia. lia.
  - simpl. lia.
Qed.

(** What validity says of a finite binary64 number. *)
Lemma bounded_facts (m : positive) (e : Z) :
  bounded prec emax m e = true ->
  -1074 <= e /\ Zpos m < 2 ^ 53 /\ (-1074 < e -> 2 ^ 52 <= Zpos m).
Proof.
  unfold bounded, canonical_mantissa, fexp, SpecFloat.emin, prec, emax.
  intros H. apply andb_true_iff in H as [H _]. apply Z.eqb_eq in H.
  pose proof (digits2_bounds m) as [Hlo Hhi].
  assert (Hd : Zpos (digits2_pos m) <= 53) by lia.
  split; [lia|]. split.
  - eapply Z.lt_le_trans; [exact Hhi|]. apply Z.pow_le_mono_r; lia.
  - intros He. replace (Zpos (digits2_pos m)) with 53 in Hlo by lia. exact Hlo.
Qed.

Lemma units_pos (m : positive) (e : Z) : -1074 <= e -> 0 < units m e.
Proof. intros He. unfold units. apply Z.mul_pos_pos; [lia|]. apply Z.pow_pos_nonneg; lia. Qed.

(** With a smaller exponent, a valid number is smaller. *)
Lemma units_lt_of_exponent (m1 m2 : positive) (e1 e2 : Z) :
  bounded prec emax m1 e1 = true -> bounded prec emax m2 e2 = true ->
  e1 < e2 -> units m1 e1 < units m2 e2.
Proof.
  intros H1 H2 He.
  apply bounded_facts in H1 as (He1 & Hm1 & _).
  apply bounded_facts in H2 as (He2 & _ & Hm2).
  specialize (Hm2 ltac:(lia)). unfold units.
  assert (Hp1 : 0 < 2 ^ (e1 + 1074)) by (apply Z.pow_pos_nonneg; lia).
  replace (e2 + 1074) with ((e2 - e1 - 1) + 1 + (e1 + 1074)) by lia.
  rewrite (Z.pow_add_r 2 (e2 - e1 - 1 + 1) (e1 + 1074)) by lia.
  rewrite (Z.pow_add_r 2 (e2 - e1 - 1) 1) by lia.
  assert (Hq : 0 < 2 ^ (e2 - e1 - 1)) by (apply Z.pow_pos_nonneg; lia).
  change (2 ^ 1) with 2.
  assert (Zpos m1 < Zpos m2 * (2 ^ (e2 - e1 - 1) * 2)); [|nia].
  change (2 ^ 53) with (2 ^ 52 * 2) in Hm1. nia.
Qed.

(** The comparison of two valid positive numbers is that of their values. *)
Lemma SFcompare_units (m1 m2 : positive) (e1 e2 : Z) :
  bounded prec emax m1 e1 = true -> bounded prec emax m2 e2 = true ->
  SFcompare (S754_finite false m1 e1) (S754_finite false m2 e2)
  = Some (units m1 e1 ?= units m2 e2).
Proof.
  intros H1 H2. cbn [SFcompare]. f_equal.
  destruct (Z.compare_spec e1 e2) as [->|He|He].
  - unfold units. fold (Pos.compare m1 m2).
    assert (Hp : 0 < 2 ^ (e2 + 1074)).
    { apply Z.pow_pos_nonneg; [lia|]. apply bounded_facts in H2. lia. }
    change (Pos.compare m1 m2) with (Zpos m1 ?= Zpos m2).
    destruct (Z.compare_spec (Zpos m1) (Zpos m2)) as [Hm|Hm|Hm]; symmetry.
    + rewrite Hm. apply Z.compare_refl.
    + apply Z.compare_lt_iff. nia.
    + apply Z.compare_gt_iff. nia.
  - symmetry. apply Z.compare_lt_iff. now apply units_lt_of_exponent.
  - symmetry. apply Z.compare_gt_iff. now apply units_lt_of_exponent.
Qed.

Lemma finite_bounded (x : float) (s : bool) (m : positive) (e : Z) :
  Prim2SF x = S754_finite s m e -> bounded prec emax m e = true.
Proof. intros H. pose proof (Prim2SF_valid x) as Hv. now rewrite H in Hv. Qed.

(** [<] on two positive finite numbers. *)
Lemma ltb_finite (a b : float) (ma mb : positive) (ea eb : Z) :
  Prim2SF a = S754_finite false ma ea -> Prim2SF b = S754_finite false mb eb ->
  (a <? b)%float = (units ma ea <? units mb eb).
Proof.
  intros Ha Hb. rewrite ltb_spec, Ha, Hb. unfold SFltb.
  rewrite SFcompare_units by eauto using finite_bounded.
  unfold Z.ltb. now destruct (units ma ea ?= units mb eb).
Qed.

(** What is above a positive finite number is positive, and finite or
    infinite. *)
Lemma above_finite (a x : float) (ma : positive) (ea : Z) :
  Prim2SF a = S754_finite false ma ea -> (a <? x)%float = true ->
  Prim2SF x = S754_infinity false
  \/ exists m e, Prim2SF x = S754_finite false m e /\ units ma ea < units m e.
Proof.
  intros Ha H. pose proof H as H'. rewrite ltb_spec, Ha in H. unfold SFltb in H.
  destruct (Prim2SF x) as [s|[|]| |[|] m e] eqn:Hx; try discriminate H.
  - now left.
  - right. exists m, e. split; [reflexivity|].
    rewrite (ltb_finite _ _ _ _ _ _ Ha Hx) in H'. now apply Z.ltb_lt.
Qed.

(** [Math.min(t, c)] is not above a positive finite [c]. *)
Lemma Math_min_upper (t c : float) (mc : positive) (ec : Z) :
  Prim2SF c = S754_finite false mc ec ->
  Prim2SF (Math_min t c) <> S754_infinity false
  /\ forall m e, Prim2SF (Math_min t c) = S754_finite false m e ->
       units m e <= units mc ec.
Proof.
  intros Hc. unfold Math_min.
  destruct (is_nan t || is_nan c); [split; [discriminate|intros m e H; discriminate H]|].
  destruct (t <? c)%float eqn:Htc.
  { rewrite ltb_spec, Hc in Htc. unfold SFltb in Htc. split.
    - intros Ht. rewrite Ht in Htc. discriminate Htc.
    - intros m e Ht. rewrite Ht in Htc.
      rewrite SFcompare_units in Htc by eauto using finite_bounded.
      destruct (Z.compare_spec (units m e) (units mc ec)); (discriminate Htc || lia). }
  assert (Hself : Prim2SF c <> S754_infinity false
                  /\ forall m e, Prim2SF c = S754_finite false m e ->
                       units m e <= units mc ec).
  { rewrite Hc. split; [discriminate|]. intros m e [= <- <-]. lia. }
  destruct (c <? t)%float eqn:Hct; [exact Hself|].
  destruct (get_sign t); [|exact Hself].
  rewrite ltb_spec, Hc in Hct. unfold SFltb in Hct. split.
  - intros Ht. rewrite Ht in Hct. discriminate Hct.
  - intros m e Ht. rewrite Ht in Hct.
    rewrite SFcompare_units in Hct by eauto using finite_bounded.
    destruct (Z.compare_spec (units mc ec) (units m e)); (discriminate Hct || lia).
Qed.

Lemma nearest_monotone (a b : float) (ma mb : positive) (ea eb : Z) :
  Prim2SF a = S754_finite false ma ea -> Prim2SF b = S754_finite false mb eb ->
  units ma ea <= units mb eb -> nearest a <= nearest b.
Proof.
  intros Ha Hb H. unfold nearest. rewrite Ha, Hb.
  apply Z.div_le_mono; [reflexivity|lia].
Qed.

Lemma nearest_between (lo hi : Z) (x : float) :
  between lo hi x -> lo <= nearest x <= hi.
Proof.
  intros (m & e & Hx & Hlo & Hhi). unfold nearest. rewrite Hx.
  assert (HP : 0 < 2 ^ 1074) by reflexivity.
  change (2 ^ 1075) with (2 * 2 ^ 1074).
  split.
  - apply Z.div_le_lower_bound; lia.
  - apply Z.lt_succ_r, Z.div_lt_upper_bound; lia.
Qed.

(** [Math.round] of a number between 1 and 100 is the number of the
    integer that is nearest. *)
Lemma Math_round_nearest (lo hi : Z) (x : float) :
  1 <= lo -> hi <= 100 -> between lo hi x -> Math_round x = Z2F (nearest x).
Proof.
  intros Hlo Hhi Hb. pose proof (nearest_between _ _ _ Hb) as Hn.
  destruct Hb as (m & e & Hx & Hl & Hh).
  unfold Math_round, nearest in *. rewrite Hx in *.
  pose proof (finite_bounded _ _ _ _ Hx) as Hv.
  apply bounded_facts in Hv as (He & Hm & Hm').
  assert (HP : 0 < 2 ^ 1074) by reflexivity.
  assert (Hneg : e < 0).
  { destruct (Z.eq_dec e (-1074)) as [->|Hne]; [lia|].
    specialize (Hm' ltac:(lia)).
    destruct (Z.lt_ge_cases e 0) as [|He0]; [assumption|exfalso].
    unfold units in Hh.
    assert (2 ^ 1074 <= 2 ^ (e + 1074)) by (apply Z.pow_le_mono_r; lia).
    change (2 ^ 52) with 4503599627370496 in Hm'. nia. }
  destruct (Z.leb_spec 0 e) as [|_]; [lia|].
  assert (Heq : (2 * Zpos m + 2 ^ (- e)) / 2 ^ (1 - e)
                = (2 * units m e + 2 ^ 1074) / 2 ^ 1075).
  { assert (Hs : 0 < 2 ^ (e + 1074)) by (apply Z.pow_pos_nonneg; lia).
    rewrite <- (Z.div_mul_cancel_r _ _ (2 ^ (e + 1074))) by lia.
    f_equal.
    - unfold units. rewrite Z.mul_add_distr_r, <- Z.pow_add_r by lia.
      replace (- e + (e + 1074)) with 1074 by lia. lia.
    - rewrite <- Z.pow_add_r by lia. f_equal. lia. }
  rewrite Heq.
  destruct (Z.eqb_spec ((2 * units m e + 2 ^ 1074) / 2 ^ 1075) 0); [lia|reflexivity].
Qed.

(** A number that is [<= 0] is not [> 0]. *)
Lemma leb_zero_not_above (d : float) :
  (d <=? 0)%float = true -> (0 <? d)%float = false.
Proof.
  rewrite leb_spec, ltb_spec. unfold SFleb, SFltb.
  change (Prim2SF 0) with (S754_zero false).
  destruct (Prim2SF d) as [s|[|]| |[|] m e]; cbn; congruence.
Qed.

Lemma percents_ordered :
  forallb
    (fun a => forallb (fun b => implb (a <=? b) (Z2F a <=? Z2F b)%float) percents)
    percents = true.
Proof. vm_compute. reflexivity. Qed.

Lemma in_percents (n : Z) : 0 <= n <= 100 -> In n percents.
Proof.
  intros H. unfold percents. rewrite <- (Z2Nat.id n) by lia.
  apply in_map, in_seq. lia.
Qed.

(** On the integers from 0 to 100 the order of the numbers is that of the
    integers. *)
Lemma Z2F_leb (a b : Z) :
  0 <= a -> a <= b -> b <= 100 -> (Z2F a <=? Z2F b)%float = true.
Proof.
  intros Ha Hab Hb. pose proof percents_ordered as H.
  rewrite forallb_forall in H. specialize (H a (in_percents a ltac:(lia))).
  rewrite forallb_forall in H. specialize (H b (in_percents b ltac:(lia))).
  destruct (Z.leb_spec a b); [exact H|lia].
Qed.

Lemma percents_are_not_95 :
  forallb (fun a => implb (a <=? 85) (negb (Z2F a =? 95)%float)) percents = true.
Proof. vm_compute. reflexivity. Qed.

Lemma Z2F_not_95 (n : Z) : 0 <= n <= 85 -> (Z2F n =? 95)%float = false.
Proof.
  intros Hn. pose proof percents_are_not_95 as H.
  rewrite forallb_forall in H. specialize (H n (in_percents n ltac:(lia))).
  destruct (Z.leb_spec n 85); [|lia].
  now apply negb_true_iff in H.
Qed.

Lemma ascending_tail (x : Z) (l : list Z) : ascending (x :: l) -> ascending l.
Proof. destruct l; [trivial|]. now intros [_ H]. Qed.

Lemma ascending_glue (xs ys : list Z) (b : Z) :
  ascending (xs ++ [b]) -> ascending (b :: ys) -> ascending (xs ++ ys).
Proof.
  intros Hx Hy. induction xs as [|x xs IH].
  - now apply ascending_tail in Hy.
  - destruct xs as [|x' xs].
    + destruct ys as [|y ys]; [exact I|].
      destruct Hx as [Hx _], Hy as [Hy Hys]. split; [lia|exact Hys].
    + destruct Hx as [Hxx Hx]. split; [exact Hxx|]. now apply IH.
Qed.

Lemma ascending_app (xs ys : list Z) (c : Z) :
  ascending xs -> ascending ys ->
  Forall (fun x => x <= c) xs -> Forall (fun y => c <= y) ys ->
  ascending (xs ++ ys).
Proof.
  intros Hx Hy Hxs Hys. induction xs as [|x xs IH]; [exact Hy|].
  inversion Hxs as [|? ? Hxc Hxs']; subst.
  destruct xs as [|x' xs].
  - destruct ys as [|y ys]; [exact I|].
    inversion Hys; subst. split; [lia|exact Hy].
  - destruct Hx as [Hxx Hx]. split; [exact Hxx|]. now apply IH.
Qed.

Lemma ascending_repeat (x : Z) (k : nat) : ascending (repeat x k).
Proof.
  induction k as [|k IH]; [exact I|].
  destruct k; [exact I|]. split; [cbn; lia|exact IH].
Qed.

Lemma nondecreasing_prefix (a b : list float) :
  Server.nondecreasing (a ++ b) = true -> Server.nondecreasing a = true.
Proof.
  induction a as [|x a IH]; [reflexivity|].
  destruct a as [|y a]; [reflexivity|].
  cbn [app Server.nondecreasing]. intros H.
  apply andb_true_iff in H as [Hxy H]. rewrite Hxy. now apply IH.
Qed.

Lemma nondecreasing_Z2F (l : list Z) :
  Forall (fun n => 0 <= n <= 100) l -> ascending l ->
  Server.nondecreasing (map Z2F l) = true.
Proof.
  induction l as [|x l IH]; intros Hr Ha; [reflexivity|].
  destruct l as [|y l]; [reflexivity|].
  inversion Hr as [|? ? Hx Hr']; subst. inversion Hr' as [|? ? Hy _]; subst.
  destruct Ha as [Hxy Ha]. cbn [map Server.nondecreasing].
  rewrite Z2F_leb by lia. cbn [andb]. now apply IH.
Qed.

End NumberFacts.


(** ** The time utilities *)
Module RobotFacts.
Import JS Robot.

(** The loop, started anywhere, continues the fold of the specification. *)
Lemma timeToSeconds_loop_fold (segments rest : list string) (s m : float) :
  timeToSeconds_loop (rev segments ++ rest) s m
  = (let '(s', m') :=
       fold_right
         (fun segment '(seconds, weight) =>
            ((seconds + weight * parseInt segment)%float, (weight * 60)%float))
         (s, m) segments in
     timeToSeconds_loop rest s' m').
Proof.
  revert rest.
  induction segments as [|seg segments IH]; intros rest; simpl.
  - reflexivity.
  - rewrite <- app_assoc. simpl. rewrite IH.
    destruct (fold_right _ (s, m) segments) as [s' m']. reflexivity.
Qed.

(** C7: [timeToSeconds] splits its input on the colon and folds the segments
    from the right, each one weighing sixty times the one after it: it is
    the fold that the specification describes as [parseTimeToSeconds].  It
    gives 181 for 00:03:01, 245 for 04:05 and 0 for the empty input. *)
Theorem timeToSeconds_is_the_fold :
  (forall text : string, timeToSeconds text = parseTimeToSeconds_spec text)
  /\ split_colon "00:03:01" = ["00"; "03"; "01"]
  /\ timeToSeconds "00:03:01" = 181%float
  /\ timeToSeconds "04:05" = 245%float
  /\ timeToSeconds "" = 0%float.
Proof.
  split; [|repeat split; vm_compute; reflexivity].
  intros [|c r]; [reflexivity|].
  unfold timeToSeconds, parseTimeToSeconds_spec, parseTimeToSeconds_fold.
  generalize (split_colon (String c r)); intros segments.
  rewrite <- (app_nil_r (rev segments)), timeToSeconds_loop_fold.
  destruct (fold_right _ _ segments) as [s' m']. reflexivity.
Qed.

Lemma read_times_executes_nothing (c : content) (st : state) :
  executed (snd (read_times c st)) = executed st.
Proof.
  unfold read_times, question, print.
  destruct (js_not (js_or (c_startTime c) (c_start c)));
    destruct (js_not (js_or (c_endTime c) (c_end c)));
    destruct st as [[|a1 [|a2 t]] ex pr]; reflexivity.
Qed.

(** The command-line robot launches nothing when the duration it computes
    is not positive: it prints the error and returns. *)
Lemma download_rejects_nonpositive_duration
    (w : world) (c : content) (startTime endTime : string) (st : state) :
  read_times c (print rule {| tty := typed w; executed := []; printed := [] |})
  = (startTime, endTime, st) ->
  (timeToSeconds endTime - timeToSeconds startTime <=? 0)%float = true ->
  executed (download w c) = []
  /\ printed (download w c)
     = printed st
       ++ [error_invalid_duration
             (timeToSeconds endTime - timeToSeconds startTime)%float].
Proof.
  intros Hread Hd. unfold download. rewrite Hread, Hd. split; [|reflexivity].
  pose proof (read_times_executes_nothing c
                (print rule {| tty := typed w; executed := []; printed := [] |}))
    as H.
  rewrite Hread in H. exact H.
Qed.

End RobotFacts.

(** ** The server *)
Module ServerFacts.
Import JS Server Examples.

(** *** The bus *)

Lemma publish_all_app (taskId : string) (xs ys : list event) (b : bus) :
  publish_all taskId (xs ++ ys) b = publish_all taskId ys (publish_all taskId xs b).
Proof. unfold publish_all. apply fold_left_app. Qed.

Lemma publish_all_cons (taskId : string) (e : event) (evs : list event) (b : bus) :
  publish_all taskId (e :: evs) b = publish_all taskId evs (sendProgress taskId e b).
Proof. reflexivity. Qed.

Lemma sendProgress_journal (taskId : string) (e : event) (b : bus) :
  journal (sendProgress taskId e b) = journal b ++ [(taskId, e)].
Proof. unfold sendProgress. now destruct (progressStreams b !! taskId). Qed.

Lemma publish_all_journal (taskId : string) (evs : list event) (b : bus) :
  journal (publish_all taskId evs b) = journal b ++ map (pair taskId) evs.
Proof.
  revert b. induction evs as [|e evs IH]; intros b.
  - symmetry. apply app_nil_r.
  - rewrite publish_all_cons, IH, sendProgress_journal.
    now rewrite <- app_assoc.
Qed.

Lemma publish_all_streams (taskId : string) (evs : list event) (b : bus) :
  progressStreams (publish_all taskId evs b) = progressStreams b.
Proof.
  revert b. induction evs as [|e evs IH]; intros b; [reflexivity|].
  rewrite publish_all_cons, IH. unfold sendProgress.
  destruct (progressStreams b !! taskId); reflexivity.
Qed.

Lemma events_since_publish_all (taskId : string) (evs : list event) (b : bus) :
  events_since b (publish_all taskId evs b) = evs.
Proof.
  unfold events_since. rewrite publish_all_journal, drop_app_length.
  rewrite map_map. simpl. apply map_id.
Qed.

Lemma received_write_same (res : nat) (data : event) (b : bus) :
  received res (write res data b) = received res b ++ [data].
Proof. unfold received, write. cbn [written]. now rewrite lookup_insert_eq. Qed.

Lemma received_write_other (res other : nat) (data : event) (b : bus) :
  other <> res -> received other (write res data b) = received other b.
Proof.
  intros H. unfold received, write. cbn [written].
  now rewrite lookup_insert_ne by congruence.
Qed.

Lemma received_sendProgress_subscribed
    (taskId : string) (res : nat) (data : event) (b : bus) :
  progressStreams b !! taskId = Some res ->
  received res (sendProgress taskId data b) = received res b ++ [data].
Proof.
  intros H. unfold sendProgress. rewrite H.
  change (received res (write res data b) = received res b ++ [data]).
  apply received_write_same.
Qed.

Lemma received_sendProgress_other
    (taskId : string) (res other : nat) (data : event) (b : bus) :
  progressStreams b !! taskId = Some res -> other <> res ->
  received other (sendProgress taskId data b) = received other b.
Proof.
  intros H Hne. unfold sendProgress. rewrite H.
  change (received other (write res data b) = received other b).
  now apply received_write_other.
Qed.

Lemma sendProgress_streams (taskId : string) (data : event) (b : bus) :
  progressStreams (sendProgress taskId data b) = progressStreams b.
Proof. unfold sendProgress. now destruct (progressStreams b !! taskId). Qed.

(** While a response is the sink of a task, it receives what is published
    for the task, in order, and no other response receives any of it. *)
Lemma received_publish_all (taskId : string) (res : nat) (evs : list event) (b : bus) :
  progressStreams b !! taskId = Some res ->
  received res (publish_all taskId evs b) = received res b ++ evs
  /\ forall other, other <> res ->
       received other (publish_all taskId evs b) = received other b.
Proof.
  revert b. induction evs as [|e evs IH]; intros b H.
  - split; [symmetry; apply app_nil_r|reflexivity].
  - rewrite publish_all_cons.
    destruct (IH (sendProgress taskId e b)) as [IH1 IH2].
    { now rewrite sendProgress_streams. }
    split.
    + rewrite IH1, (received_sendProgress_subscribed _ _ _ _ H).
      now rewrite <- app_assoc.
    + intros other Hne.
      now rewrite IH2, (received_sendProgress_other _ _ _ _ _ H Hne).
Qed.

Lemma get_progress_streams (taskId : string) (res : nat) (b : bus) :
  progressStreams (get_progress taskId res b) !! taskId = Some res.
Proof. unfold get_progress. cbn [progressStreams]. apply lookup_insert_eq. Qed.

Lemma get_progress_received (taskId : string) (res : nat) (b : bus) :
  received res (get_progress taskId res b) = received res b ++ [connected_event]
  /\ forall other, other <> res ->
       received other (get_progress taskId res b) = received other b.
Proof.
  split.
  - apply (received_write_same res connected_event b).
  - intros other Hne. now apply (received_write_other res other connected_event b).
Qed.

(** *** Each step of [processVideo] is what its view says *)

Lemma report_download_view (taskId output : string) (v : download_vars) (st : pstate) :
  report_download taskId output v st
  = (returned (snd (report_view output v)),
     {| the_bus := publish_all taskId (fst (report_view output v)) (the_bus st);
        disk := disk st; fs_faults := fs_faults st;
        spawned := spawned st |}).
Proof.
  unfold report_download, report_view.
  destruct st as [b d fl s].
  destruct (match_percent output) as [token|]; [|reflexivity].
  destruct (lastProgress v <? scaledProgress (parseFloat token))%float; reflexivity.
Qed.

Lemma yt_data_view (taskId : string) (chunks : list chunk) (v : download_vars)
    (st : pstate) :
  yt_data taskId chunks v st
  = (returned (snd (yt_view chunks v)),
     {| the_bus := publish_all taskId (fst (yt_view chunks v)) (the_bus st);
        disk := disk st; fs_faults := fs_faults st;
        spawned := spawned st |}).
Proof.
  revert v st.
  induction chunks as [|c rest IH]; intros v st; simpl.
  - now destruct st.
  - unfold bind, yt_on_data.
    destruct c as [output|output]; rewrite report_download_view;
      destruct (report_view output _) as [evs v']; simpl;
      rewrite IH; destruct (yt_view rest v') as [more v'']; simpl;
      now rewrite publish_all_app.
Qed.

Lemma ff_data_view (taskId : string) (chunks : list chunk) (st : pstate) :
  forEach (ff_on_data taskId) chunks st
  = (returned tt,
     {| the_bus := publish_all taskId (ff_view chunks) (the_bus st);
        disk := disk st; fs_faults := fs_faults st;
        spawned := spawned st |}).
Proof.
  revert st.
  induction chunks as [|c rest IH]; intros st; simpl.
  - now destruct st.
  - unfold bind, ff_on_data.
    destruct c as [output|output]; simpl.
    + rewrite IH. now destruct st.
    + destruct (includes output "time="); simpl; rewrite IH; now destruct st.
Qed.

Lemma first_media_file_view (matches : list string) (basePath : string) (st : pstate) :
  first_media_file matches basePath st
  = (returned
       (default basePath
          (List.find
             (λ file, bool_decide (file ∈ disk st) && has_media_extension file)
             matches)),
     st).
Proof.
  induction matches as [|file rest IH]; [reflexivity|].
  cbn [first_media_file List.find]. unfold bind, existsSync.
  destruct (bool_decide (file ∈ disk st) && has_media_extension file);
    [reflexivity|exact IH].
Qed.

Lemma findDownloadedFile_view (basePath : string) (st : pstate) :
  findDownloadedFile basePath st
  = (match readdir_error (fs_faults st) with
     | Some error_message => thrown error_message
     | None => returned (found_view (disk st) basePath)
     end, st).
Proof.
  unfold findDownloadedFile, found_view, bind, readdirSync, existsSync.
  destruct (readdir_error (fs_faults st)); [reflexivity|].
  destruct (bool_decide (basePath ∈ disk st)); [reflexivity|].
  apply first_media_file_view.
Qed.

(** *** The two clean-ups remove the names their predicates select *)

Lemma filter_twice (f g : string -> bool) (l : list string) :
  List.filter f (List.filter g l) = List.filter (λ x, g x && f x) l.
Proof.
  induction l as [|x l IH]; simpl; [reflexivity|].
  destruct (g x); simpl; [destruct (f x)|]; now rewrite IH.
Qed.

Lemma forEach_ext {A : Type} (f g : A -> proc ()) (l : list A) :
  (forall x st, f x st = g x st) -> forall st, forEach f l st = forEach g l st.
Proof.
  intros Hfg. induction l as [|x l IH]; intros st; simpl; [reflexivity|].
  unfold bind. rewrite Hfg. destruct (g x st) as [[[]|e] st']; [apply IH|reflexivity].
Qed.

Lemma forEach_sweep (del : string -> bool) (files : list string) (st : pstate) :
  forEach (sweep_step del) files st
  = (returned tt,
     {| the_bus := the_bus st;
        disk :=
          List.filter
            (λ f, negb (del f && unlinkable (fs_faults st) f
                        && bool_decide (f ∈ files)))
            (disk st);
        fs_faults := fs_faults st;
        spawned := spawned st |}).
Proof.
  revert st. induction files as [|x files IH]; intros [b d fl s]; simpl.
  - f_equal. f_equal. symmetry.
    rewrite <- (List.filter_ext_in (λ _, true)).
    + induction d as [|y d IHd]; simpl; [reflexivity|now rewrite IHd].
    + intros f _. rewrite andb_false_r. reflexivity.
  - unfold bind, sweep_step at 1. simpl.
    destruct (del x && unlinkable fl x && bool_decide (x ∈ d)) eqn:Hx;
      rewrite IH; simpl; f_equal; f_equal.
    + rewrite filter_twice. apply List.filter_ext_in. intros f _.
      apply andb_true_iff in Hx as [Hdel _].
      destruct (String.eqb_spec f x) as [->|Hne]; simpl.
      * rewrite Hdel. simpl. symmetry. apply negb_false_iff.
        apply bool_decide_eq_true. left.
      * f_equal. f_equal. apply bool_decide_ext. rewrite elem_of_cons. tauto.
    + apply List.filter_ext_in. intros f Hf. f_equal.
      destruct (del f && unlinkable fl f) eqn:Hdel; simpl; [|reflexivity].
      apply bool_decide_ext. rewrite elem_of_cons.
      split; [tauto|]. intros [->|H]; [|exact H].
      exfalso. rewrite Hdel in Hx. simpl in Hx.
      apply bool_decide_eq_false in Hx. apply Hx.
      now apply list_elem_of_In.
Qed.

Lemma sweep_all (del : string -> bool) (st : pstate) :
  forEach (sweep_step del) (disk st) st
  = (returned tt,
     {| the_bus := the_bus st;
        disk :=
          List.filter (λ f, negb (del f && unlinkable (fs_faults st) f)) (disk st);
        fs_faults := fs_faults st;
        spawned := spawned st |}).
Proof.
  rewrite forEach_sweep. f_equal. f_equal.
  apply List.filter_ext_in. intros f Hf. f_equal.
  replace (bool_decide (f ∈ disk st)) with true; [apply andb_true_r|].
  symmetry. apply bool_decide_eq_true. now apply list_elem_of_In.
Qed.

(** One file of a clean-up: it is unlinked when it is present, and the
    error of the call is caught. *)
Lemma guarded_unlink_view (del : string -> bool) (file : string) (st : pstate) :
  (if del file
   then present <- existsSync file ;;
        if present then try_catch (unlinkSync file) (λ _, ret tt) else ret tt
   else ret tt) st
  = sweep_step del file st.
Proof.
  destruct st as [b d fl s].
  unfold sweep_step, unlinkable. cbn [the_bus disk fs_faults spawned].
  destruct (del file); cbn [andb]; [|reflexivity].
  unfold bind, existsSync. cbn [the_bus disk fs_faults spawned].
  destruct (bool_decide (file ∈ d)).
  - unfold try_catch, unlinkSync. cbn [the_bus disk fs_faults spawned].
    destruct (unlink_error fl file); reflexivity.
  - rewrite andb_false_r. reflexivity.
Qed.

(** A clean-up loop inside its [try]: nothing is thrown, and the names
    left are those of [swept]. *)
Lemma guarded_sweep_view (del : string -> bool) (body : string -> proc ())
    (st : pstate) :
  (forall file st', body file st' = sweep_step del file st') ->
  try_catch (files <- readdirSync ;; forEach body files) (λ _, ret tt) st
  = (returned tt,
     {| the_bus := the_bus st;
        disk := swept (fs_faults st) del (disk st);
        fs_faults := fs_faults st;
        spawned := spawned st |}).
Proof.
  intros Hbody. unfold try_catch, bind at 1, readdirSync, swept.
  destruct (readdir_error (fs_faults st)) as [message|].
  - now destruct st.
  - rewrite (forEach_ext _ (sweep_step del)) by exact Hbody.
    now rewrite sweep_all.
Qed.

Lemma cleanup_success_view (taskId : string) (o : options) (st : pstate) :
  cleanup_success taskId o st
  = (returned tt,
     {| the_bus := the_bus st;
        disk := swept (fs_faults st) (removed_on_success taskId o) (disk st);
        fs_faults := fs_faults st;
        spawned := spawned st |}).
Proof.
  apply guarded_sweep_view. intros file st'.
  rewrite <- guarded_unlink_view. unfold removed_on_success.
  destruct (startsWith file _ || startsWith file _); simpl; [|reflexivity].
  destruct (String.eqb file (finalFile o)); reflexivity.
Qed.

Lemma cleanup_error_view (taskId : string) (o : options) (st : pstate) :
  cleanup_error taskId o st
  = (returned tt,
     {| the_bus := the_bus st;
        disk := swept (fs_faults st) (removed_on_error taskId o) (disk st);
        fs_faults := fs_faults st;
        spawned := spawned st |}).
Proof.
  apply guarded_sweep_view. intros file st'.
  now rewrite <- guarded_unlink_view.
Qed.

(** *** The percentages of the download never go down *)

Lemma five_between : between 5 65 5%float.
Proof.
  exists 5629499534213120%positive, (-50). split; [reflexivity|].
  split; vm_compute; discriminate.
Qed.

(** A scaled progress that passes the test of the handlers. *)
Lemma scaled_step (lastProgress : float) (downloadPercent : float) :
  between 5 65 lastProgress ->
  (lastProgress <? scaledProgress downloadPercent)%float = true ->
  between 5 65 (scaledProgress downloadPercent)
  /\ nearest lastProgress <= nearest (scaledProgress downloadPercent).
Proof.
  intros (ml & el & Hl & Hlo & Hhi) Hlt. unfold scaledProgress in *.
  set (t := (5 + downloadPercent * 0x1.3333333333333p-1)%float) in *.
  assert (H65 : Prim2SF 65 = S754_finite false 4573968371548160 (-46))
    by reflexivity.
  destruct (NumberFacts.Math_min_upper t 65 _ _ H65) as [Hinf Hup].
  destruct (NumberFacts.above_finite _ _ _ _ Hl Hlt) as [Hx|(m & e & Hx & Hlx)];
    [contradiction|].
  specialize (Hup m e Hx).
  assert (Hu : units 4573968371548160 (-46) = 65 * 2 ^ 1074) by reflexivity.
  split.
  - exists m, e. split; [exact Hx|]. lia.
  - apply (NumberFacts.nearest_monotone _ _ _ _ _ _ Hl Hx). lia.
Qed.

(** One chunk: what is reported is the nearest integer of the new
    [lastProgress], which is not below that of the old one. *)
Lemma report_view_ascending (output : string) (v : download_vars) :
  between 5 65 (lastProgress v) ->
  between 5 65 (lastProgress (snd (report_view output v)))
  /\ nearest (lastProgress v) <= nearest (lastProgress (snd (report_view output v)))
  /\ (fst (report_view output v) = []
      \/ map ev_progress (fst (report_view output v))
         = [Z2F (nearest (lastProgress (snd (report_view output v))))]).
Proof.
  intros Hb. unfold report_view.
  destruct (match_percent output) as [token|]; cbn [fst snd];
    [|split; [exact Hb|split; [lia|now left]]].
  destruct (lastProgress v <? scaledProgress (parseFloat token))%float eqn:Hlt;
    cbn [fst snd lastProgress]; [|split; [exact Hb|split; [lia|now left]]].
  destruct (scaled_step _ _ Hb Hlt) as [Hb' Hle].
  split; [exact Hb'|]. split; [exact Hle|]. right.
  cbn [map ev_progress download_event]. f_equal.
  apply (NumberFacts.Math_round_nearest 5 65); [lia|lia|exact Hb'].
Qed.

(** The percentages reported during the download: integers from 5 to 65,
    in non-decreasing order, starting from that of [lastProgress]. *)
Lemma yt_view_ascending (chunks : list chunk) (v : download_vars) :
  between 5 65 (lastProgress v) ->
  exists ns : list Z,
    map ev_progress (fst (yt_view chunks v)) = map Z2F ns
    /\ ascending (nearest (lastProgress v) :: ns)
    /\ Forall (fun n => 5 <= n <= 65) ns.
Proof.
  revert v. induction chunks as [|c rest IH]; intros v Hb.
  - exists []. repeat split. constructor.
  - cbn [yt_view].
    set (v0 := match c with
               | stdout _ => v
               | stderr output =>
                   {| lastProgress := lastProgress v;
                      errorOutput := errorOutput v +:+ output |}
               end).
    set (output := match c with stdout o | stderr o => o end).
    assert (Hsame : lastProgress v0 = lastProgress v) by now destruct c.
    replace (match c with
             | stdout output0 => report_view output0 v
             | stderr output0 => report_view output0 _
             end) with (report_view output v0) by now destruct c.
    rewrite <- Hsame in Hb |- *.
    destruct (report_view_ascending output v0 Hb) as (Hb' & Hle & Hev).
    destruct (report_view output v0) as [evs v']. cbn [fst snd] in *.
    destruct (IH v' Hb') as (ns & Hmap & Hasc & Hrange).
    destruct (yt_view rest v') as [more v'']. cbn [fst] in *.
    rewrite map_app, Hmap.
    destruct Hev as [->|Hev].
    + exists ns. split; [reflexivity|]. split; [|exact Hrange].
      destruct ns as [|n ns]; [exact I|].
      destruct Hasc as [Hn Hasc]. split; [lia|exact Hasc].
    + rewrite Hev. exists (nearest (lastProgress v') :: ns).
      split; [reflexivity|]. split; [split; [exact Hle|exact Hasc]|].
      constructor; [|exact Hrange].
      now apply (NumberFacts.nearest_between 5 65).
Qed.

(** *** The whole run *)

Lemma publish_all_snoc (taskId : string) (evs : list event) (e : event) (b : bus) :
  publish_all taskId (evs ++ [e]) b = sendProgress taskId e (publish_all taskId evs b).
Proof. now rewrite publish_all_app. Qed.

Lemma yt_on_end_view (e : stage_end) (v : download_vars) (st : pstate) :
  yt_on_end e v st
  = (match end_error
             (λ code, "Download gagal (code " +:+ code +:+ "): "
                      +:+ substring_0 200 (errorOutput v)) e with
     | Some error_message => thrown error_message
     | None => returned tt
     end, st).
Proof. destruct e as [[[| |]|]|]; reflexivity. Qed.

Lemma ff_on_end_view (e : stage_end) (st : pstate) :
  ff_on_end e st
  = (match end_error (λ code, "ffmpeg exited with code " +:+ code) e with
     | Some error_message => thrown error_message
     | None => returned tt
     end, st).
Proof. destruct e as [[[| |]|]|]; reflexivity. Qed.

Ltac same_run :=
  unfold send;
  cbn [run_events run_disk run_faults run_spawned the_bus disk fs_faults spawned];
  rewrite <- ?app_assoc;
  repeat (rewrite publish_all_app || rewrite publish_all_cons);
  reflexivity.

Lemma until_download_ends_view
    (w : world) (taskId : string) (o : options) (st : pstate) :
  until_download_ends w taskId o st
  = (returned
       (snd (yt_view (yt_output w)
               {| lastProgress := 5; errorOutput := EmptyString |})),
     {| the_bus :=
          publish_all taskId
            (started_event
             :: fst (yt_view (yt_output w)
                       {| lastProgress := 5; errorOutput := EmptyString |}))
            (the_bus st);
        disk := disk st;
        fs_faults := fs_faults st;
        spawned :=
          spawned st
          ++ [if String.eqb (format o) "mp3"
              then yt_dlp_audio (tempFile o) (url o)
              else yt_dlp_video (quality o) (tempFile o) (url o)] |}).
Proof.
  destruct st as [b d fl s]. unfold until_download_ends.
  unfold bind at 1. unfold send at 1. cbn [the_bus disk fs_faults spawned].
  unfold bind at 1. unfold spawn at 1. cbn [the_bus disk fs_faults spawned].
  rewrite yt_data_view. cbn [the_bus disk fs_faults spawned].
  now rewrite publish_all_cons.
Qed.

(** The error that ends a run before it waits for the cutter, if any. *)
Lemma until_cut_ends_view
    (w : world) (taskId : string) (o : options) (st : pstate) :
  until_cut_ends w taskId o st
  = let '(reports, v) :=
      yt_view (yt_output w) {| lastProgress := 5; errorOutput := EmptyString |} in
    let download_cmd :=
      if String.eqb (format o) "mp3"
      then yt_dlp_audio (tempFile o) (url o)
      else yt_dlp_video (quality o) (tempFile o) (url o) in
    let stopped (evs : list event) (error_message : string) :=
      (thrown error_message,
       {| the_bus := publish_all taskId evs (the_bus st);
          disk := disk_after_download w;
          fs_faults := faults_after_download w;
          spawned := spawned st ++ [download_cmd] |}) in
    match
      end_error
        (λ code, "Download gagal (code " +:+ code +:+ "): "
                 +:+ substring_0 200 (errorOutput v))
        (yt_end w)
    with
    | Some error_message => stopped (started_event :: reports) error_message
    | None =>
        match readdir_error (faults_after_download w) with
        | Some error_message =>
            stopped ((started_event :: reports) ++ [downloaded_event])
              error_message
        | None =>
            if negb (bool_decide
                       (found_view (disk_after_download w) (tempFile o)
                        ∈ disk_after_download w))
            then stopped ((started_event :: reports) ++ [downloaded_event])
                   "File download tidak ditemukan"
            else
              (returned tt,
               {| the_bus :=
                    publish_all taskId
                      (((started_event :: reports) ++ [downloaded_event])
                       ++ trimming_event :: ff_view (ff_output w))
                      (the_bus st);
                  disk := disk_after_download w;
                  fs_faults := faults_after_download w;
                  spawned :=
                    spawned st
                    ++ [download_cmd;
                        ffmpeg_trim
                          (found_view (disk_after_download w) (tempFile o))
                          (start o) (duration o) (finalFile o)] |})
        end
    end.
Proof.
  unfold until_cut_ends.
  unfold bind at 1. rewrite until_download_ends_view.
  destruct (yt_view (yt_output w) _) as [reports v]. cbn [fst snd].
  unfold bind at 1. unfold subprocess_left at 1. cbn [the_bus disk fs_faults spawned].
  unfold bind at 1. rewrite yt_on_end_view.
  destruct (end_error _ (yt_end w)) as [msg1|]; [reflexivity|].
  unfold bind at 1. unfold send at 1. cbn [the_bus disk fs_faults spawned].
  unfold bind at 1. rewrite findDownloadedFile_view. cbn [the_bus disk fs_faults spawned].
  destruct (readdir_error (faults_after_download w)) as [msg0|].
  { now rewrite publish_all_app. }
  unfold bind at 1. unfold existsSync at 1. cbn [the_bus disk fs_faults spawned].
  destruct (bool_decide (found_view (disk_after_download w) (tempFile o)
                           ∈ disk_after_download w)); cbn [negb].
  2:{ unfold bind at 1. unfold throw at 1. now rewrite publish_all_app. }
  unfold bind at 1. unfold ret at 1.
  unfold bind at 1. unfold send at 1. cbn [the_bus disk fs_faults spawned].
  unfold bind at 1. unfold spawn at 1. cbn [the_bus disk fs_faults spawned].
  rewrite ff_data_view. cbn [the_bus disk fs_faults spawned].
  f_equal. f_equal.
  - rewrite !publish_all_app. reflexivity.
  - now rewrite <- app_assoc.
Qed.

(** A run of [processVideo] never throws, and it is the run of [run_view]. *)
Lemma processVideo_view (w : world) (taskId : string) (o : options) (st : pstate) :
  processVideo w taskId o st
  = (returned tt,
     {| the_bus := publish_all taskId (run_events (run_view w taskId o)) (the_bus st);
        disk := run_disk (run_view w taskId o);
        fs_faults := run_faults (run_view w taskId o);
        spawned := spawned st ++ run_spawned (run_view w taskId o) |}).
Proof.
  unfold processVideo, run_view, try_catch.
  unfold bind at 1. rewrite until_cut_ends_view.
  destruct (yt_view (yt_output w) _) as [reports v].
  destruct (end_error _ (yt_end w)) as [msg1|]; cbv beta iota zeta.
  { unfold bind at 1. rewrite cleanup_error_view. cbn [the_bus disk fs_faults spawned].
    same_run. }
  destruct (readdir_error (faults_after_download w)) as [msg0|];
    cbv beta iota zeta.
  { unfold bind at 1. rewrite cleanup_error_view. cbn [the_bus disk fs_faults spawned].
    same_run. }
  destruct (bool_decide (found_view (disk_after_download w) (tempFile o)
                           ∈ disk_after_download w)); cbn [negb]; cbv beta iota zeta.
  2:{ unfold bind at 1. rewrite cleanup_error_view. cbn [the_bus disk fs_faults spawned].
      same_run. }
  unfold bind at 1. unfold subprocess_left at 1. cbn [the_bus disk fs_faults spawned].
  unfold bind at 1. rewrite ff_on_end_view.
  destruct (end_error _ (ff_end w)) as [msg2|].
  { unfold bind at 1. rewrite cleanup_error_view. cbn [the_bus disk fs_faults spawned].
    same_run. }
  unfold bind at 1. unfold send at 1. cbn [the_bus disk fs_faults spawned].
  unfold bind at 1. rewrite cleanup_success_view. cbn [the_bus disk fs_faults spawned].
  unfold bind at 1. unfold existsSync at 1. cbn [the_bus disk fs_faults spawned].
  destruct (bool_decide (finalFile o ∈ _)).
  - unfold bind at 1. unfold ret at 1. same_run.
  - unfold bind at 1. unfold throw at 1.
    unfold bind at 1. rewrite cleanup_error_view. cbn [the_bus disk fs_faults spawned].
    same_run.
Qed.

(** *** The progress of a task *)

Lemma ff_view_progress (chunks : list chunk) :
  exists k : nat,
    map ev_progress (ff_view chunks) = map Z2F (repeat 85 k)
    /\ Forall (fun e => ev_status e = trimming) (ff_view chunks).
Proof.
  induction chunks as [|c rest (k & IH & IHs)]; [exists 0%nat; split; [reflexivity|constructor]|].
  unfold ff_view. cbn [flat_map]. fold (ff_view rest).
  destruct c as [output|output]; [exists k; now split|].
  destruct (includes output "time=").
  - exists (S k). cbn [app map repeat]. rewrite IH. split; [reflexivity|].
    constructor; [reflexivity|exact IHs].
  - exists k. now split.
Qed.

Lemma all_events_nondecreasing (w : world) (o : options) :
  nondecreasing (map ev_progress (all_events w o)) = true.
Proof.
  unfold all_events.
  destruct (yt_view_ascending (yt_output w)
              {| lastProgress := 5; errorOutput := EmptyString |} five_between)
    as (ns & Hmap & Hasc & Hrange).
  destruct (ff_view_progress (ff_output w)) as (k & Hff & _).
  rewrite !map_app. cbn [map]. rewrite Hmap, Hff.
  match goal with
  | |- nondecreasing ?l = true =>
      replace l
        with (map Z2F ((((5 :: ns) ++ [65]) ++ 70 :: repeat 85 k) ++ [96] ++ [100]))
        by (rewrite !map_app; reflexivity)
  end.
  rewrite <- (app_assoc ((5 :: ns) ++ [65]) (70 :: repeat 85 k)).
  apply NumberFacts.nondecreasing_Z2F.
  - rewrite !List.Forall_app. repeat split.
    + constructor; [lia|]. eapply List.Forall_impl; [|exact Hrange]. cbn. lia.
    + repeat constructor; lia.
    + constructor; [lia|]. apply List.Forall_forall. intros x Hx.
      apply repeat_spec in Hx. lia.
    + repeat constructor; lia.
    + repeat constructor; lia.
  - change (nearest 5) with 5 in Hasc.
    apply (NumberFacts.ascending_app _ _ 65).
    + apply (NumberFacts.ascending_app _ _ 65); [exact Hasc|exact I| |].
      * constructor; [lia|]. eapply List.Forall_impl; [|exact Hrange]. cbn. lia.
      * repeat constructor; lia.
    + apply (NumberFacts.ascending_app (70 :: repeat 85 k) _ 85).
      * destruct k; [exact I|]. split; [lia|]. apply (NumberFacts.ascending_repeat 85 (S k)).
      * split; [lia|exact I].
      * constructor; [lia|]. apply List.Forall_forall. intros x Hx.
        apply repeat_spec in Hx. lia.
      * repeat constructor; lia.
    + rewrite List.Forall_app. split.
      * constructor; [lia|]. eapply List.Forall_impl; [|exact Hrange]. cbn. lia.
      * repeat constructor; lia.
    + rewrite List.Forall_app. split.
      * constructor; [lia|]. apply List.Forall_forall. intros x Hx.
        apply repeat_spec in Hx. lia.
      * repeat constructor; lia.
Qed.

(** The events of a run are those of its view. *)
Lemma events_of_run (w : world) (taskId : string) (o : options) (st : pstate) :
  events_since (the_bus st) (the_bus (snd (processVideo w taskId o st)))
  = run_events (run_view w taskId o).
Proof. rewrite processVideo_view. apply events_since_publish_all. Qed.

(** C1, as the code has it: the progress values sent for a task are
    non-decreasing from the first event, [downloading] at 5, up to the
    terminal event; the terminal event is [complete] at 100, and then the
    whole sequence is non-decreasing, or [error], which reports 0. *)
Theorem progress_rises_until_the_terminal_event
    (w : world) (taskId : string) (o : options) (st : pstate) :
  exists (earlier : list event) (final : event),
    events_since (the_bus st) (the_bus (snd (processVideo w taskId o st)))
    = earlier ++ [final]
    /\ head earlier = Some started_event
    /\ nondecreasing (map ev_progress earlier) = true
    /\ ((ev_status final = complete /\ ev_progress final = 100%float
         /\ nondecreasing (map ev_progress (earlier ++ [final])) = true)
        \/ (ev_status final = error /\ ev_progress final = 0%float)).
Proof.
  rewrite events_of_run.
  pose proof (all_events_nondecreasing w o) as Hall.
  unfold all_events in Hall. unfold run_view.
  destruct (yt_view (yt_output w) _) as [reports v]. cbn [fst] in Hall.
  rewrite !map_app in Hall.
  destruct (end_error _ (yt_end w)) as [msg|].
  { eexists _, _. split; [reflexivity|]. split; [reflexivity|]. split; [|now right].
    rewrite <- !app_assoc in Hall. now apply NumberFacts.nondecreasing_prefix in Hall. }
  assert (Hdownloaded :
    nondecreasing (map ev_progress ((started_event :: reports) ++ [downloaded_event]))
    = true).
  { rewrite map_app. rewrite <- app_assoc in Hall.
    now apply NumberFacts.nondecreasing_prefix in Hall. }
  destruct (readdir_error (faults_after_download w)) as [msg|].
  { eexists _, _. split; [reflexivity|]. split; [reflexivity|]. split; [|now right].
    exact Hdownloaded. }
  destruct (negb _).
  { eexists _, _. split; [reflexivity|]. split; [reflexivity|]. split; [|now right].
    exact Hdownloaded. }
  destruct (end_error _ (ff_end w)) as [msg|].
  { eexists _, _. split; [reflexivity|]. split; [reflexivity|]. split; [|now right].
    rewrite !map_app. now apply NumberFacts.nondecreasing_prefix in Hall. }
  assert (Hearlier :
    nondecreasing
      (map ev_progress
         ((((started_event :: reports) ++ [downloaded_event])
           ++ trimming_event :: ff_view (ff_output w))
          ++ [cleaning_event]))
    = true).
  { rewrite !map_app. rewrite !app_assoc in Hall.
    apply NumberFacts.nondecreasing_prefix in Hall.
    now rewrite <- !app_assoc in Hall |- *. }
  destruct (bool_decide _).
  - eexists _, _. split; [reflexivity|]. split; [reflexivity|].
    split; [exact Hearlier|]. left. split; [reflexivity|]. split; [reflexivity|].
    rewrite <- Hall. f_equal. rewrite !map_app, <- !app_assoc. reflexivity.
  - eexists _, _. split; [reflexivity|]. split; [reflexivity|].
    split; [exact Hearlier|]. now right.
Qed.

(** C1, as the claim has it, fails: when the downloader exits with code 1
    the task sends [downloading] at 5 and then [error] at 0. *)
Lemma progress_drops_at_the_error_event :
  map (fun e => (ev_status e, ev_progress e))
    (events_since (the_bus initial_state)
       (the_bus (snd (processVideo world_download_fails example_task
                        example_options initial_state))))
  = [(downloading, 5%float); (error, 0%float)]
  /\ nondecreasing
       (map ev_progress
          (events_since (the_bus initial_state)
             (the_bus (snd (processVideo world_download_fails example_task
                              example_options initial_state)))))
     = false.
Proof. split; vm_compute; reflexivity. Qed.

(** *** Subscribing to the progress of a task *)

(** What one call of [sendProgress] writes to a response. *)
Lemma received_sendProgress (taskId : string) (res : nat) (data : event) (b : bus) :
  received res (sendProgress taskId data b)
  = received res b
    ++ (if bool_decide (progressStreams b !! taskId = Some res) then [data] else []).
Proof.
  destruct (progressStreams b !! taskId) as [sink|] eqn:Hsink.
  - destruct (decide (sink = res)) as [->|Hne].
    + rewrite bool_decide_eq_true_2 by reflexivity.
      now apply received_sendProgress_subscribed.
    + rewrite bool_decide_eq_false_2 by congruence. rewrite app_nil_r.
      apply (received_sendProgress_other taskId sink res data b Hsink).
      congruence.
  - rewrite bool_decide_eq_false_2 by discriminate. rewrite app_nil_r.
    unfold sendProgress. now rewrite Hsink.
Qed.

(** What one call of the subscription handler writes to a response. *)
Lemma received_get_progress (taskId : string) (res other : nat) (b : bus) :
  received other (get_progress taskId res b)
  = received other b ++ (if Nat.eqb res other then [connected_event] else []).
Proof.
  destruct (Nat.eqb_spec res other) as [->|Hne].
  - apply (received_write_same other connected_event b).
  - rewrite app_nil_r. apply (received_write_other res other connected_event b).
    congruence.
Qed.

Lemma calls_cons (c : bus_call) (cs : list bus_call) (b : bus) :
  calls (c :: cs) b = calls cs (call c b).
Proof. reflexivity. Qed.

Lemma calls_app (xs ys : list bus_call) (b : bus) :
  calls (xs ++ ys) b = calls ys (calls xs b).
Proof. unfold calls. apply fold_left_app. Qed.

(** While a response is the sink of a task and of no other, and no call
    changes the sink of the task or registers the response again, the
    response receives the events published for the task, and stays its
    sink. *)
Lemma calls_while_subscribed
    (taskId : string) (res : nat) (during : list bus_call) (b : bus) :
  progressStreams b !! taskId = Some res ->
  (forall other : string, other <> taskId -> progressStreams b !! other <> Some res) ->
  Forall (fun c => changes_sink taskId c = false /\ registers res c = false) during ->
  received res (calls during b) = received res b ++ events_for taskId during
  /\ progressStreams (calls during b) !! taskId = Some res
  /\ (forall other : string,
        other <> taskId -> progressStreams (calls during b) !! other <> Some res).
Proof.
  revert b. induction during as [|c during IH]; intros b Hsink Hfresh Hquiet.
  - cbn. rewrite app_nil_r. now repeat split.
  - inversion Hquiet as [|? ? [Hchange Hreg] Hrest]; subst.
    rewrite calls_cons.
    assert (Hstep :
      received res (call c b)
      = received res b
        ++ match c with
           | published t data => if String.eqb t taskId then [data] else []
           | _ => []
           end
      /\ progressStreams (call c b) !! taskId = Some res
      /\ (forall other : string,
            other <> taskId -> progressStreams (call c b) !! other <> Some res)).
    { destruct c as [t data|t r|t]; cbn [call changes_sink registers] in *.
      - rewrite received_sendProgress, sendProgress_streams.
        split; [|now split].
        destruct (String.eqb_spec t taskId) as [->|Hne].
        + now rewrite bool_decide_eq_true_2.
        + now rewrite bool_decide_eq_false_2 by (now apply Hfresh).
      - apply String.eqb_neq in Hchange. apply Nat.eqb_neq in Hreg.
        rewrite received_get_progress.
        rewrite (proj2 (Nat.eqb_neq r res) Hreg).
        unfold get_progress. cbn [progressStreams write].
        split; [reflexivity|]. split.
        + now rewrite lookup_insert_ne.
        + intros other Hother. destruct (decide (t = other)) as [->|Hne].
          * rewrite lookup_insert_eq. congruence.
          * rewrite lookup_insert_ne by exact Hne. now apply Hfresh.
      - apply String.eqb_neq in Hchange.
        unfold get_progress_close, received. cbn [progressStreams written].
        split; [now rewrite app_nil_r|]. split.
        + now rewrite lookup_delete_ne.
        + intros other Hother. destruct (decide (t = other)) as [->|Hne].
          * now rewrite lookup_delete_eq.
          * rewrite lookup_delete_ne by exact Hne. now apply Hfresh. }
    destruct Hstep as (Hreceived & Hsink' & Hfresh').
    destruct (IH (call c b) Hsink' Hfresh' Hrest) as (IH1 & IH2 & IH3).
    split; [|now split].
    rewrite IH1, Hreceived. unfold events_for. cbn [flat_map].
    now rewrite <- app_assoc.
Qed.

(** A response that is the sink of no task and is not registered again
    receives nothing more. *)
Lemma calls_after_unsubscribed (res : nat) (after : list bus_call) (b : bus) :
  (forall t : string, progressStreams b !! t <> Some res) ->
  Forall (fun c => registers res c = false) after ->
  received res (calls after b) = received res b.
Proof.
  revert b. induction after as [|c after IH]; intros b Hnone Hquiet; [reflexivity|].
  inversion Hquiet as [|? ? Hreg Hrest]; subst.
  rewrite calls_cons, IH; [| |exact Hrest].
  - destruct c as [t data|t r|t]; cbn [call registers] in *.
    + rewrite received_sendProgress.
      rewrite bool_decide_eq_false_2 by apply Hnone. apply app_nil_r.
    + rewrite received_get_progress, Hreg. apply app_nil_r.
    + reflexivity.
  - intros t'. destruct c as [t data|t r|t]; cbn [call registers] in *.
    + rewrite sendProgress_streams. apply Hnone.
    + apply Nat.eqb_neq in Hreg. unfold get_progress. cbn [progressStreams write].
      destruct (decide (t = t')) as [->|Hne].
      * rewrite lookup_insert_eq. congruence.
      * rewrite lookup_insert_ne by exact Hne. apply Hnone.
    + unfold get_progress_close. cbn [progressStreams].
      destruct (decide (t = t')) as [->|Hne].
      * now rewrite lookup_delete_eq.
      * rewrite lookup_delete_ne by exact Hne. apply Hnone.
Qed.

(** C2, as the code has it: subscribing to a task, terminal or not, writes
    to the new response the [connected] event and nothing else; the last
    snapshot stays stored in [taskProgress] and is not sent, and no
    earlier event is replayed.  From then on the response receives the
    events published for the task, in order, as long as it is the sink of
    the task: whatever the server handles in between for other tasks and
    other responses, it has received [connected] and then those events
    and nothing else; once a later subscription to the task has replaced
    it, or the close of a connection to the task has removed it, it
    receives nothing more. *)
Theorem subscriber_gets_no_replay
    (b : bus) (taskId : string) (res : nat) (data : event) (later : list event) :
  taskProgress (sendProgress taskId data b) !! taskId = Some data
  /\ received res (get_progress taskId res b) = received res b ++ [connected_event]
  /\ taskProgress (get_progress taskId res b) = taskProgress b
  /\ journal (get_progress taskId res b) = journal b
  /\ received res (publish_all taskId later (get_progress taskId res b))
     = received res b ++ connected_event :: later
  /\ (forall during : list bus_call,
        (forall other : string,
           other <> taskId -> progressStreams b !! other <> Some res) ->
        Forall
          (fun c => changes_sink taskId c = false /\ registers res c = false)
          during ->
        received res (calls during (get_progress taskId res b))
        = received res b ++ connected_event :: events_for taskId during
        /\ forall (ender : bus_call) (after : list bus_call),
             changes_sink taskId ender = true ->
             registers res ender = false ->
             Forall (fun c => registers res c = false) after ->
             received res
               (calls (during ++ ender :: after) (get_progress taskId res b))
             = received res b ++ connected_event :: events_for taskId during).
Proof.
  split.
  { unfold sendProgress. cbn [taskProgress]. apply lookup_insert_eq. }
  split; [apply get_progress_received|].
  split; [reflexivity|]. split; [reflexivity|].
  split.
  { destruct (received_publish_all taskId res later (get_progress taskId res b)
                (get_progress_streams taskId res b)) as [H _].
    rewrite H. destruct (get_progress_received taskId res b) as [-> _].
    now rewrite <- app_assoc. }
  intros during Hfresh Hquiet.
  assert (Hfresh' : forall other : string,
            other <> taskId ->
            progressStreams (get_progress taskId res b) !! other <> Some res).
  { intros other Hother. unfold get_progress. cbn [progressStreams write].
    rewrite lookup_insert_ne by congruence. now apply Hfresh. }
  destruct (calls_while_subscribed taskId res during (get_progress taskId res b)
              (get_progress_streams taskId res b) Hfresh' Hquiet)
    as (Hreceived & Hsink & Hothers).
  destruct (get_progress_received taskId res b) as [Hconnected _].
  assert (Hduring :
    received res (calls during (get_progress taskId res b))
    = received res b ++ connected_event :: events_for taskId during).
  { rewrite Hreceived, Hconnected. now rewrite <- app_assoc. }
  split; [exact Hduring|].
  intros ender after Hends Hreg Hafter.
  rewrite calls_app, calls_cons, calls_after_unsubscribed; [| |exact Hafter].
  - rewrite <- Hduring.
    destruct ender as [t e|t r|t]; cbn [call changes_sink registers] in *.
    + discriminate Hends.
    + rewrite received_get_progress, Hreg. apply app_nil_r.
    + reflexivity.
  - intros t'.
    destruct ender as [t e|t r|t]; cbn [call changes_sink registers] in *.
    + discriminate Hends.
    + apply String.eqb_eq in Hends. subst t. apply Nat.eqb_neq in Hreg.
      unfold get_progress. cbn [progressStreams write].
      destruct (decide (taskId = t')) as [<-|Hne].
      * rewrite lookup_insert_eq. congruence.
      * rewrite lookup_insert_ne by exact Hne. apply Hothers. congruence.
    + apply String.eqb_eq in Hends. subst t.
      unfold get_progress_close. cbn [progressStreams].
      destruct (decide (taskId = t')) as [<-|Hne].
      * now rewrite lookup_delete_eq.
      * rewrite lookup_delete_ne by exact Hne. apply Hothers. congruence.
Qed.

(** The theorem at work: a page subscribes to the task of the examples;
    the task sends two events while another task is followed and sends
    one of its own; then a second page subscribes to the task, and the
    task sends one more event.  The first page has received [connected]
    and the two events. *)
Lemma a_replaced_subscriber_hears_no_more :
  received 1
    (calls
       ([published example_task started_event;
         subscribed "task_1700000000001_zzzzzzzzz" 2;
         published "task_1700000000001_zzzzzzzzz" cutting_event;
         published example_task downloaded_event]
        ++ subscribed example_task 3 :: [published example_task trimming_event])
       (get_progress example_task 1 empty_bus))
  = [connected_event; started_event; downloaded_event].
Proof.
  destruct (proj2 (proj2 (proj2 (proj2 (proj2
              (subscriber_gets_no_replay empty_bus example_task 1
                 started_event []))))))
    with (during := [published example_task started_event;
                     subscribed "task_1700000000001_zzzzzzzzz" 2;
                     published "task_1700000000001_zzzzzzzzz" cutting_event;
                     published example_task downloaded_event])
    as [_ Hafter].
  - intros other _. apply lookup_empty_Some.
  - repeat constructor.
  - exact (Hafter (subscribed example_task 3)
             [published example_task trimming_event] eq_refl eq_refl
             ltac:(repeat constructor)).
Defined.

(** C2, as the claim has it, fails: after a task has completed, with
    [complete] at 100 as its stored snapshot, a new subscriber receives the
    [connected] event only. *)
Lemma late_subscriber_gets_no_snapshot :
  option_map (fun e => (ev_status e, ev_progress e, ev_filename e))
    (taskProgress
       (the_bus (snd (processVideo world_success example_task example_options
                        initial_state)))
     !! example_task)
  = Some (complete, 100%float, Some "clip.mp4")
  /\ received 1
       (get_progress example_task 1
          (the_bus (snd (processVideo world_success example_task example_options
                           initial_state))))
     = [connected_event].
Proof. split; vm_compute; reflexivity. Qed.

(** C10: a subscription writes [connected] with progress 0 to its response,
    whatever the state of the bus, before anything published afterwards for
    the task; the response becomes the sink of the task, and what is
    published afterwards reaches no other response, so not the sink
    registered before. *)
Theorem subscription_starts_with_connected
    (b : bus) (taskId : string) (res : nat) (later : list event) :
  (ev_status connected_event, ev_progress connected_event)
  = (connected, 0%float)
  /\ progressStreams (get_progress taskId res b) !! taskId = Some res
  /\ received res (publish_all taskId later (get_progress taskId res b))
     = received res b ++ connected_event :: later
  /\ (forall other : nat, other <> res ->
        received other (publish_all taskId later (get_progress taskId res b))
        = received other b).
Proof.
  split; [reflexivity|]. split; [apply get_progress_streams|].
  destruct (received_publish_all taskId res later (get_progress taskId res b)
              (get_progress_streams taskId res b)) as [H1 H2].
  destruct (get_progress_received taskId res b) as [G1 G2].
  split.
  - rewrite H1, G1. now rewrite <- app_assoc.
  - intros other Hne. now rewrite H2, G2.
Qed.

(** The theorem at work: a second subscriber takes the place of the first,
    and what is published then reaches the second one only. *)
Lemma second_subscriber_replaces_the_first :
  progressStreams (get_progress example_task 2 (get_progress example_task 1 empty_bus))
  !! example_task = Some 2%nat
  /\ received 2
       (publish_all example_task [started_event]
          (get_progress example_task 2 (get_progress example_task 1 empty_bus)))
     = [connected_event; started_event]
  /\ received 1
       (publish_all example_task [started_event]
          (get_progress example_task 2 (get_progress example_task 1 empty_bus)))
     = [connected_event].
Proof.
  destruct (subscription_starts_with_connected
              (get_progress example_task 1 empty_bus) example_task 2
              [started_event])
    as (_ & Hsink & Hnew & Hold).
  split; [exact Hsink|]. split.
  - rewrite Hnew. reflexivity.
  - rewrite (Hold 1%nat ltac:(discriminate)). reflexivity.
Defined.

(** *** The download handlers *)

Lemma yt_on_data_view (taskId : string) (c : chunk) (v : download_vars) (st : pstate) :
  yt_on_data taskId c v st
  = (returned (snd (yt_view [c] v)),
     {| the_bus := publish_all taskId (fst (yt_view [c] v)) (the_bus st);
        disk := disk st; fs_faults := fs_faults st;
        spawned := spawned st |}).
Proof.
  rewrite <- yt_data_view. cbn [yt_data]. unfold bind.
  destruct (yt_on_data taskId c v st) as [[v'|e] st']; reflexivity.
Qed.

(** C3, as the code has it: in the [downloading] state a percentage [p]
    read in a chunk of either stream is scaled to [Math.min(5 + p * 0.6, 65)],
    so that 0 gives 5, 50 gives 35 and 100 gives 65.  The handler sends an
    event exactly when the scaled value is above [lastProgress], the scaled
    value, not rounded, of the last event these handlers sent (5 at the
    start), which it then replaces; otherwise it sends nothing and
    [lastProgress] stays.  The event carries the scaled value rounded to the
    nearest integer; from a [lastProgress] between 5 and 65 that is an
    integer between 5 and 65, and over any sequence of chunks the values
    reported, from the 5 of the start on, never go down. *)
Theorem download_percent_is_scaled_and_sent_when_higher
    (taskId output : string) (v : download_vars) (st : pstate) :
  scaledProgress 0 = 5%float
  /\ scaledProgress 50 = 35%float
  /\ scaledProgress 100 = 65%float
  /\ (forall p : float,
        scaledProgress p = Math_min (5 + p * 0x1.3333333333333p-1)%float 65)
  /\ (forall c : chunk, c = stdout output \/ c = stderr output ->
        exists v' : download_vars,
          fst (yt_on_data taskId c v st) = returned v'
          /\ match match_percent output with
             | Some token =>
                 let scaled := scaledProgress (parseFloat token) in
                 if (lastProgress v <? scaled)%float
                 then
                   map (fun e => (ev_status e, ev_progress e))
                     (events_since (the_bus st)
                        (the_bus (snd (yt_on_data taskId c v st))))
                   = [(downloading, Math_round scaled)]
                   /\ lastProgress v' = scaled
                 else
                   events_since (the_bus st)
                     (the_bus (snd (yt_on_data taskId c v st))) = []
                   /\ lastProgress v' = lastProgress v
             | None =>
                 events_since (the_bus st)
                   (the_bus (snd (yt_on_data taskId c v st))) = []
                 /\ lastProgress v' = lastProgress v
             end)
  /\ (forall p : float,
        between 5 65 (lastProgress v) ->
        (lastProgress v <? scaledProgress p)%float = true ->
        exists n : Z,
          5 <= n <= 65 /\ Math_round (scaledProgress p) = Z2F n)
  /\ (forall chunks : list chunk,
        nondecreasing
          (5%float
           :: map ev_progress
                (events_since (the_bus st)
                   (the_bus
                      (snd (yt_data taskId chunks
                              {| lastProgress := 5; errorOutput := EmptyString |}
                              st)))))
        = true).
Proof.
  split; [reflexivity|]. split; [reflexivity|]. split; [reflexivity|].
  split; [reflexivity|].
  split; [|split].
  - intros c Hc. rewrite yt_on_data_view. cbn [fst snd the_bus].
    rewrite events_since_publish_all. cbn [yt_view].
    set (v0 := {| lastProgress := lastProgress v;
                  errorOutput := errorOutput v +:+ output |}).
    assert (Hview : exists v1, lastProgress v1 = lastProgress v
              /\ match c with
                 | stdout o => report_view o v
                 | stderr o =>
                     report_view o
                       {| lastProgress := lastProgress v;
                          errorOutput := errorOutput v +:+ o |}
                 end = report_view output v1).
    { destruct Hc as [->| ->]; [exists v|exists v0]; now split. }
    destruct Hview as (v1 & Hlast & ->). rewrite <- Hlast.
    unfold report_view.
    destruct (match_percent output) as [token|].
    + cbn zeta.
      destruct (lastProgress v1 <? scaledProgress (parseFloat token))%float;
        eexists; (split; [reflexivity|]); now split.
    + eexists. split; [reflexivity|]. now split.
  - intros p Hb Hlt. destruct (scaled_step _ _ Hb Hlt) as [Hb' _].
    exists (nearest (scaledProgress p)).
    split; [now apply (NumberFacts.nearest_between 5 65)|].
    now apply (NumberFacts.Math_round_nearest 5 65).
  - intros chunks. rewrite yt_data_view. cbn [snd the_bus].
    rewrite events_since_publish_all.
    destruct (yt_view_ascending chunks
                {| lastProgress := 5; errorOutput := EmptyString |} five_between)
      as (ns & -> & Hasc & Hrange).
    change (nondecreasing (map Z2F (5 :: ns)) = true).
    apply NumberFacts.nondecreasing_Z2F; [|exact Hasc].
    constructor; [lia|]. eapply List.Forall_impl; [|exact Hrange]. cbn. lia.
Qed.

(** The theorem at work: from the start, a chunk that shows 50.0% is
    reported as 35. *)
Lemma half_of_the_download_is_reported_as_35 :
  map (fun e => (ev_status e, ev_progress e))
    (events_since (the_bus initial_state)
       (the_bus
          (snd (yt_on_data example_task (stdout "[download]  50.0% of 10.00MiB")
                  {| lastProgress := 5; errorOutput := EmptyString |}
                  initial_state))))
  = [(downloading, 35%float)]
  /\ exists n : Z, 5 <= n <= 65 /\ Math_round (scaledProgress 50) = Z2F n.
Proof.
  destruct (download_percent_is_scaled_and_sent_when_higher
              example_task "[download]  50.0% of 10.00MiB"
              {| lastProgress := 5; errorOutput := EmptyString |} initial_state)
    as (_ & _ & _ & _ & Hsend & Hrange & _).
  split.
  - destruct (Hsend (stdout "[download]  50.0% of 10.00MiB") (or_introl eq_refl))
      as (v' & _ & H).
    change (match_percent "[download]  50.0% of 10.00MiB") with (Some "50.0") in H.
    cbn zeta in H.
    change (lastProgress {| lastProgress := 5; errorOutput := EmptyString |}
            <? scaledProgress (parseFloat "50.0"))%float with true in H.
    cbn iota in H. destruct H as [H _]. rewrite H. reflexivity.
  - apply Hrange; [apply five_between|reflexivity].
Defined.

(** C3, as the claim has it, fails: after the chunk with 1.0%, reported as
    6, the chunk with 1.2% is reported as well, as 6 again; its scaled value,
    5.72, is above the scaled value 5.6 of the last report and is not above
    the last percent reported. *)
Lemma same_percent_is_sent_twice :
  map (fun e => (ev_status e, ev_progress e))
    (events_since (the_bus initial_state)
       (the_bus
          (snd (yt_data example_task
                  [stdout "[download]   1.0% of 10.00MiB";
                   stdout "[download]   1.2% of 10.00MiB"]
                  {| lastProgress := 5; errorOutput := EmptyString |}
                  initial_state))))
  = [(downloading, 6%float); (downloading, 6%float)]
  /\ (6 <? scaledProgress (parseFloat "1.2"))%float = false
  /\ (scaledProgress (parseFloat "1.0") <? scaledProgress (parseFloat "1.2"))%float
     = true.
Proof. repeat split; vm_compute; reflexivity. Qed.

(** *** Validation of the duration *)

Lemma post_trim_rejects_nonpositive_duration
    (isVideoUrl isTimeString : string -> bool)
    (sanitizeFilename : option string -> string)
    (w : world) (now : Z) (random : string) (body : trim_body) (st : pstate) :
  (validators_timeToSeconds (b_end body)
   - validators_timeToSeconds (b_start body) <=? 0)%float = true ->
  exists errors : list validation_error,
    post_trim isVideoUrl isTimeString sanitizeFilename w now random body st
    = (returned (bad_request errors), st)
    /\ In invalid_duration errors.
Proof.
  intros Hd. apply NumberFacts.leb_zero_not_above in Hd.
  unfold post_trim, validateTrimRequest. cbn [isValid errors]. rewrite Hd.
  set (errs := (if isVideoUrl (b_url body) then [] else [invalid_url])
               ++ (if isTimeString (b_start body) then [] else [invalid_start])
               ++ (if isTimeString (b_end body) then [] else [invalid_end])
               ++ [invalid_duration]).
  assert (Hin : In invalid_duration errs).
  { unfold errs. rewrite !in_app_iff. right. right. right. now left. }
  exists errs. split; [|exact Hin].
  destruct errs as [|e errs]; [destruct Hin|reflexivity].
Qed.

(** C4: a request whose computed duration, the seconds of its end minus the
    seconds of its start, is not above 0 is rejected before any subprocess
    is launched.  The command-line robot prints its error and has executed
    nothing; the [/trim] handler, with the validation the specification
    describes, answers 400 with the errors, the duration among them, and
    leaves the state as it was: no task, no event, no subprocess. *)
Theorem nonpositive_duration_is_rejected_before_launch :
  (forall (w : Robot.world) (c : Robot.content) (startTime endTime : string)
          (st : Robot.state),
      Robot.read_times c
        (Robot.print Robot.rule
           {| Robot.tty := Robot.typed w; Robot.executed := [];
              Robot.printed := [] |})
      = (startTime, endTime, st) ->
      (Robot.timeToSeconds endTime - Robot.timeToSeconds startTime <=? 0)%float
      = true ->
      Robot.executed (Robot.download w c) = []
      /\ Robot.printed (Robot.download w c)
         = Robot.printed st
           ++ [Robot.error_invalid_duration
                 (Robot.timeToSeconds endTime
                  - Robot.timeToSeconds startTime)%float])
  /\ (forall (isVideoUrl isTimeString : string -> bool)
             (sanitizeFilename : option string -> string)
             (w : world) (now : Z) (random : string) (body : trim_body)
             (st : pstate),
        (validators_timeToSeconds (b_end body)
         - validators_timeToSeconds (b_start body) <=? 0)%float = true ->
        exists errors : list validation_error,
          post_trim isVideoUrl isTimeString sanitizeFilename w now random body st
          = (returned (bad_request errors), st)
          /\ In invalid_duration errors).
Proof.
  split.
  - apply RobotFacts.download_rejects_nonpositive_duration.
  - apply post_trim_rejects_nonpositive_duration.
Qed.

(** The request from 00:04:00 back to 00:03:00 (a duration of -60) is
    rejected on both paths. *)
Lemma reversed_times_are_rejected :
  (Robot.executed (Robot.download quiet_world reversed_content) = []
   /\ Robot.printed (Robot.download quiet_world reversed_content)
      = [Robot.rule; Robot.error_invalid_duration (-60)%float])
  /\ exists errors : list validation_error,
       post_trim (fun _ => true) (fun _ => true) (default "video")
         world_success 1700000000000 "k3x9q2m1a" reversed_body initial_state
       = (returned (bad_request errors), initial_state)
       /\ In invalid_duration errors.
Proof.
  split.
  - apply (proj1 nonpositive_duration_is_rejected_before_launch
             quiet_world reversed_content "00:04:00" "00:03:00"
             (Robot.print Robot.rule
                {| Robot.tty := []; Robot.executed := []; Robot.printed := [] |}));
      vm_compute; reflexivity.
  - apply (proj2 nonpositive_duration_is_rejected_before_launch).
    vm_compute. reflexivity.
Defined.

(** *** Where a run ends *)

Lemma disk_of_run (w : world) (taskId : string) (o : options) (st : pstate) :
  disk (snd (processVideo w taskId o st)) = run_disk (run_view w taskId o).
Proof. now rewrite processVideo_view. Qed.

Lemma report_view_downloading (output : string) (v : download_vars) :
  Forall (fun e => ev_status e = downloading) (fst (report_view output v)).
Proof.
  unfold report_view. destruct (match_percent output) as [token|]; [|constructor].
  destruct (lastProgress v <? _)%float; repeat constructor.
Qed.

Lemma yt_view_downloading (chunks : list chunk) (v : download_vars) :
  Forall (fun e => ev_status e = downloading) (fst (yt_view chunks v)).
Proof.
  revert v. induction chunks as [|c rest IH]; intros v; [constructor|].
  cbn [yt_view].
  destruct c as [output|output].
  - pose proof (report_view_downloading output v) as H.
    destruct (report_view output v) as [evs v']. specialize (IH v').
    destruct (yt_view rest v') as [more v'']. cbn [fst] in *.
    apply List.Forall_app. now split.
  - pose proof (report_view_downloading output
                  {| lastProgress := lastProgress v;
                     errorOutput := errorOutput v +:+ output |}) as H.
    destruct (report_view output _) as [evs v']. specialize (IH v').
    destruct (yt_view rest v') as [more v'']. cbn [fst] in *.
    apply List.Forall_app. now split.
Qed.

Lemma string_app_assoc (a b c : string) : (a +:+ b) +:+ c = a +:+ (b +:+ c).
Proof.
  induction a as [|x a IH]; [reflexivity|].
  change (String x ((a +:+ b) +:+ c) = String x (a +:+ (b +:+ c))). now f_equal.
Qed.

Lemma string_app_empty (a : string) : a +:+ EmptyString = a.
Proof.
  induction a as [|x a IH]; [reflexivity|].
  change (String x (a +:+ EmptyString) = String x a). now f_equal.
Qed.

Lemma report_view_errorOutput (output : string) (v : download_vars) :
  errorOutput (snd (report_view output v)) = errorOutput v.
Proof.
  unfold report_view. destruct (match_percent output) as [token|]; [|reflexivity].
  now destruct (lastProgress v <? _)%float.
Qed.

(** [errorOutput] gathers what the downloader wrote on its standard error. *)
Lemma yt_view_errorOutput (chunks : list chunk) (v : download_vars) :
  errorOutput (snd (yt_view chunks v)) = errorOutput v +:+ stderr_text chunks.
Proof.
  revert v. induction chunks as [|c rest IH]; intros v.
  - cbn. now rewrite string_app_empty.
  - cbn [yt_view stderr_text]. destruct c as [output|output].
    + pose proof (report_view_errorOutput output v) as H.
      destruct (report_view output v) as [evs v']. specialize (IH v').
      destruct (yt_view rest v') as [more v'']. cbn [snd] in *. now rewrite IH, H.
    + pose proof (report_view_errorOutput output
                    {| lastProgress := lastProgress v;
                       errorOutput := errorOutput v +:+ output |}) as H.
      destruct (report_view output _) as [evs v']. specialize (IH v').
      destruct (yt_view rest v') as [more v'']. cbn [snd errorOutput] in *.
      rewrite IH, H.
      now rewrite string_app_assoc.
Qed.

Lemma end_error_close (stage : string -> string) (code : option Z) :
  code <> Some 0 -> end_error stage (close code) = Some (stage (show_code code)).
Proof. destruct code as [[| |]|]; intros H; try reflexivity. congruence. Qed.

Lemma substring_0_length (n : nat) (s : string) :
  (String.length (substring_0 n s) <= n)%nat.
Proof.
  unfold substring_0. revert s. induction n as [|n IH]; intros [|c s]; cbn; try lia.
  specialize (IH s). lia.
Qed.

Lemma substring_0_prefix (n : nat) (s : string) :
  String.prefix (substring_0 n s) s = true.
Proof.
  unfold substring_0. revert s. induction n as [|n IH]; intros [|c s]; cbn;
    try reflexivity.
  destruct (ascii_dec c c); [apply IH|congruence].
Qed.

(** The events before the cut do not include the one that opens it. *)
Lemma trimming_not_before (reports : list event) (extra : list event) (msg : string) :
  Forall (fun e => ev_status e = downloading) reports ->
  Forall (fun e => ev_status e = downloading) extra ->
  ~ In trimming_event ((started_event :: reports) ++ extra ++ [error_event msg]).
Proof.
  intros Hr He Hin.
  assert (Hd : forall l, Forall (fun e => ev_status e = downloading) l ->
                         ~ In trimming_event l).
  { intros l Hl H. rewrite List.Forall_forall in Hl. specialize (Hl _ H).
    discriminate Hl. }
  rewrite !in_app_iff in Hin. destruct Hin as [[Hin|Hin]|[Hin|[Hin|[]]]].
  - discriminate Hin.
  - exact (Hd _ Hr Hin).
  - exact (Hd _ He Hin).
  - discriminate Hin.
Qed.

(** *** The error of a failed stage *)

(** C5, as the code has it: when the downloader exits with a code other
    than 0, the task ends with an error whose message carries the code and
    the first 200 UTF-16 code units, at most, of what the downloader wrote
    on its standard error, as [substring(0, 200)] counts them; when the
    cutter does, the message carries the code and nothing of its
    output. *)
Theorem failed_stage_reports_code_and_start_of_stderr
    (w : world) (taskId : string) (o : options) (st : pstate) (code : option Z) :
  code <> Some 0 ->
  (yt_end w = close code ->
   last (events_since (the_bus st) (the_bus (snd (processVideo w taskId o st))))
   = Some (error_event
             ("Download gagal (code " +:+ show_code code +:+ "): "
              +:+ substring_0 200 (stderr_text (yt_output w)))))
  /\ (In trimming_event
         (events_since (the_bus st) (the_bus (snd (processVideo w taskId o st)))) ->
      ff_end w = close code ->
      last (events_since (the_bus st) (the_bus (snd (processVideo w taskId o st))))
      = Some (error_event ("ffmpeg exited with code " +:+ show_code code)))
  /\ (String.length (substring_0 200 (stderr_text (yt_output w))) <= 200)%nat
  /\ String.prefix (substring_0 200 (stderr_text (yt_output w)))
       (stderr_text (yt_output w)) = true.
Proof.
  intros Hcode. rewrite events_of_run.
  split; [|split; [|split; [apply substring_0_length|apply substring_0_prefix]]].
  - intros Hend. unfold run_view.
    pose proof (yt_view_errorOutput (yt_output w)
                  {| lastProgress := 5; errorOutput := EmptyString |}) as Herr.
    destruct (yt_view (yt_output w) _) as [reports v]. cbn [snd errorOutput] in Herr.
    rewrite Hend, end_error_close by exact Hcode.
    cbn [run_events]. rewrite last_snoc. now rewrite Herr.
  - intros Hin Hend. unfold run_view in *.
    pose proof (yt_view_downloading (yt_output w)
                  {| lastProgress := 5; errorOutput := EmptyString |}) as Hdl.
    destruct (yt_view (yt_output w) _) as [reports v]. cbn [fst] in Hdl.
    destruct (end_error _ (yt_end w)) as [msg|].
    { cbn [run_events] in Hin. exfalso.
      apply (trimming_not_before reports [] msg Hdl); [constructor|exact Hin]. }
    destruct (readdir_error (faults_after_download w)) as [msg|].
    { cbn [run_events] in Hin. exfalso. rewrite <- app_assoc in Hin.
      apply (trimming_not_before reports [downloaded_event] msg Hdl);
        [repeat constructor|exact Hin]. }
    destruct (negb _).
    { cbn [run_events] in Hin. exfalso. rewrite <- app_assoc in Hin.
      apply (trimming_not_before reports [downloaded_event]
               "File download tidak ditemukan" Hdl);
        [repeat constructor|exact Hin]. }
    rewrite Hend, end_error_close by exact Hcode.
    cbn [run_events]. now rewrite last_snoc.
Qed.

(** The theorem at work: the downloader exits with code 1 after writing
    [ERROR: Video unavailable]. *)
Lemma failed_download_reports_code_1 :
  last (events_since (the_bus initial_state)
          (the_bus (snd (processVideo world_download_fails example_task
                           example_options initial_state))))
  = Some (error_event "Download gagal (code 1): ERROR: Video unavailable").
Proof.
  apply (proj1 (failed_stage_reports_code_and_start_of_stderr
                  world_download_fails example_task example_options
                  initial_state (Some 1) ltac:(discriminate))).
  reflexivity.
Defined.

(** C5, as the claim has it, fails.  The downloader writes four warnings and
    then its error, and exits with code 1: the message of the task carries
    the code and the start of that text and not its end.  The cutter writes
    [Conversion failed!] and exits with code 1: the message carries the code
    and nothing of the text. *)
Lemma error_message_misses_the_end_of_stderr :
  (last_chars 24 (stderr_text (yt_output world_download_fails_late))
   = "ERROR: Video unavailable"
   /\ option_map
        (fun e =>
           match ev_message e with
           | Some (text m) =>
               (startsWith m "Error: Download gagal (code 1): WARNING: unable",
                includes m "Video unavailable")
           | _ => (false, false)
           end)
        (last (events_since (the_bus initial_state)
                 (the_bus (snd (processVideo world_download_fails_late
                                  example_task example_options initial_state)))))
      = Some (true, false))
  /\ option_map ev_message
       (last (events_since (the_bus initial_state)
                (the_bus (snd (processVideo world_cut_fails example_task
                                 example_options initial_state)))))
     = Some (Some (text "Error: ffmpeg exited with code 1")).
Proof. repeat split; vm_compute; reflexivity. Qed.

(** *** The trimming state *)

Lemma ff_view_cutting (chunks : list chunk) :
  Forall (fun e => e = cutting_event) (ff_view chunks).
Proof.
  induction chunks as [|c rest IH]; [constructor|].
  unfold ff_view. cbn [flat_map]. fold (ff_view rest).
  destruct c as [output|output]; [exact IH|].
  destruct (includes output "time="); [constructor; [reflexivity|exact IH]|exact IH].
Qed.

Lemma ff_on_data_events (taskId : string) (c : chunk) (st : pstate) :
  events_since (the_bus st) (the_bus (snd (ff_on_data taskId c st)))
  = match c with
    | stderr output => if includes output "time=" then [cutting_event] else []
    | stdout _ => []
    end.
Proof.
  pose proof (ff_data_view taskId [c] st) as H. cbn [forEach] in H.
  unfold bind in H. destruct (ff_on_data taskId c st) as [[[]|e] st'].
  - cbn [ret] in H. injection H as ->. cbn [snd the_bus].
    rewrite events_since_publish_all. unfold ff_view. cbn [flat_map].
    rewrite app_nil_r. reflexivity.
  - discriminate H.
Qed.

Lemma reports_not_95 (chunks : list chunk) :
  Forall (fun e => (ev_progress e =? 95)%float = false)
    (fst (yt_view chunks {| lastProgress := 5; errorOutput := EmptyString |})).
Proof.
  destruct (yt_view_ascending chunks
              {| lastProgress := 5; errorOutput := EmptyString |} five_between)
    as (ns & Hmap & _ & Hrange).
  revert ns Hmap Hrange.
  induction (fst (yt_view chunks _)) as [|e evs IH]; intros ns Hmap Hrange;
    [constructor|].
  destruct ns as [|n ns]; [discriminate Hmap|].
  injection Hmap as He Hmap. inversion Hrange as [|? ? Hn Hrange']; subst.
  constructor; [|now apply (IH ns)].
  rewrite He. apply NumberFacts.Z2F_not_95. lia.
Qed.

(** What every event of a run is. *)
Lemma run_events_kinds (w : world) (taskId : string) (o : options) :
  Forall
    (fun e =>
       ((ev_status e = downloading \/ e = trimming_event \/ e = cutting_event
         \/ e = cleaning_event \/ e = complete_event (filename o)
         \/ exists msg, e = error_event msg)
        /\ (ev_progress e =? 95)%float = false))
    (run_events (run_view w taskId o)).
Proof.
  unfold run_view.
  pose proof (yt_view_downloading (yt_output w)
                {| lastProgress := 5; errorOutput := EmptyString |}) as Hdl.
  pose proof (reports_not_95 (yt_output w)) as H95.
  destruct (yt_view (yt_output w) _) as [reports v]. cbn [fst] in Hdl, H95.
  assert (Hreports :
    Forall
      (fun e =>
         ((ev_status e = downloading \/ e = trimming_event \/ e = cutting_event
           \/ e = cleaning_event \/ e = complete_event (filename o)
           \/ exists msg, e = error_event msg)
          /\ (ev_progress e =? 95)%float = false))
      (started_event :: reports)).
  { constructor; [split; [now left|reflexivity]|].
    rewrite List.Forall_forall in Hdl, H95 |- *. intros e He.
    split; [left; now apply Hdl|now apply H95]. }
  assert (Hff :
    Forall
      (fun e =>
         ((ev_status e = downloading \/ e = trimming_event \/ e = cutting_event
           \/ e = cleaning_event \/ e = complete_event (filename o)
           \/ exists msg, e = error_event msg)
          /\ (ev_progress e =? 95)%float = false))
      (trimming_event :: ff_view (ff_output w))).
  { constructor; [split; [right; now left|reflexivity]|].
    eapply List.Forall_impl; [|apply ff_view_cutting].
    intros e ->. split; [right; right; now left|reflexivity]. }
  assert (Herr : forall msg,
    ((ev_status (error_event msg) = downloading \/ error_event msg = trimming_event
      \/ error_event msg = cutting_event \/ error_event msg = cleaning_event
      \/ error_event msg = complete_event (filename o)
      \/ exists msg', error_event msg = error_event msg')
     /\ (ev_progress (error_event msg) =? 95)%float = false)).
  { intros msg. split; [|reflexivity]. do 5 right. now exists msg. }
  destruct (end_error _ (yt_end w)) as [msg|]; cbn [run_events].
  { apply List.Forall_app. split; [exact Hreports|]. constructor; [apply Herr|constructor]. }
  destruct (readdir_error (faults_after_download w)) as [readdir_message|]; cbn [run_events].
  { rewrite !List.Forall_app. repeat split; [exact Hreports| |].
    - constructor; [split; [now left|reflexivity]|constructor].
    - constructor; [apply Herr|constructor]. }
  destruct (negb _); cbn [run_events].
  { rewrite !List.Forall_app. repeat split; [exact Hreports| |].
    - constructor; [split; [now left|reflexivity]|constructor].
    - constructor; [apply Herr|constructor]. }
  destruct (end_error _ (ff_end w)) as [msg|]; cbn [run_events].
  { rewrite !List.Forall_app. repeat split; [exact Hreports| |exact Hff|].
    - constructor; [split; [now left|reflexivity]|constructor].
    - constructor; [apply Herr|constructor]. }
  destruct (bool_decide _); cbn [run_events].
  - rewrite !List.Forall_app. repeat split; [exact Hreports| |exact Hff| |].
    + constructor; [split; [now left|reflexivity]|constructor].
    + constructor; [split; [do 3 right; now left|reflexivity]|constructor].
    + constructor; [split; [do 4 right; now left|reflexivity]|constructor].
  - rewrite !List.Forall_app. repeat split; [exact Hreports| |exact Hff| |].
    + constructor; [split; [now left|reflexivity]|constructor].
    + constructor; [split; [do 3 right; now left|reflexivity]|constructor].
    + constructor; [apply Herr|constructor].
Qed.

(** A run that opened the cut: the events before it are those of the
    download, then come the event that opens the cut and one event for each
    chunk of the cutter that shows activity, and the end depends on how the
    cutter ended and on the presence of the final file after the clean-up. *)
Lemma run_from_trimming (w : world) (taskId : string) (o : options) :
  In trimming_event (run_events (run_view w taskId o)) ->
  exists before after : list event,
    run_events (run_view w taskId o)
    = before ++ trimming_event :: ff_view (ff_output w) ++ after
    /\ Forall (fun e => ev_status e = downloading) before
    /\ match end_error (fun code => "ffmpeg exited with code " +:+ code) (ff_end w) with
       | Some msg =>
           after = [error_event msg]
           /\ run_disk (run_view w taskId o)
              = swept (faults_after_cut w) (removed_on_error taskId o)
                  (disk_after_cut w)
       | None =>
           if bool_decide
                (finalFile o
                 ∈ swept (faults_after_cut w) (removed_on_success taskId o)
                     (disk_after_cut w))
           then
             after = [cleaning_event; complete_event (filename o)]
             /\ run_disk (run_view w taskId o)
                = swept (faults_after_cut w) (removed_on_success taskId o)
                    (disk_after_cut w)
           else
             after = [cleaning_event; error_event "File hasil trim tidak ditemukan"]
             /\ run_disk (run_view w taskId o)
                = swept (faults_after_cut w) (removed_on_error taskId o)
                    (swept (faults_after_cut w) (removed_on_success taskId o)
                       (disk_after_cut w))
       end.
Proof.
  intros Hin. unfold run_view in *.
  pose proof (yt_view_downloading (yt_output w)
                {| lastProgress := 5; errorOutput := EmptyString |}) as Hdl.
  destruct (yt_view (yt_output w) _) as [reports v]. cbn [fst] in Hdl.
  destruct (end_error _ (yt_end w)) as [msg|].
  { cbn [run_events] in Hin. exfalso.
    apply (trimming_not_before reports [] msg Hdl); [constructor|exact Hin]. }
  destruct (readdir_error (faults_after_download w)) as [readdir_message|].
  { cbn [run_events] in Hin. exfalso. rewrite <- app_assoc in Hin.
    apply (trimming_not_before reports [downloaded_event]
             readdir_message Hdl);
      [repeat constructor|exact Hin]. }
  destruct (negb _).
  { cbn [run_events] in Hin. exfalso. rewrite <- app_assoc in Hin.
    apply (trimming_not_before reports [downloaded_event]
             "File download tidak ditemukan" Hdl);
      [repeat constructor|exact Hin]. }
  exists ((started_event :: reports) ++ [downloaded_event]).
  assert (Hbefore : Forall (fun e => ev_status e = downloading)
                      ((started_event :: reports) ++ [downloaded_event])).
  { apply List.Forall_app. split; [constructor; [reflexivity|exact Hdl]|].
    repeat constructor. }
  destruct (end_error _ (ff_end w)) as [msg|].
  { exists [error_event msg]. cbn [run_events run_disk].
    split; [|split; [exact Hbefore|now split]].
    now rewrite <- !app_assoc. }
  destruct (bool_decide _).
  - exists [cleaning_event; complete_event (filename o)]. cbn [run_events run_disk].
    split; [|split; [exact Hbefore|now split]].
    now rewrite <- !app_assoc.
  - exists [cleaning_event; error_event "File hasil trim tidak ditemukan"].
    cbn [run_events run_disk].
    split; [|split; [exact Hbefore|now split]].
    now rewrite <- !app_assoc.
Qed.

(** C6, as the code has it: an event of the [trimming] state reports 70,
    the one that opens the cut, or 85, sent for each chunk of the standard
    error of the cutter that contains [time=]; when the cutter exits with
    code 0 the next event is [cleaning] at 96.  No event of a task reports
    95. *)
Theorem trimming_reports_70_then_85_then_cleaning_96
    (w : world) (taskId : string) (o : options) (st : pstate) :
  (ev_progress trimming_event, ev_progress cutting_event,
   ev_status cleaning_event, ev_progress cleaning_event)
  = (70%float, 85%float, cleaning, 96%float)
  /\ Forall
       (fun e =>
          (ev_status e = trimming -> e = trimming_event \/ e = cutting_event)
          /\ (ev_progress e =? 95)%float = false)
       (events_since (the_bus st) (the_bus (snd (processVideo w taskId o st))))
  /\ (forall (c : chunk) (st' : pstate),
        events_since (the_bus st') (the_bus (snd (ff_on_data taskId c st')))
        = match c with
          | stderr output =>
              if includes output "time=" then [cutting_event] else []
          | stdout _ => []
          end)
  /\ (In trimming_event
         (events_since (the_bus st) (the_bus (snd (processVideo w taskId o st)))) ->
      ff_end w = close (Some 0) ->
      exists before cuts after : list event,
        events_since (the_bus st) (the_bus (snd (processVideo w taskId o st)))
        = before ++ trimming_event :: cuts ++ cleaning_event :: after
        /\ Forall (fun e => ev_status e = downloading) before
        /\ Forall (fun e => e = cutting_event) cuts).
Proof.
  rewrite events_of_run.
  split; [reflexivity|]. split; [|split; [apply ff_on_data_events|]].
  - eapply List.Forall_impl; [|apply run_events_kinds].
    intros e [Hkind H95]. split; [|exact H95]. intros Hs.
    destruct Hkind as [H|[H|[H|[H|[H|[msg H]]]]]];
      try (now left); try (now right); rewrite ?H in Hs; discriminate Hs.
  - intros Hin Hend.
    destruct (run_from_trimming w taskId o Hin) as (before & after & Hev & Hb & Hafter).
    rewrite Hend in Hafter. cbn [end_error] in Hafter.
    exists before, (ff_view (ff_output w)).
    destruct (bool_decide _); destruct Hafter as [-> _];
      eexists; (split; [exact Hev|]); (split; [exact Hb|apply ff_view_cutting]).
Qed.

(** The theorem at work: in the run where everything goes well, the events
    of the cut are followed by the [cleaning] event. *)
Lemma good_cut_is_followed_by_cleaning :
  exists before cuts after : list event,
    events_since (the_bus initial_state)
      (the_bus (snd (processVideo world_success example_task example_options
                       initial_state)))
    = before ++ trimming_event :: cuts ++ cleaning_event :: after
    /\ Forall (fun e => ev_status e = downloading) before
    /\ Forall (fun e => e = cutting_event) cuts.
Proof.
  apply (proj2 (proj2 (proj2 (trimming_reports_70_then_85_then_cleaning_96
                                world_success example_task example_options
                                initial_state)))).
  - vm_compute. tauto.
  - reflexivity.
Defined.

(** C6, as the claim has it, fails: in a run where everything goes well the
    task reports 70 and 85 while trimming, then 96 as [cleaning] and 100 as
    [complete]; it never reports 95. *)
Lemma cut_success_reports_96_not_95 :
  map (fun e => (ev_status e, ev_progress e))
    (events_since (the_bus initial_state)
       (the_bus (snd (processVideo world_success example_task example_options
                        initial_state))))
  = [(downloading, 5%float); (downloading, 6%float); (downloading, 6%float);
     (downloading, 35%float); (downloading, 65%float); (downloading, 65%float);
     (trimming, 70%float); (trimming, 85%float);
     (cleaning, 96%float); (complete, 100%float)]
  /\ existsb (fun e => (ev_progress e =? 95)%float)
       (events_since (the_bus initial_state)
          (the_bus (snd (processVideo world_success example_task example_options
                           initial_state))))
     = false.
Proof. split; vm_compute; reflexivity. Qed.

(** *** The end of a task and its clean-up *)

Lemma last_after_cut (before cuts : list event) (e x : event) :
  last (before ++ e :: cuts ++ [x]) = Some x.
Proof.
  replace (before ++ e :: cuts ++ [x]) with ((before ++ e :: cuts) ++ [x])
    by (now rewrite <- app_assoc).
  apply last_snoc.
Qed.

(** An event that is neither of the download nor of the cut comes after
    them. *)
Lemma in_run_after (e : event) (before after : list event) (chunks : list chunk) :
  In e (before ++ trimming_event :: ff_view chunks ++ after) ->
  Forall (fun x => ev_status x = downloading) before ->
  ev_status e <> downloading -> ev_status e <> trimming ->
  In e after.
Proof.
  intros Hin Hb Hd Ht. rewrite in_app_iff in Hin. cbn [In] in Hin.
  rewrite in_app_iff in Hin.
  destruct Hin as [Hin|[Hin|[Hin|Hin]]]; [| | |exact Hin]; exfalso.
  - rewrite List.Forall_forall in Hb. now apply Hd, Hb.
  - subst e. now apply Ht.
  - pose proof (ff_view_cutting chunks) as Hc.
    rewrite List.Forall_forall in Hc. specialize (Hc _ Hin). subst e. now apply Ht.
Qed.

(** An event past the download is sent only in a run that opened the cut. *)
Lemma late_status_reached_trimming
    (w : world) (taskId : string) (o : options) (e : event) :
  In e (run_events (run_view w taskId o)) ->
  ev_status e <> downloading -> ev_status e <> error ->
  In trimming_event (run_events (run_view w taskId o)).
Proof.
  intros Hin Hd He. unfold run_view in *.
  pose proof (yt_view_downloading (yt_output w)
                {| lastProgress := 5; errorOutput := EmptyString |}) as Hdl.
  destruct (yt_view (yt_output w) _) as [reports v]. cbn [fst] in Hdl.
  rewrite List.Forall_forall in Hdl.
  destruct (end_error _ (yt_end w)) as [msg|].
  { exfalso. cbn [run_events] in Hin. apply in_app_or in Hin.
    destruct Hin as [[<-|Hin]|[<-|[]]];
      [now apply Hd|now apply Hd, Hdl|now apply He]. }
  destruct (readdir_error (faults_after_download w)) as [readdir_message|].
  { exfalso. cbn [run_events] in Hin. apply in_app_or in Hin.
    destruct Hin as [Hin|[<-|[]]]; [|now apply He].
    apply in_app_or in Hin.
    destruct Hin as [[<-|Hin]|[<-|[]]];
      [now apply Hd|now apply Hd, Hdl|now apply Hd]. }
  destruct (negb _).
  { exfalso. cbn [run_events] in Hin. apply in_app_or in Hin.
    destruct Hin as [Hin|[<-|[]]]; [|now apply He].
    apply in_app_or in Hin.
    destruct Hin as [[<-|Hin]|[<-|[]]];
      [now apply Hd|now apply Hd, Hdl|now apply Hd]. }
  destruct (end_error _ (ff_end w)) as [msg|];
    [|destruct (bool_decide _)]; cbn [run_events];
    rewrite !in_app_iff; cbn [In]; tauto.
Qed.

(** What a clean-up leaves: every name when the directory cannot be
    read, and otherwise the names it does not select and those whose
    unlinking fails. *)
Lemma in_swept (failing : faults) (selected : string -> bool)
    (names : list string) (f : string) :
  In f (swept failing selected names)
  <-> In f names
      /\ (readdir_error failing <> None
          \/ selected f = false
          \/ unlink_error failing f <> None).
Proof.
  unfold swept, unlinkable. destruct (readdir_error failing) as [message|].
  - split; [intros H; split; [exact H|now left]|tauto].
  - rewrite filter_In, negb_true_iff, andb_false_iff.
    destruct (unlink_error failing f) as [message|].
    + split; [intros [H _]; split; [exact H|]; right; right; discriminate|].
      intros [H _]. split; [exact H|now right].
    + split; [intros [H [Hs|Hu]]; [split; [exact H|]; right; now left|discriminate Hu]|].
      intros [H [Hr|[Hs|Hu]]]; [now destruct Hr| |now destruct Hu].
      split; [exact H|now left].
Qed.

Lemma final_file_survives_success_cleanup
    (failing : faults) (taskId : string) (o : options) (names : list string) :
  finalFile o ∈ swept failing (removed_on_success taskId o) names
  <-> In (finalFile o) names.
Proof.
  rewrite list_elem_of_In, in_swept. unfold removed_on_success.
  rewrite String.eqb_refl, andb_false_r. tauto.
Qed.

(** The names the clean-up of the [catch] block leaves: all of them when
    the directory cannot be read; otherwise those that do not contain the
    identifier of the task and do not start with the name of its
    temporary file, and those whose unlinking fails. *)
Lemma cleanup_error_leaves (taskId : string) (o : options) (st : pstate) (f : string) :
  In f (disk (snd (cleanup_error taskId o st)))
  <-> In f (disk st)
      /\ (readdir_error (fs_faults st) <> None
          \/ (includes f taskId = false
              /\ startsWith f (basename (tempFile o) ".mp4") = false)
          \/ unlink_error (fs_faults st) f <> None).
Proof.
  rewrite cleanup_error_view. cbn [snd disk]. rewrite in_swept.
  unfold removed_on_error. rewrite orb_false_iff. tauto.
Qed.

(** The names the clean-up after a successful cut leaves: all of them
    when the directory cannot be read; otherwise the final file, the
    names that start neither with the name of the temporary file without
    its extension nor with [temp_] and the second part of the identifier,
    and those whose unlinking fails. *)
Lemma cleanup_success_leaves (taskId : string) (o : options) (st : pstate) (f : string) :
  In f (disk (snd (cleanup_success taskId o st)))
  <-> In f (disk st)
      /\ (readdir_error (fs_faults st) <> None
          \/ ((startsWith f (basename (tempFile o) (extname (tempFile o))) = false
               /\ startsWith f (temp_prefix_of taskId) = false)
              \/ f = finalFile o)
          \/ unlink_error (fs_faults st) f <> None).
Proof.
  rewrite cleanup_success_view. cbn [snd disk]. rewrite in_swept.
  unfold removed_on_success.
  rewrite andb_false_iff, orb_false_iff, negb_false_iff.
  rewrite String.eqb_eq. tauto.
Qed.

(** A clean-up does not throw, and it touches the directory only. *)
Lemma cleanups_only_unlink (taskId : string) (o : options) (st : pstate) :
  (fst (cleanup_error taskId o st) = returned tt
   /\ the_bus (snd (cleanup_error taskId o st)) = the_bus st
   /\ fs_faults (snd (cleanup_error taskId o st)) = fs_faults st
   /\ spawned (snd (cleanup_error taskId o st)) = spawned st)
  /\ (fst (cleanup_success taskId o st) = returned tt
      /\ the_bus (snd (cleanup_success taskId o st)) = the_bus st
      /\ fs_faults (snd (cleanup_success taskId o st)) = fs_faults st
      /\ spawned (snd (cleanup_success taskId o st)) = spawned st).
Proof. rewrite cleanup_error_view, cleanup_success_view. now repeat split. Qed.

(** C8, as the code has it: when the cutter exits with a code other than 0
    the task ends with the [error] event, and the clean-up of the [catch]
    block has gone over the working directory.  It selects a file by its
    name: the name contains the identifier of the task or starts with the
    name of its temporary file.  A selected file is unlinked, and when
    unlinking throws the error is caught and the file stays; when the
    directory cannot be read nothing is removed.  So the names left are
    those that are not selected and those that could not be removed.  The
    same holds of the clean-up after a successful cut, which selects the
    names that start with the name of the temporary file without its
    extension or with [temp_] and the second part of the identifier, the
    final file apart.  Neither clean-up throws or touches anything but
    the directory. *)
Theorem failed_cut_ends_in_error_and_sweeps_by_name
    (w : world) (taskId : string) (o : options) (st : pstate) (code : option Z) :
  code <> Some 0 ->
  (In trimming_event
     (events_since (the_bus st) (the_bus (snd (processVideo w taskId o st)))) ->
   ff_end w = close code ->
   option_map ev_status
     (last (events_since (the_bus st) (the_bus (snd (processVideo w taskId o st)))))
   = Some error
   /\ forall f : string,
        In f (disk (snd (processVideo w taskId o st)))
        <-> In f (disk_after_cut w)
            /\ (readdir_error (faults_after_cut w) <> None
                \/ (includes f taskId = false
                    /\ startsWith f (basename (tempFile o) ".mp4") = false)
                \/ unlink_error (faults_after_cut w) f <> None))
  /\ (forall (st' : pstate) (f : string),
        In f (disk (snd (cleanup_error taskId o st')))
        <-> In f (disk st')
            /\ (readdir_error (fs_faults st') <> None
                \/ (includes f taskId = false
                    /\ startsWith f (basename (tempFile o) ".mp4") = false)
                \/ unlink_error (fs_faults st') f <> None))
  /\ (forall (st' : pstate) (f : string),
        In f (disk (snd (cleanup_success taskId o st')))
        <-> In f (disk st')
            /\ (readdir_error (fs_faults st') <> None
                \/ ((startsWith f (basename (tempFile o) (extname (tempFile o)))
                     = false
                     /\ startsWith f (temp_prefix_of taskId) = false)
                    \/ f = finalFile o)
                \/ unlink_error (fs_faults st') f <> None))
  /\ (forall st' : pstate,
        (fst (cleanup_error taskId o st') = returned tt
         /\ the_bus (snd (cleanup_error taskId o st')) = the_bus st'
         /\ fs_faults (snd (cleanup_error taskId o st')) = fs_faults st'
         /\ spawned (snd (cleanup_error taskId o st')) = spawned st')
        /\ (fst (cleanup_success taskId o st') = returned tt
            /\ the_bus (snd (cleanup_success taskId o st')) = the_bus st'
            /\ fs_faults (snd (cleanup_success taskId o st')) = fs_faults st'
            /\ spawned (snd (cleanup_success taskId o st')) = spawned st')).
Proof.
  intros Hcode.
  split; [|split; [apply cleanup_error_leaves
                  |split; [apply cleanup_success_leaves|apply cleanups_only_unlink]]].
  rewrite events_of_run, disk_of_run. intros Hin Hend.
  destruct (run_from_trimming w taskId o Hin) as (before & after & Hev & _ & Hafter).
  rewrite Hend, end_error_close in Hafter by exact Hcode.
  destruct Hafter as [-> Hdisk]. rewrite Hev, Hdisk. split.
  - now rewrite last_after_cut.
  - intros f. rewrite in_swept. unfold removed_on_error.
    rewrite orb_false_iff. tauto.
Qed.

(** The theorem at work: the cutter exits with code 1.  When nothing
    fails in the file system, the temporary file of the task goes, and
    the file of a task with another identifier and a file that is no
    artifact stay.  When the temporary file cannot be unlinked, it stays,
    and the task ends with the same [error] event. *)
Lemma failed_cut_keeps_the_names_of_others :
  (option_map ev_status
     (last (events_since (the_bus initial_state)
              (the_bus (snd (processVideo world_cut_fails example_task
                               example_options initial_state)))))
   = Some error
   /\ (In "temp_task_1700000000000_k3x9q2m1a.mp4"
         (disk (snd (processVideo world_cut_fails example_task example_options
                       initial_state))) -> False)
   /\ In "temp_task_1700000000001_zzzzzzzzz.mp4"
        (disk (snd (processVideo world_cut_fails example_task example_options
                      initial_state)))
   /\ In "notes.txt"
        (disk (snd (processVideo world_cut_fails example_task example_options
                      initial_state))))
  /\ (option_map ev_status
        (last (events_since (the_bus initial_state)
                 (the_bus (snd (processVideo world_cut_fails_locked example_task
                                  example_options initial_state)))))
      = Some error
      /\ In "temp_task_1700000000000_k3x9q2m1a.mp4"
           (disk (snd (processVideo world_cut_fails_locked example_task
                         example_options initial_state)))).
Proof.
  split.
  - destruct (proj1 (failed_cut_ends_in_error_and_sweeps_by_name
                       world_cut_fails example_task example_options initial_state
                       (Some 1) ltac:(discriminate)))
      as [Hlast Hdisk].
    + vm_compute. tauto.
    + reflexivity.
    + split; [exact Hlast|]. split; [|split].
      * intros H. apply Hdisk in H. destruct H as (_ & [H|[[H _]|H]]).
        -- now apply H.
        -- vm_compute in H. discriminate H.
        -- now apply H.
      * apply Hdisk. split; [vm_compute; tauto|]. right. left. now vm_compute.
      * apply Hdisk. split; [vm_compute; tauto|]. right. left. now vm_compute.
  - destruct (proj1 (failed_cut_ends_in_error_and_sweeps_by_name
                       world_cut_fails_locked example_task example_options
                       initial_state (Some 1) ltac:(discriminate)))
      as [Hlast Hdisk].
    + vm_compute. tauto.
    + reflexivity.
    + split; [exact Hlast|]. apply Hdisk. split; [vm_compute; tauto|].
      right. right. vm_compute. discriminate.
Defined.

(** C8, as the claim has it, fails: the identifier of the task is the start
    of the identifier of another task, and the temporary file of the other
    task, present when the cutter ends, is gone after the clean-up, when the
    cutter failed and when it succeeded. *)
Lemma cleanup_removes_the_file_of_another_task :
  (bool_decide (short_task = "task_1700000000000_i4x9q2m1a") = false
   /\ bool_decide
        ("temp_task_1700000000000_i4x9q2m1a.mp4" ∈ disk_after_cut world_cut_fails_beside)
      = true
   /\ bool_decide
        ("temp_task_1700000000000_i4x9q2m1a.mp4" ∈ disk_after_cut world_success_beside)
      = true)
  /\ (option_map ev_status
        (last (events_since (the_bus initial_state)
                 (the_bus (snd (processVideo world_cut_fails_beside short_task
                                  short_options initial_state)))))
      = Some error
      /\ disk (snd (processVideo world_cut_fails_beside short_task short_options
                      initial_state))
         = [])
  /\ (option_map ev_status
        (last (events_since (the_bus initial_state)
                 (the_bus (snd (processVideo world_success_beside short_task
                                  short_options initial_state)))))
      = Some complete
      /\ disk (snd (processVideo world_success_beside short_task short_options
                      initial_state))
         = ["clip.mp4"]).
Proof. repeat split; vm_compute; reflexivity. Qed.

(** C9: a task sends [complete], with progress 100, only when the final file
    was present in the working directory after the cut, and then it is the
    last event and the file is still there.  When the cut stage reported
    success (the [cleaning] event was sent) and the final file is absent,
    the task ends with the [error] event instead, and the clean-up of the
    [catch] block has run on what the first clean-up left: the directory
    is as the two clean-ups leave it, one after the other, so that a name
    with the identifier of the task is left only where it could not be
    removed. *)
Theorem complete_only_when_the_final_file_is_present
    (w : world) (taskId : string) (o : options) (st : pstate) :
  (forall e : event,
      In e (events_since (the_bus st) (the_bus (snd (processVideo w taskId o st)))) ->
      ev_status e = complete ->
      In (finalFile o) (disk_after_cut w)
      /\ In (finalFile o) (disk (snd (processVideo w taskId o st)))
      /\ ev_progress e = 100%float
      /\ last (events_since (the_bus st) (the_bus (snd (processVideo w taskId o st))))
         = Some e)
  /\ (In cleaning_event
         (events_since (the_bus st) (the_bus (snd (processVideo w taskId o st)))) ->
      ~ In (finalFile o) (disk_after_cut w) ->
      last (events_since (the_bus st) (the_bus (snd (processVideo w taskId o st))))
      = Some (error_event "File hasil trim tidak ditemukan")
      /\ (forall after_cut : pstate,
            disk after_cut = disk_after_cut w ->
            fs_faults after_cut = faults_after_cut w ->
            disk (snd (processVideo w taskId o st))
            = disk (snd (cleanup_error taskId o
                           (snd (cleanup_success taskId o after_cut)))))
      /\ forall f : string,
           In f (disk (snd (processVideo w taskId o st))) ->
           includes f taskId = true ->
           readdir_error (faults_after_cut w) <> None
           \/ unlink_error (faults_after_cut w) f <> None).
Proof.
  rewrite events_of_run, disk_of_run. split.
  - intros e Hin Hs.
    assert (Ht : In trimming_event (run_events (run_view w taskId o))).
    { apply (late_status_reached_trimming w taskId o e Hin); rewrite Hs; discriminate. }
    destruct (run_from_trimming w taskId o Ht) as (before & after & Hev & Hb & Hafter).
    rewrite Hev in Hin |- *.
    apply in_run_after in Hin; [|exact Hb|rewrite Hs; discriminate..].
    destruct (end_error _ (ff_end w)) as [msg|].
    { destruct Hafter as [-> _]. destruct Hin as [<-|[]]. discriminate Hs. }
    destruct (bool_decide _) eqn:Hfinal; destruct Hafter as [-> Hdisk].
    + destruct Hin as [<-|[<-|[]]]; [discriminate Hs|].
      apply bool_decide_eq_true in Hfinal. rewrite Hdisk.
      split; [now apply final_file_survives_success_cleanup in Hfinal|].
      split; [now apply list_elem_of_In|]. split; [reflexivity|].
      change (trimming_event :: ff_view (ff_output w) ++ [cleaning_event; complete_event (filename o)])
        with (trimming_event
              :: ff_view (ff_output w) ++ ([cleaning_event] ++ [complete_event (filename o)])).
      rewrite (app_assoc (ff_view (ff_output w))). apply last_after_cut.
    + destruct Hin as [<-|[<-|[]]]; discriminate Hs.
  - intros Hin Hmissing.
    assert (Ht : In trimming_event (run_events (run_view w taskId o))).
    { apply (late_status_reached_trimming w taskId o _ Hin); discriminate. }
    destruct (run_from_trimming w taskId o Ht) as (before & after & Hev & Hb & Hafter).
    rewrite Hev in Hin |- *.
    apply in_run_after in Hin; [|exact Hb|discriminate..].
    destruct (end_error _ (ff_end w)) as [msg|].
    { destruct Hafter as [-> _]. destruct Hin as [Hin|[]]. discriminate Hin. }
    destruct (bool_decide _) eqn:Hfinal; destruct Hafter as [-> Hdisk].
    + exfalso. apply Hmissing. apply bool_decide_eq_true in Hfinal.
      now apply final_file_survives_success_cleanup in Hfinal.
    + split; [|split].
      * change (trimming_event
                :: ff_view (ff_output w)
                   ++ [cleaning_event; error_event "File hasil trim tidak ditemukan"])
          with (trimming_event
                :: ff_view (ff_output w)
                   ++ ([cleaning_event]
                       ++ [error_event "File hasil trim tidak ditemukan"])).
        rewrite (app_assoc (ff_view (ff_output w))). apply last_after_cut.
      * intros after_cut Hnames Hfaults.
        rewrite cleanup_success_view, cleanup_error_view.
        cbn [snd disk fs_faults]. now rewrite Hdisk, Hnames, Hfaults.
      * intros f Hf Hid. rewrite Hdisk in Hf. apply in_swept in Hf as [_ Hf].
        unfold removed_on_error in Hf. rewrite Hid in Hf. cbn [orb] in Hf.
        destruct Hf as [Hf|[Hf|Hf]]; [now left|discriminate Hf|now right].
Qed.

(** The theorem at work: with the final file the task completes; without it
    the task ends with the error and its temporary file is removed. *)
Lemma final_file_decides_the_end :
  (In "clip.mp4" (disk_after_cut world_success)
   /\ In "clip.mp4"
        (disk (snd (processVideo world_success example_task example_options
                      initial_state)))
   /\ ev_progress (complete_event (filename example_options)) = 100%float
   /\ last (events_since (the_bus initial_state)
              (the_bus (snd (processVideo world_success example_task
                               example_options initial_state))))
      = Some (complete_event (filename example_options)))
  /\ (last (events_since (the_bus initial_state)
              (the_bus (snd (processVideo world_final_missing example_task
                               example_options initial_state))))
      = Some (error_event "File hasil trim tidak ditemukan")
      /\ disk (snd (processVideo world_final_missing example_task example_options
                      initial_state))
         = ["notes.txt"]).
Proof.
  split.
  - apply (proj1 (complete_only_when_the_final_file_is_present
                    world_success example_task example_options initial_state)
             (complete_event (filename example_options))).
    + vm_compute. tauto.
    + reflexivity.
  - destruct (proj2 (complete_only_when_the_final_file_is_present
                       world_final_missing example_task example_options
                       initial_state))
      as (Hlast & Hdisk & _).
    + vm_compute. tauto.
    + vm_compute. intros [H|[H|[]]]; discriminate H.
    + split; [exact Hlast|].
      rewrite (Hdisk {| the_bus := empty_bus;
                        disk := disk_after_cut world_final_missing;
                        fs_faults := faults_after_cut world_final_missing;
                        spawned := [] |} eq_refl eq_refl).
      vm_compute. reflexivity.
Defined.

End ServerFacts.

(** * More properties *)

(** ** Strings *)
Module StringFacts.
Import JS.

Lemma app_cons (c : ascii) (a b : string) :
  String c a +:+ b = String c (a +:+ b).
Proof. reflexivity. Qed.

Lemma length_app (a b : string) :
  String.length (a +:+ b) = (String.length a + String.length b)%nat.
Proof.
  induction a as [|c a IH]; [reflexivity|].
  rewrite app_cons. cbn. now f_equal.
Qed.

Lemma substring_0_all (s : string) : String.substring 0 (String.length s) s = s.
Proof. induction s as [|c s IH]; cbn; [reflexivity|now f_equal]. Qed.

Lemma substring_app_skip (a b : string) (n : nat) :
  String.substring (String.length a) n (a +:+ b) = String.substring 0 n b.
Proof. induction a as [|c a IH]; [reflexivity|]. rewrite app_cons. exact IH. Qed.

Lemma substring_app_keep (a b : string) :
  String.substring 0 (String.length a) (a +:+ b) = a.
Proof.
  induction a as [|c a IH]; [now destruct b|].
  rewrite app_cons. cbn. now f_equal.
Qed.

Lemma endsWith_app (a suf : string) : endsWith (a +:+ suf) suf = true.
Proof.
  unfold endsWith. rewrite length_app. apply andb_true_iff. split.
  - apply Nat.leb_le. lia.
  - replace (String.length a + String.length suf - String.length suf)%nat
      with (String.length a) by lia.
    rewrite substring_app_skip, substring_0_all. apply String.eqb_refl.
Qed.

Lemma prefix_app (p rest : string) : String.prefix p (p +:+ rest) = true.
Proof.
  induction p as [|c p IH]; [now destruct rest|].
  rewrite app_cons. cbn. destruct (ascii_dec c c); [exact IH|congruence].
Qed.

Lemma prefix_split (p s : string) :
  String.prefix p s = true -> exists rest, s = p +:+ rest.
Proof.
  revert s. induction p as [|c p IH]; intros s H.
  - now exists s.
  - destruct s as [|d s]; [discriminate H|]. cbn in H.
    destruct (ascii_dec c d) as [->|]; [|discriminate H].
    destruct (IH s H) as [rest ->]. now exists rest.
Qed.

Lemma includes_prefix (s sub : string) :
  String.prefix sub s = true -> includes s sub = true.
Proof. intros H. destruct s; cbn [includes]; now rewrite H. Qed.

Lemma includes_app_l (a s sub : string) :
  includes s sub = true -> includes (a +:+ s) sub = true.
Proof.
  intros H. induction a as [|c a IH]; [exact H|].
  rewrite app_cons. cbn [includes].
  now destruct (String.prefix sub (String c (a +:+ s))).
Qed.

(** A name that starts with [a] followed by [sub] contains [sub]. *)
Lemma startsWith_includes (f a sub : string) :
  startsWith f (a +:+ sub) = true -> includes f sub = true.
Proof.
  intros H. apply prefix_split in H as [rest ->].
  rewrite ServerFacts.string_app_assoc. apply includes_app_l, includes_prefix, prefix_app.
Qed.

End StringFacts.

(** ** The command-line robot, further *)
Module RobotMore.
Import JS Robot MoreExamples StringFacts.

Lemma is_nan_spec (x : float) : is_nan x = true <-> Prim2SF x = S754_nan.
Proof.
  unfold is_nan. rewrite FloatAxioms.eqb_spec. unfold SFeqb.
  destruct (Prim2SF x) as [s|s| |s m e]; cbn.
  - split; discriminate.
  - destruct s; split; discriminate.
  - tauto.
  - destruct s; rewrite Z.compare_refl, Pos.compare_cont_refl; split; discriminate.
Qed.

Lemma is_nan_add_l (a b : float) : is_nan a = true -> is_nan (a + b) = true.
Proof.
  rewrite !is_nan_spec, FloatAxioms.add_spec. intros ->. reflexivity.
Qed.

Lemma is_nan_add_r (a b : float) : is_nan b = true -> is_nan (a + b) = true.
Proof.
  rewrite !is_nan_spec, FloatAxioms.add_spec. intros ->.
  unfold SF64add, SFadd. now destruct (Prim2SF a).
Qed.

Lemma is_nan_sub_l (a b : float) : is_nan a = true -> is_nan (a - b) = true.
Proof.
  rewrite !is_nan_spec, FloatAxioms.sub_spec. intros ->. reflexivity.
Qed.

Lemma is_nan_sub_r (a b : float) : is_nan b = true -> is_nan (a - b) = true.
Proof.
  rewrite !is_nan_spec, FloatAxioms.sub_spec. intros ->.
  unfold SF64sub, SFsub. now destruct (Prim2SF a).
Qed.

Lemma is_nan_mul_r (a b : float) : is_nan b = true -> is_nan (a * b) = true.
Proof.
  rewrite !is_nan_spec, FloatAxioms.mul_spec. intros ->.
  unfold SF64mul, SFmul. now destruct (Prim2SF a).
Qed.

Lemma nan_leb (a b : float) : is_nan a = true -> (a <=? b)%float = false.
Proof.
  rewrite is_nan_spec, FloatAxioms.leb_spec. intros ->. reflexivity.
Qed.

Lemma loop_keeps_nan (popped : list string) (seconds multiplier : float) :
  is_nan seconds = true ->
  is_nan (timeToSeconds_loop popped seconds multiplier) = true.
Proof.
  revert seconds multiplier.
  induction popped as [|part rest IH]; intros seconds multiplier H; cbn.
  - exact H.
  - apply IH. now apply is_nan_add_l.
Qed.

Lemma loop_meets_nan (popped : list string) (seconds multiplier : float) :
  (exists part, In part popped /\ is_nan (parseInt part) = true) ->
  is_nan (timeToSeconds_loop popped seconds multiplier) = true.
Proof.
  revert seconds multiplier.
  induction popped as [|part rest IH]; intros seconds multiplier (p & Hin & Hp).
  - destruct Hin.
  - cbn. destruct Hin as [->|Hin].
    + apply loop_keeps_nan, is_nan_add_r, is_nan_mul_r, Hp.
    + apply IH. now exists p.
Qed.


Lemma timeToSeconds_unreadable (timeString : string) :
  timeString <> EmptyString ->
  (exists part, In part (split_colon timeString) /\ is_nan (parseInt part) = true) ->
  is_nan (timeToSeconds timeString) = true.
Proof.
  intros Hne (p & Hin & Hp). destruct timeString as [|c r]; [now destruct Hne|].
  unfold timeToSeconds. apply loop_meets_nan. exists p. split; [|exact Hp].
  now apply in_rev in Hin.
Qed.


Lemma output_name_mp4 (c : content) : endsWith (RobotRun.output_name c) ".mp4" = true.
Proof.
  unfold RobotRun.output_name.
  destruct (endsWith (js_text _) ".mp4") eqn:H; [exact H|apply endsWith_app].
Qed.

(** Past the check of the duration, [download] is what its view says. *)
Lemma download_view (w : world) (c : content) (startTime endTime : string) (st : state) :
  read_times c (print rule {| tty := typed w; executed := []; printed := [] |})
  = (startTime, endTime, st) ->
  (timeToSeconds endTime - timeToSeconds startTime <=? 0)%float = false ->
  download w c
  = {| tty := tty st;
       executed :=
         fst (RobotRun.commands_view w c startTime
                (timeToSeconds endTime - timeToSeconds startTime));
       printed :=
         printed st
         ++ log_final_data startTime endTime
              (timeToSeconds endTime - timeToSeconds startTime)
            :: snd (RobotRun.commands_view w c startTime
                      (timeToSeconds endTime - timeToSeconds startTime)) |}.
Proof.
  intros Hread Hd.
  pose proof (RobotFacts.read_times_executes_nothing c
                (print rule {| tty := typed w; executed := []; printed := [] |}))
    as Hex.
  rewrite Hread in Hex. cbn [snd print executed] in Hex.
  unfold download. rewrite Hread, Hd.
  unfold RobotRun.commands_view, RobotRun.get_video_url, RobotRun.get_audio_url.
  fold (RobotRun.output_name c).
  destruct st as [t ex pr]. cbn [executed] in Hex. subst ex.
  unfold execSync, print. cbn [tty executed printed].
  destruct (shell w (yt_dlp_get_url "bestvideo[height<=1080][ext=mp4]/bestvideo" _))
    as [out1|m1]; cbn [fst snd app].
  2:{ now rewrite <- app_assoc. }
  destruct (shell w (yt_dlp_get_url "bestaudio[ext=m4a]/bestaudio" _))
    as [out2|m2]; cbn [fst snd app].
  2:{ now rewrite <- app_assoc. }
  destruct (shell w (ffmpeg_cut _ _ _ _ _)) as [out3|m3]; cbn [fst snd app];
    now rewrite <- !app_assoc.
Qed.


Lemma read_times_prints (c : content) (st : state) :
  printed (snd (read_times c st))
  = printed st
    ++ (if js_not (js_or (c_startTime c) (c_start c)) then [warn_no_start] else [])
    ++ (if js_not (js_or (c_endTime c) (c_end c)) then [warn_no_end] else []).
Proof.
  unfold read_times, question, print.
  destruct (js_not (js_or (c_startTime c) (c_start c)));
    destruct (js_not (js_or (c_endTime c) (c_end c)));
    destruct st as [[|a1 [|a2 t]] ex pr]; cbn;
    rewrite <- ?app_assoc, ?app_nil_r; reflexivity.
Qed.

(** X1: a time with a segment in which [parseInt] finds no number makes
    [timeToSeconds] NaN, and the duration too.  The test [duration <= 0] is
    then false: [download] prints no error about the duration, launches
    the first [yt-dlp] command, and any [ffmpeg] command it launches is
    given NaN as its duration. *)
Theorem unreadable_time_passes_the_duration_check
    (w : world) (c : content) (startTime endTime : string) (st : state) :
  read_times c (print rule {| tty := typed w; executed := []; printed := [] |})
  = (startTime, endTime, st) ->
  (startTime <> EmptyString
   /\ exists part, In part (split_colon startTime) /\ is_nan (parseInt part) = true)
  \/ (endTime <> EmptyString
      /\ exists part, In part (split_colon endTime) /\ is_nan (parseInt part) = true) ->
  is_nan (timeToSeconds endTime - timeToSeconds startTime) = true
  /\ head (executed (download w c))
     = Some (yt_dlp_get_url "bestvideo[height<=1080][ext=mp4]/bestvideo" (c_url c))
  /\ (forall duration : float,
        In (error_invalid_duration duration) (printed (download w c)) -> False)
  /\ (forall (s v a : string) (d : float) (f : string),
        In (ffmpeg_cut s v a d f) (executed (download w c)) -> is_nan d = true).
Proof.
  intros Hread Hbad.
  assert (Hnan : is_nan (timeToSeconds endTime - timeToSeconds startTime) = true).
  { destruct Hbad as [[Hne Hp]|[Hne Hp]].
    - apply is_nan_sub_r. now apply timeToSeconds_unreadable.
    - apply is_nan_sub_l. now apply timeToSeconds_unreadable. }
  split; [exact Hnan|].
  rewrite (download_view w c startTime endTime st Hread (nan_leb _ 0 Hnan)).
  cbn [executed printed].
  pose proof (read_times_prints c
                (print rule {| tty := typed w; executed := []; printed := [] |}))
    as Hpr.
  rewrite Hread in Hpr. cbn [snd] in Hpr. rewrite Hpr. clear Hpr.
  unfold RobotRun.commands_view.
  destruct (shell w (RobotRun.get_video_url c)) as [out1|m1];
    [destruct (shell w (RobotRun.get_audio_url c)) as [out2|m2];
     [destruct (shell w (ffmpeg_cut _ _ _ _ _)) as [out3|m3]|]|];
    cbn [fst snd]; (split; [reflexivity|]); split.
  all: try (intros duration Hin; rewrite !in_app_iff in Hin;
            destruct (js_not (js_or (c_startTime c) (c_start c)));
            destruct (js_not (js_or (c_endTime c) (c_end c)));
            cbn in Hin; intuition discriminate).
  all: intros s v a d f Hin; cbn in Hin;
       unfold RobotRun.get_video_url, RobotRun.get_audio_url in Hin;
       intuition (try discriminate).
  all: match goal with H : ffmpeg_cut _ _ _ _ _ = _ |- _ => injection H as <- <- <- <- <- end;
       exact Hnan.
Qed.

(** The theorem at work: the start time 00:03: has an empty last segment;
    nothing is rejected and the first command runs. *)
Lemma a_time_ending_with_a_colon_is_not_rejected :
  is_nan (timeToSeconds "00:04:05" - timeToSeconds "00:03:") = true
  /\ head (executed (download Examples.quiet_world unfinished_content))
     = Some (yt_dlp_get_url "bestvideo[height<=1080][ext=mp4]/bestvideo"
               (c_url unfinished_content))
  /\ (forall duration : float,
        In (error_invalid_duration duration)
          (printed (download Examples.quiet_world unfinished_content)) -> False)
  /\ (forall (s v a : string) (d : float) (f : string),
        In (ffmpeg_cut s v a d f)
          (executed (download Examples.quiet_world unfinished_content)) ->
        is_nan d = true).
Proof.
  apply (unreadable_time_passes_the_duration_check Examples.quiet_world
           unfinished_content "00:03:" "00:04:05"
           {| tty := []; executed := []; printed := [rule] |}).
  - reflexivity.
  - left. split; [discriminate|]. exists EmptyString. split; [|reflexivity].
    vm_compute. tauto.
Defined.

(** X2: once the duration has passed its check, [download] executes, in
    this order, the [yt-dlp] command for the video address, the one for the
    audio address and the [ffmpeg] command, whose output name ends with
    [.mp4] and whose addresses are the trimmed outputs of the first two.
    It stops at the first command that fails: that command is the last
    one executed and its error is the last line printed.  The success line
    is printed only when all three commands ran without an error. *)
Theorem download_stops_at_the_first_failure
    (w : world) (c : content) (startTime endTime : string) (st : state) :
  read_times c (print rule {| tty := typed w; executed := []; printed := [] |})
  = (startTime, endTime, st) ->
  (timeToSeconds endTime - timeToSeconds startTime <=? 0)%float = false ->
  exists (videoUrl audioUrl fileName : string) (rest : list command),
    [yt_dlp_get_url "bestvideo[height<=1080][ext=mp4]/bestvideo" (c_url c);
     yt_dlp_get_url "bestaudio[ext=m4a]/bestaudio" (c_url c);
     ffmpeg_cut startTime videoUrl audioUrl
       (timeToSeconds endTime - timeToSeconds startTime) fileName]
    = executed (download w c) ++ rest
    /\ executed (download w c) <> []
    /\ endsWith fileName ".mp4" = true
    /\ (forall out1 out2 : string,
          shell w (yt_dlp_get_url "bestvideo[height<=1080][ext=mp4]/bestvideo"
                     (c_url c)) = inl out1 ->
          shell w (yt_dlp_get_url "bestaudio[ext=m4a]/bestaudio" (c_url c))
          = inl out2 ->
          videoUrl = trim out1 /\ audioUrl = trim out2 /\ rest = [])
    /\ (forall (cmd : command) (message : string),
          In cmd (executed (download w c)) -> shell w cmd = inr message ->
          last (executed (download w c)) = Some cmd
          /\ last (printed (download w c)) = Some (error_caught message))
    /\ ((forall cmd : command,
           In cmd (executed (download w c)) -> exists out, shell w cmd = inl out) ->
        rest = []
        /\ last (printed (download w c)) = Some (log_success fileName)).
Proof.
  intros Hread Hd.
  rewrite (download_view w c startTime endTime st Hread Hd).
  cbn [executed printed]. unfold RobotRun.commands_view.
  unfold RobotRun.get_video_url, RobotRun.get_audio_url.
  pose proof (output_name_mp4 c) as Hname.
  set (V := yt_dlp_get_url "bestvideo[height<=1080][ext=mp4]/bestvideo" (c_url c)).
  set (A := yt_dlp_get_url "bestaudio[ext=m4a]/bestaudio" (c_url c)).
  set (d := (timeToSeconds endTime - timeToSeconds startTime)%float).
  destruct (shell w V) as [out1|m1] eqn:HV.
  2:{ exists EmptyString, EmptyString, (RobotRun.output_name c). eexists.
      cbn [fst snd]. split; [reflexivity|]. split; [discriminate|].
      split; [exact Hname|]. split; [discriminate|]. split.
      - intros cmd message [<-|[]] Hc. rewrite HV in Hc. injection Hc as <-.
        split; [reflexivity|]. now rewrite last_app.
      - intros H. destruct (H V (or_introl eq_refl)) as [out Hout]. congruence. }
  destruct (shell w A) as [out2|m2] eqn:HA.
  2:{ exists (trim out1), EmptyString, (RobotRun.output_name c). eexists.
      cbn [fst snd]. split; [reflexivity|]. split; [discriminate|].
      split; [exact Hname|]. split; [discriminate|]. split.
      - intros cmd message [<-|[<-|[]]] Hc; [congruence|].
        rewrite HA in Hc. injection Hc as <-.
        split; [reflexivity|]. now rewrite last_app.
      - intros H. destruct (H A (or_intror (or_introl eq_refl))) as [out Hout].
        congruence. }
  exists (trim out1), (trim out2), (RobotRun.output_name c), [].
  cbn [fst snd]. split; [reflexivity|]. split; [discriminate|].
  split; [exact Hname|]. split.
  { intros o1 o2 H1 H2. injection H1 as <-. injection H2 as <-. now repeat split. }
  set (F := ffmpeg_cut startTime (trim out1) (trim out2) d (RobotRun.output_name c)).
  split.
  - intros cmd message [<-|[<-|[<-|[]]]] Hc; [congruence|congruence|].
    split; [reflexivity|]. rewrite Hc.
    rewrite last_app. reflexivity.
  - intros H. split; [reflexivity|].
    destruct (H F) as [out Hout]; [cbn; tauto|]. rewrite Hout.
    rewrite last_app. reflexivity.
Qed.


(** The theorem at work: the command for the audio address fails, and the
    cut is not run. *)
Lemma no_audio_address_no_cut :
  (timeToSeconds "00:04:05" - timeToSeconds "00:03:01" <=? 0)%float = false
  /\ executed (download world_no_audio good_content)
     = [yt_dlp_get_url "bestvideo[height<=1080][ext=mp4]/bestvideo"
          (c_url good_content);
        yt_dlp_get_url "bestaudio[ext=m4a]/bestaudio" (c_url good_content)]
  /\ last (printed (download world_no_audio good_content))
     = Some (error_caught "Command failed: yt-dlp").
Proof.
  split; [vm_compute; reflexivity|].
  destruct (download_stops_at_the_first_failure world_no_audio good_content
              "00:03:01" "00:04:05"
              {| tty := []; executed := []; printed := [rule] |})
    as (v & a & f & rest & Hcmds & _ & _ & _ & Hfail & _).
  - reflexivity.
  - vm_compute. reflexivity.
  - split; [reflexivity|].
    apply (Hfail (yt_dlp_get_url "bestaudio[ext=m4a]/bestaudio" (c_url good_content))).
    + vm_compute. tauto.
    + reflexivity.
Defined.

End RobotMore.

(** ** Clock times *)
Module ClockFacts.
Import JS Robot ClockTime.

Lemma small_is_Z2F (z : Z) : 0 <= z < 2 ^ 62 -> small z = Z2F z.
Proof.
  intros Hz. unfold small, Z2F. rewrite <- (SF2Prim_Prim2SF (of_uint63 _)).
  rewrite of_uint63_spec, Uint63.of_Z_spec. f_equal. f_equal.
  apply Z.mod_small. change Uint63.wB with (2 ^ 63). lia.
Qed.

Lemma in_count_up (fuel : nat) (from z : Z) :
  from <= z < from + Z.of_nat fuel -> In z (count_up fuel from).
Proof.
  revert from. induction fuel as [|fuel IH]; intros from H; [lia|].
  cbn [count_up]. destruct (Z.eq_dec from z) as [->|Hne]; [now left|].
  right. apply IH. lia.
Qed.

Lemma in_upto (n z : Z) : 0 <= z < n -> In z (upto n).
Proof. intros H. apply in_count_up. lia. Qed.

Lemma forallb_two (f : Z -> Z -> bool) (l1 l2 : list Z) :
  forallb (fun a => forallb (fun b => f a b) l2) l1 = true ->
  forall a b : Z, In a l1 -> In b l2 -> f a b = true.
Proof.
  intros H a b Ha Hb. rewrite forallb_forall in H. specialize (H a Ha).
  rewrite forallb_forall in H. exact (H b Hb).
Qed.

(** The sums are exact for all the values of the segments below 100. *)
Lemma seconds_table : forallb seconds_sum_exact (upto 100) = true.
Proof. vm_compute. reflexivity. Qed.

Lemma minutes_table :
  forallb (fun m => forallb (fun s => minutes_sum_exact m s) (upto 100)) (upto 100)
  = true.
Proof. vm_compute. reflexivity. Qed.

Lemma hours_table :
  forallb (fun h => forallb (fun x => hours_sum_exact h x) (upto 6040)) (upto 100)
  = true.
Proof. vm_compute. reflexivity. Qed.

Lemma clock_sums (h m s : Z) :
  0 <= h < 100 -> 0 <= m < 100 -> 0 <= s < 100 ->
  (0 + 1 * Z2F s)%float = Z2F s
  /\ (Z2F s + 1 * 60 * Z2F m)%float = Z2F (60 * m + s)
  /\ (Z2F (60 * m + s) + 1 * 60 * 60 * Z2F h)%float = Z2F (3600 * h + 60 * m + s).
Proof.
  intros Hh Hm Hs.
  assert (Hh' : In h (upto 100)) by (apply in_upto; lia).
  assert (Hm' : In m (upto 100)) by (apply in_upto; lia).
  assert (Hs' : In s (upto 100)) by (apply in_upto; lia).
  assert (Hx' : In (60 * m + s) (upto 6040)) by (apply in_upto; lia).
  pose proof (proj1 (forallb_forall seconds_sum_exact (upto 100))
                seconds_table s Hs') as HA.
  pose proof (forallb_two minutes_sum_exact (upto 100) (upto 100)
                minutes_table m s Hm' Hs') as HB.
  pose proof (forallb_two hours_sum_exact (upto 100) (upto 6040)
                hours_table h (60 * m + s) Hh' Hx') as HC.
  unfold seconds_sum_exact in HA. unfold minutes_sum_exact in HB.
  unfold hours_sum_exact in HC.
  apply Leibniz.eqb_spec in HA. apply Leibniz.eqb_spec in HB.
  apply Leibniz.eqb_spec in HC.
  rewrite (small_is_Z2F s) in HA, HB by lia.
  rewrite (small_is_Z2F m) in HB by lia.
  rewrite (small_is_Z2F (60 * m + s)) in HB, HC by lia.
  rewrite (small_is_Z2F h) in HC by lia.
  rewrite (small_is_Z2F (3600 * h + (60 * m + s))) in HC by lia.
  replace (3600 * h + 60 * m + s) with (3600 * h + (60 * m + s)) by lia.
  split; [exact HA|]. split; [exact HB|exact HC].
Qed.

Lemma digit_is_plain (c : ascii) :
  is_digit c = true ->
  is_space c = false /\ Ascii.eqb c ":" = false
  /\ c <> "-"%char /\ c <> "+"%char.
Proof.
  destruct c as [[] [] [] [] [] [] [] []]; cbn; intros H;
    try discriminate H; repeat split; discriminate.
Qed.

Lemma span_digits_only (s : string) :
  digits_only s = true -> span_digits s = (s, EmptyString).
Proof.
  induction s as [|c s IH]; [reflexivity|]. cbn [digits_only span_digits].
  intros H. apply andb_true_iff in H as [Hc Hs]. now rewrite Hc, IH.
Qed.

Lemma parseInt_digits (s : string) :
  s <> EmptyString -> digits_only s = true -> parseInt s = Z2F (digits_value s).
Proof.
  intros Hne Hd. destruct s as [|c s]; [now destruct Hne|].
  pose proof Hd as Hd'. cbn [digits_only] in Hd'.
  apply andb_true_iff in Hd' as [Hc _].
  destruct (digit_is_plain c Hc) as (Hsp & _ & Hminus & Hplus).
  unfold parseInt. cbn [trim_start]. rewrite Hsp.
  assert (Hsign :
    match String c s with
    | String "-" r => (true, r)
    | String "+" r => (false, r)
    | _ => (false, String c s)
    end = (false, String c s)).
  { destruct c as [[] [] [] [] [] [] [] []]; try reflexivity; congruence. }
  rewrite Hsign, (span_digits_only _ Hd). reflexivity.
Qed.

Lemma split_colon_digits (a rest : string) :
  digits_only a = true ->
  split_colon (a +:+ ":" +:+ rest) = a :: split_colon rest.
Proof.
  induction a as [|c a IH]; intros H; [reflexivity|].
  cbn [digits_only] in H. apply andb_true_iff in H as [Hc Ha].
  destruct (digit_is_plain c Hc) as (_ & Hcolon & _).
  rewrite StringFacts.app_cons. cbn [split_colon]. now rewrite Hcolon, IH.
Qed.

Lemma split_colon_last (a : string) :
  digits_only a = true -> split_colon a = [a].
Proof.
  induction a as [|c a IH]; intros H; [reflexivity|].
  cbn [digits_only] in H. apply andb_true_iff in H as [Hc Ha].
  destruct (digit_is_plain c Hc) as (_ & Hcolon & _).
  cbn [split_colon]. now rewrite Hcolon, IH.
Qed.

Lemma digits_value_from_nonneg (s : string) (acc : Z) :
  digits_only s = true -> 0 <= acc -> 0 <= digits_value_from acc s.
Proof.
  revert acc. induction s as [|c s IH]; intros acc H Hacc; [exact Hacc|].
  cbn [digits_only] in H. apply andb_true_iff in H as [Hc Hs].
  cbn [digits_value_from]. apply IH; [exact Hs|].
  unfold is_digit in Hc. apply andb_true_iff in Hc as [Hlo _].
  apply Nat.leb_le in Hlo. unfold digit_value. lia.
Qed.

(** X3: on a time written as hours, minutes and seconds, each a run of
    decimal digits with a value below 100 (00:03:01, or 4:05:7),
    [timeToSeconds] is 3600 times the hours plus 60 times the minutes
    plus the seconds; with two segments it is 60 times the first plus the
    second, and with one segment it is its value.  The sums are exact
    binary64 values. *)
Theorem timeToSeconds_reads_a_clock_time (a b c : string) :
  a <> EmptyString -> b <> EmptyString -> c <> EmptyString ->
  digits_only a = true -> digits_only b = true -> digits_only c = true ->
  digits_value a < 100 -> digits_value b < 100 -> digits_value c < 100 ->
  timeToSeconds (a +:+ ":" +:+ b +:+ ":" +:+ c)
  = Z2F (3600 * digits_value a + 60 * digits_value b + digits_value c)
  /\ timeToSeconds (b +:+ ":" +:+ c) = Z2F (60 * digits_value b + digits_value c)
  /\ timeToSeconds c = Z2F (digits_value c).
Proof.
  intros Ha Hb Hc Da Db Dc La Lb Lc.
  assert (Na : 0 <= digits_value a) by (now apply digits_value_from_nonneg).
  assert (Nb : 0 <= digits_value b) by (now apply digits_value_from_nonneg).
  assert (Nc : 0 <= digits_value c) by (now apply digits_value_from_nonneg).
  destruct (clock_sums (digits_value a) (digits_value b) (digits_value c))
    as (HA & HB & HC); [lia..|].
  assert (Hstart : forall x rest, x <> EmptyString ->
            timeToSeconds (x +:+ rest)
            = timeToSeconds_loop (rev (split_colon (x +:+ rest))) 0 1).
  { intros [|ch x] rest Hx; [now destruct Hx|reflexivity]. }
  split; [|split].
  - rewrite (Hstart a _ Ha), !split_colon_digits, split_colon_last by assumption.
    cbn [rev app timeToSeconds_loop].
    rewrite !parseInt_digits by assumption. now rewrite HA, HB, HC.
  - rewrite (Hstart b _ Hb), split_colon_digits, split_colon_last by assumption.
    cbn [rev app timeToSeconds_loop].
    rewrite !parseInt_digits by assumption. now rewrite HA, HB.
  - rewrite <- (ServerFacts.string_app_empty c) at 1.
    rewrite (Hstart c _ Hc), ServerFacts.string_app_empty, split_colon_last by assumption.
    cbn [rev app timeToSeconds_loop].
    rewrite !parseInt_digits by assumption. exact HA.
Qed.

(** The theorem at work: 01:02:03 is 3723 seconds. *)
Lemma one_hour_two_minutes_three_seconds :
  timeToSeconds "01:02:03" = 3723%float
  /\ timeToSeconds "02:03" = 123%float
  /\ timeToSeconds "03" = 3%float.
Proof.
  apply (timeToSeconds_reads_a_clock_time "01" "02" "03");
    first [discriminate | reflexivity].
Defined.

End ClockFacts.

(** ** The server, further *)
Module ServerMore.
Import JS Server Examples MoreExamples ServerFacts StringFacts.

(** *** The bus, once more *)

Lemma publish_all_unheard (taskId : string) (evs : list event) (b : bus) :
  progressStreams b !! taskId = None ->
  written (publish_all taskId evs b) = written b.
Proof.
  revert b. induction evs as [|e evs IH]; intros b H; [reflexivity|].
  rewrite publish_all_cons, IH.
  - unfold sendProgress. now rewrite H.
  - now rewrite sendProgress_streams.
Qed.

(** X4: the callback that closes a connection forgets the sink of the
    task, whichever response is registered.  When a second response has
    subscribed to the same task and the first connection closes, the task
    has no sink any more: what is published afterwards is written to no
    response, the second one included, though it is still recorded. *)
Theorem close_of_an_earlier_connection_removes_the_later_sink
    (b : bus) (taskId : string) (res1 res2 : nat) (later : list event) :
  progressStreams
    (get_progress_close taskId (get_progress taskId res2 (get_progress taskId res1 b)))
  !! taskId = None
  /\ (forall res : nat,
        received res
          (publish_all taskId later
             (get_progress_close taskId
                (get_progress taskId res2 (get_progress taskId res1 b))))
        = received res (get_progress taskId res2 (get_progress taskId res1 b)))
  /\ events_since b
       (publish_all taskId later
          (get_progress_close taskId
             (get_progress taskId res2 (get_progress taskId res1 b))))
     = later.
Proof.
  split; [|split].
  - unfold get_progress_close. cbn [progressStreams]. apply lookup_delete_eq.
  - intros res. unfold received. rewrite publish_all_unheard; [reflexivity|].
    unfold get_progress_close. cbn [progressStreams]. apply lookup_delete_eq.
  - unfold events_since. rewrite publish_all_journal. cbn [journal get_progress_close get_progress write].
    rewrite drop_app_length, map_map. apply map_id.
Qed.


(** Two buses with the same sinks, on which a response has received the
    same: they stay so when one handles some calls and the other the same
    calls without the events of a task of which the response is not the
    sink. *)
Lemma calls_without_events_of
    (taskId : string) (res : nat) (cs : list bus_call) (b1 b2 : bus) :
  progressStreams b1 = progressStreams b2 ->
  received res b1 = received res b2 ->
  progressStreams b1 !! taskId <> Some res ->
  Forall (fun c => c <> subscribed taskId res) cs ->
  received res (calls cs b1) = received res (calls (without_events_of taskId cs) b2)
  /\ progressStreams (calls cs b1)
     = progressStreams (calls (without_events_of taskId cs) b2).
Proof.
  revert b1 b2.
  induction cs as [|c cs IH]; intros b1 b2 Hsinks Hreceived Hsink Hcs;
    [now split|].
  inversion Hcs as [|? ? Hc Hrest]; subst.
  rewrite calls_cons. unfold without_events_of. cbn [List.filter].
  fold (without_events_of taskId cs).
  destruct c as [t data|t r|t]; cbn [call].
  - destruct (String.eqb_spec t taskId) as [->|Hne]; cbn [negb].
    + apply IH; [|  | |exact Hrest].
      * now rewrite sendProgress_streams.
      * rewrite received_sendProgress.
        rewrite bool_decide_eq_false_2 by exact Hsink. now rewrite app_nil_r.
      * now rewrite sendProgress_streams.
    + rewrite calls_cons. cbn [call].
      apply IH; [| | |exact Hrest].
      * now rewrite !sendProgress_streams.
      * rewrite !received_sendProgress. now rewrite Hsinks, Hreceived.
      * now rewrite sendProgress_streams.
  - rewrite calls_cons. cbn [call].
    apply IH; [| | |exact Hrest].
    + unfold get_progress. cbn [progressStreams write]. now rewrite Hsinks.
    + rewrite !received_get_progress. now rewrite Hreceived.
    + unfold get_progress. cbn [progressStreams write].
      destruct (decide (t = taskId)) as [->|Hne].
      * rewrite lookup_insert_eq. intros H. apply Hc. congruence.
      * now rewrite lookup_insert_ne.
  - rewrite calls_cons. cbn [call].
    apply IH; [| | |exact Hrest].
    + unfold get_progress_close. cbn [progressStreams]. now rewrite Hsinks.
    + exact Hreceived.
    + unfold get_progress_close. cbn [progressStreams].
      destruct (decide (t = taskId)) as [->|Hne].
      * now rewrite lookup_delete_eq.
      * now rewrite lookup_delete_ne.
Qed.

(** X5: the events of a task do not reach the subscribers of other
    tasks.  Whatever the server handles, and in whatever order (events
    sent for any tasks, subscriptions, closes of connections), a response
    that is not the sink of a task at the start and does not subscribe
    to it receives the same as if the events of that task had never been
    sent, and the registered sinks are the same too. *)
Theorem events_of_a_task_reach_no_other_subscriber
    (taskId : string) (res : nat) (cs : list bus_call) (b : bus) :
  progressStreams b !! taskId <> Some res ->
  Forall (fun c => c <> subscribed taskId res) cs ->
  received res (calls cs b) = received res (calls (without_events_of taskId cs) b)
  /\ progressStreams (calls cs b)
     = progressStreams (calls (without_events_of taskId cs) b).
Proof. intros Hsink Hcs. now apply calls_without_events_of. Qed.

(** The theorem at work: a page follows another task on the response 2
    while the task of the examples sends events and gets a subscriber of
    its own; the page receives the event of the task it follows, and none
    of the task of the examples. *)
Lemma the_page_of_another_task_hears_nothing :
  received 2
    (calls
       [published example_task started_event;
        published "task_1700000000001_zzzzzzzzz" cutting_event;
        subscribed example_task 1;
        published example_task downloaded_event]
       (get_progress "task_1700000000001_zzzzzzzzz" 2 empty_bus))
  = [connected_event; cutting_event].
Proof.
  destruct (events_of_a_task_reach_no_other_subscriber example_task 2
              [published example_task started_event;
               published "task_1700000000001_zzzzzzzzz" cutting_event;
               subscribed example_task 1;
               published example_task downloaded_event]
              (get_progress "task_1700000000001_zzzzzzzzz" 2 empty_bus))
    as [Hreceived _].
  - vm_compute. discriminate.
  - repeat constructor; discriminate.
  - rewrite Hreceived. vm_compute. reflexivity.
Defined.


Lemma yt_view_not_terminal (chunks : list chunk) (v : download_vars) :
  Forall (fun e => is_terminal (ev_status e) = false) (fst (yt_view chunks v)).
Proof.
  eapply List.Forall_impl; [|apply yt_view_downloading]. now intros e ->.
Qed.

Lemma ff_view_not_terminal (chunks : list chunk) :
  Forall (fun e => is_terminal (ev_status e) = false) (ff_view chunks).
Proof.
  eapply List.Forall_impl; [|apply ff_view_cutting]. now intros e ->.
Qed.

(** The events of a run: all but the last are not terminal, the last is. *)
Lemma run_ends_once (w : world) (taskId : string) (o : options) :
  exists (earlier : list event) (final : event),
    run_events (run_view w taskId o) = earlier ++ [final]
    /\ Forall (fun e => is_terminal (ev_status e) = false) earlier
    /\ is_terminal (ev_status final) = true.
Proof.
  unfold run_view.
  pose proof (yt_view_not_terminal (yt_output w)
                {| lastProgress := 5; errorOutput := EmptyString |}) as Hdl.
  pose proof (ff_view_not_terminal (ff_output w)) as Hff.
  destruct (yt_view (yt_output w) _) as [reports v]. cbn [fst] in Hdl.
  destruct (end_error _ (yt_end w)) as [msg|]; cbn [run_events].
  { eexists _, _. split; [reflexivity|]. split; [|reflexivity].
    now constructor. }
  destruct (readdir_error (faults_after_download w)) as [readdir_message|]; cbn [run_events].
  { eexists _, _. split; [reflexivity|]. split; [|reflexivity].
    apply List.Forall_app. split; [now constructor|now repeat constructor]. }
  destruct (negb _); cbn [run_events].
  { eexists _, _. split; [reflexivity|]. split; [|reflexivity].
    apply List.Forall_app. split; [now constructor|now repeat constructor]. }
  destruct (end_error _ (ff_end w)) as [msg|]; cbn [run_events].
  { eexists _, _. split; [reflexivity|]. split; [|reflexivity].
    rewrite !List.Forall_app. repeat split; [now constructor|now repeat constructor|].
    now constructor. }
  destruct (bool_decide _); cbn [run_events].
  - exists ((((started_event :: reports) ++ [downloaded_event])
             ++ trimming_event :: ff_view (ff_output w)) ++ [cleaning_event]), (complete_event (filename o)).
    split; [reflexivity|]. split; [|reflexivity].
    rewrite !List.Forall_app. repeat split; [now constructor|now repeat constructor| |now repeat constructor].
    now constructor.
  - eexists _, _. split; [reflexivity|]. split; [|reflexivity].
    rewrite !List.Forall_app. repeat split; [now constructor|now repeat constructor| |now repeat constructor].
    now constructor.
Qed.

(** What a run has sent when it waits for the end of the downloader. *)
Lemma events_until_download_ends
    (w : world) (taskId : string) (o : options) (st : pstate) :
  events_since (the_bus st) (the_bus (snd (until_download_ends w taskId o st)))
  = started_event
    :: fst (yt_view (yt_output w)
              {| lastProgress := 5; errorOutput := EmptyString |}).
Proof. rewrite until_download_ends_view. apply events_since_publish_all. Qed.

(** What a run has sent when it waits for the end of the cutter, or when
    it left the [try] block before: nothing terminal, and less than the
    whole run. *)
Lemma events_until_cut_ends
    (w : world) (taskId : string) (o : options) (st : pstate) :
  Forall (fun e => is_terminal (ev_status e) = false)
    (events_since (the_bus st) (the_bus (snd (until_cut_ends w taskId o st))))
  /\ exists still_to_come : list event,
       still_to_come <> []
       /\ run_events (run_view w taskId o)
          = events_since (the_bus st) (the_bus (snd (until_cut_ends w taskId o st)))
            ++ still_to_come.
Proof.
  rewrite until_cut_ends_view. unfold run_view.
  pose proof (yt_view_not_terminal (yt_output w)
                {| lastProgress := 5; errorOutput := EmptyString |}) as Hdl.
  pose proof (ff_view_not_terminal (ff_output w)) as Hff.
  destruct (yt_view (yt_output w) _) as [reports v]. cbn [fst] in Hdl.
  destruct (end_error _ (yt_end w)) as [msg|]; cbv beta iota zeta;
    cbn [run_events snd the_bus].
  { rewrite events_since_publish_all. split; [now constructor|].
    eexists. split; [|reflexivity]. discriminate. }
  destruct (readdir_error (faults_after_download w)) as [readdir_message|];
    cbv beta iota zeta; cbn [run_events snd the_bus].
  { rewrite events_since_publish_all.
    split; [apply List.Forall_app; split; [now constructor|now repeat constructor]|].
    eexists. split; [|reflexivity]. discriminate. }
  destruct (negb _); cbv beta iota zeta; cbn [run_events snd the_bus].
  { rewrite events_since_publish_all.
    split; [apply List.Forall_app; split; [now constructor|now repeat constructor]|].
    eexists. split; [|reflexivity]. discriminate. }
  rewrite events_since_publish_all.
  split.
  { rewrite !List.Forall_app. repeat split;
      [now constructor|now repeat constructor|now constructor]. }
  destruct (end_error _ (ff_end w)) as [msg|]; cbn [run_events].
  { eexists. split; [|reflexivity]. discriminate. }
  destruct (bool_decide _); cbn [run_events].
  - exists [cleaning_event; complete_event (filename o)].
    split; [discriminate|]. now rewrite <- app_assoc.
  - exists [cleaning_event; error_event "File hasil trim tidak ditemukan"].
    split; [discriminate|]. now rewrite <- app_assoc.
Qed.

(** X6: a run of [processVideo] sends at least one event; the last one
    is terminal ([complete] or [error]), no earlier one is, and it is the
    snapshot stored for the task when the run is over.  This holds
    whatever fails in the file system.  The terminal event comes only
    after both subprocesses have ended: where the run waits for the end
    of the downloader, or of the cutter, it has sent no terminal event,
    and events are still to come.  A run whose subprocess never ends
    stays there, so it never sends a terminal event. *)
Theorem a_run_ends_with_its_only_terminal_event
    (w : world) (taskId : string) (o : options) (st : pstate) :
  (exists (earlier : list event) (final : event),
     events_since (the_bus st) (the_bus (snd (processVideo w taskId o st)))
     = earlier ++ [final]
     /\ Forall (fun e => is_terminal (ev_status e) = false) earlier
     /\ is_terminal (ev_status final) = true
     /\ taskProgress (the_bus (snd (processVideo w taskId o st))) !! taskId
        = Some final)
  /\ forall waiting : pstate,
       waiting = snd (until_download_ends w taskId o st)
       \/ waiting = snd (until_cut_ends w taskId o st) ->
       Forall (fun e => is_terminal (ev_status e) = false)
         (events_since (the_bus st) (the_bus waiting))
       /\ exists still_to_come : list event,
            still_to_come <> []
            /\ events_since (the_bus st)
                 (the_bus (snd (processVideo w taskId o st)))
               = events_since (the_bus st) (the_bus waiting) ++ still_to_come.
Proof.
  split.
  - rewrite events_of_run, processVideo_view. cbn [snd the_bus].
    destruct (run_ends_once w taskId o) as (earlier & final & -> & He & Hf).
    exists earlier, final. split; [reflexivity|]. split; [exact He|].
    split; [exact Hf|].
    rewrite publish_all_snoc. unfold sendProgress. cbn [taskProgress].
    apply lookup_insert_eq.
  - intros waiting [->| ->]; rewrite events_of_run.
    + rewrite events_until_download_ends. split.
      * constructor; [reflexivity|]. apply yt_view_not_terminal.
      * unfold run_view.
        destruct (yt_view (yt_output w) _) as [reports v]. cbn [fst].
        destruct (end_error _ (yt_end w)) as [msg|]; cbn [run_events].
        { eexists. split; [|reflexivity]. discriminate. }
        destruct (readdir_error (faults_after_download w)) as [readdir_message|];
          cbn [run_events].
        { eexists. split; [|rewrite <- app_assoc; reflexivity]. discriminate. }
        destruct (negb _); cbn [run_events].
        { eexists. split; [|rewrite <- app_assoc; reflexivity]. discriminate. }
        destruct (end_error _ (ff_end w)) as [msg|]; cbn [run_events].
        { eexists. split; [|rewrite <- !app_assoc; reflexivity]. discriminate. }
        destruct (bool_decide _); cbn [run_events].
        { eexists. split; [|rewrite <- !app_assoc; reflexivity]. discriminate. }
        eexists. split; [|rewrite <- !app_assoc; reflexivity]. discriminate.
    + apply events_until_cut_ends.
Qed.


(** *** Finding the downloaded file *)

Lemma found_view_cases (names : list string) (basePath : string) :
  (In basePath names /\ found_view names basePath = basePath)
  \/ (~ In basePath names
      /\ In (found_view names basePath) names
      /\ has_media_extension (found_view names basePath) = true
      /\ (startsWith (found_view names basePath)
            (basename basePath (extname basePath))
          || includes (found_view names basePath) (basename basePath ".mp4")) = true)
  \/ (~ In basePath names
      /\ found_view names basePath = basePath
      /\ forall file : string,
           In file names ->
           (startsWith file (basename basePath (extname basePath))
            || includes file (basename basePath ".mp4")) = true ->
           has_media_extension file = false).
Proof.
  unfold found_view.
  destruct (bool_decide (basePath ∈ names)) eqn:Hb.
  { left. apply bool_decide_eq_true in Hb. split; [now apply list_elem_of_In|reflexivity]. }
  apply bool_decide_eq_false in Hb. rewrite list_elem_of_In in Hb.
  right.
  destruct (List.find _ _) as [file|] eqn:Hfind; cbn [default].
  - left. apply find_some in Hfind as [Hin Hp].
    apply filter_In in Hin as [Hin Hm].
    apply andb_true_iff in Hp as [_ Hext]. now repeat split.
  - right. split; [exact Hb|]. split; [reflexivity|].
    intros file Hin Hm.
    assert (Hf : In file
                   (List.filter
                      (fun f => startsWith f (basename basePath (extname basePath))
                                || includes f (basename basePath ".mp4"))
                      names)) by (apply filter_In; now split).
    pose proof (find_none _ _ Hfind file Hf) as Hn. cbn beta in Hn.
    apply andb_false_iff in Hn. destruct Hn as [Hn|Hn]; [|exact Hn].
    apply bool_decide_eq_false in Hn. exfalso. apply Hn. now apply list_elem_of_In.
Qed.

(** X7: [findDownloadedFile] changes nothing.  It reads the directory
    first: when [fs.readdirSync] throws, it throws that error, also when
    the file asked for is there.  Otherwise it returns the path asked
    for when that file is present.  When it returns another path, that
    file is present, has the extension of a media file, and its name
    starts with the name asked for without its extension, or contains it
    without [.mp4].  It returns a path that is not present only when it
    is the path asked for and no present name that matches has the
    extension of a media file. *)
Theorem findDownloadedFile_prefers_the_path_then_a_present_media_file
    (basePath : string) (st : pstate) :
  snd (findDownloadedFile basePath st) = st
  /\ match readdir_error (fs_faults st) with
     | Some error_message =>
         fst (findDownloadedFile basePath st) = thrown error_message
     | None =>
         exists found : string,
           fst (findDownloadedFile basePath st) = returned found
           /\ (In basePath (disk st) -> found = basePath)
           /\ (found <> basePath ->
               In found (disk st)
               /\ has_media_extension found = true
               /\ (startsWith found (basename basePath (extname basePath))
                   || includes found (basename basePath ".mp4")) = true)
           /\ (~ In found (disk st) ->
               found = basePath
               /\ forall file : string,
                    In file (disk st) ->
                    (startsWith file (basename basePath (extname basePath))
                     || includes file (basename basePath ".mp4")) = true ->
                    has_media_extension file = false)
     end.
Proof.
  rewrite findDownloadedFile_view. cbn [fst snd]. split; [reflexivity|].
  destruct (readdir_error (fs_faults st)) as [message|]; [reflexivity|].
  exists (found_view (disk st) basePath).
  split; [reflexivity|].
  destruct (found_view_cases (disk st) basePath)
    as [[Hin Heq]|[(Hnot & Hin & Hext & Hm)|(Hnot & Heq & Hnone)]].
  - rewrite Heq. split; [reflexivity|]. split; [congruence|]. intros H. now destruct H.
  - split; [intros H; now destruct Hnot|]. split; [now repeat split|].
    intros H. now destruct H.
  - rewrite Heq. split; [reflexivity|]. split; [congruence|]. intros _. now split.
Qed.

(** *** The subprocesses of a run *)

Lemma end_error_none (stage : string -> string) (e : stage_end) :
  end_error stage e = None <-> e = close (Some 0).
Proof.
  destruct e as [[[| |]|]|msg]; cbn; split; congruence.
Qed.

(** X8: a run spawns the downloader first, in its audio form exactly
    when the format is [mp3], and at most one more subprocess, the cutter.
    The cutter is spawned only after the downloader exited with code 0
    and the directory was read, on a file that is present then (the
    temporary file itself when it is there), with the start and the
    duration of the options and the final file as output; it is spawned
    exactly in the runs that send the [trimming] event at 70.  When the
    downloader exited with code 0, the directory can be read and the
    temporary file is there, the cutter is spawned on it. *)
Theorem the_cutter_is_spawned_only_on_a_downloaded_file
    (w : world) (taskId : string) (o : options) (st : pstate) :
  exists new : list command,
    spawned (snd (processVideo w taskId o st)) = spawned st ++ new
    /\ head new
       = Some (if String.eqb (format o) "mp3"
               then yt_dlp_audio (tempFile o) (url o)
               else yt_dlp_video (quality o) (tempFile o) (url o))
    /\ (length new = 1%nat
        \/ exists input : string,
             tail new = [ffmpeg_trim input (start o) (duration o) (finalFile o)]
             /\ yt_end w = close (Some 0)
             /\ readdir_error (faults_after_download w) = None
             /\ In input (disk_after_download w)
             /\ (In (tempFile o) (disk_after_download w) -> input = tempFile o))
    /\ (yt_end w = close (Some 0) ->
        readdir_error (faults_after_download w) = None ->
        In (tempFile o) (disk_after_download w) ->
        tail new
        = [ffmpeg_trim (tempFile o) (start o) (duration o) (finalFile o)])
    /\ (In trimming_event
          (events_since (the_bus st) (the_bus (snd (processVideo w taskId o st))))
        <-> length new = 2%nat).
Proof.
  rewrite events_of_run, processVideo_view. cbn [snd spawned].
  exists (run_spawned (run_view w taskId o)). split; [reflexivity|].
  unfold run_view.
  pose proof (yt_view_downloading (yt_output w)
                {| lastProgress := 5; errorOutput := EmptyString |}) as Hdl.
  destruct (yt_view (yt_output w) _) as [reports v]. cbn [fst] in Hdl.
  destruct (end_error _ (yt_end w)) as [msg|] eqn:Hend.
  { cbn [run_spawned run_events]. split; [reflexivity|]. split; [now left|].
    split.
    - intros H. rewrite (proj2 (end_error_none _ _) H) in Hend. discriminate Hend.
    - split; [|discriminate]. intros Hin. exfalso.
      apply (trimming_not_before reports [] msg Hdl); [constructor|exact Hin]. }
  apply end_error_none in Hend.
  destruct (readdir_error (faults_after_download w)) as [readdir_message|] eqn:Hread.
  { cbn [run_spawned run_events head tail length].
    split; [reflexivity|]. split; [now left|].
    split; [intros _ H; discriminate H|].
    split; [|discriminate]. intros Hin. exfalso. rewrite <- app_assoc in Hin.
    apply (trimming_not_before reports [downloaded_event] readdir_message Hdl);
      [repeat constructor|exact Hin]. }
  destruct (found_view_cases (disk_after_download w) (tempFile o))
    as [[Hin Heq]|[(Hnot & Hin & Hext & Hm)|(Hnot & Heq & Hnone)]].
  - rewrite Heq. rewrite (bool_decide_eq_true_2 _ (proj2 (list_elem_of_In _ _) Hin)).
    cbn [negb].
    destruct (end_error _ (ff_end w)) as [msg|]; [|destruct (bool_decide _)];
      cbn [run_spawned run_events head tail length];
      (split; [reflexivity|]);
      (split; [right; exists (tempFile o); now repeat split|]);
      (split; [intros _ _ _; reflexivity|]);
      (split; [intros _; reflexivity|intros _]);
      rewrite <- ?app_assoc; rewrite !in_app_iff; cbn; tauto.
  - rewrite (bool_decide_eq_true_2 _ (proj2 (list_elem_of_In _ _) Hin)).
    cbn [negb].
    destruct (end_error _ (ff_end w)) as [msg|]; [|destruct (bool_decide _)];
      cbn [run_spawned run_events head tail length];
      (split; [reflexivity|]);
      (split; [right; exists (found_view (disk_after_download w) (tempFile o));
               repeat split; [exact Hend|exact Hin|intros H; now destruct Hnot]|]);
      (split; [intros _ _ H; now destruct Hnot|]);
      (split; [intros _; reflexivity|intros _]);
      rewrite <- ?app_assoc; rewrite !in_app_iff; cbn; tauto.
  - rewrite Heq.
    rewrite (bool_decide_eq_false_2 _ (fun H => Hnot (proj1 (list_elem_of_In _ _) H))).
    cbn [negb run_spawned run_events head tail length].
    split; [reflexivity|]. split; [now left|].
    split; [intros _ _ H; now destruct Hnot|].
    split; [|discriminate]. intros Hin. exfalso. rewrite <- app_assoc in Hin.
    apply (trimming_not_before reports [downloaded_event]
             "File download tidak ditemukan" Hdl);
      [repeat constructor|exact Hin].
Qed.


(** *** What a run leaves in the directory *)

Lemma from_last_dot_media (stem ext : string) :
  ext = "mp3" \/ ext = "mp4" ->
  from_last_dot (stem +:+ "." +:+ ext) = Some ("." +:+ ext).
Proof.
  intros Hext. induction stem as [|c stem IH].
  - destruct Hext as [->| ->]; reflexivity.
  - rewrite app_cons. cbn [from_last_dot]. now rewrite IH.
Qed.

(** The name of the temporary file without its extension. *)
Lemma temp_basename (taskId ext : string) :
  ext = "mp3" \/ ext = "mp4" ->
  basename ("temp_" +:+ taskId +:+ "." +:+ ext)
    (extname ("temp_" +:+ taskId +:+ "." +:+ ext))
  = "temp_" +:+ taskId.
Proof.
  intros Hext.
  assert (Hx : extname ("temp_" +:+ taskId +:+ "." +:+ ext) = "." +:+ ext).
  { change ("temp_" +:+ taskId +:+ "." +:+ ext)
      with (String "t" ("emp_" +:+ taskId +:+ "." +:+ ext)).
    unfold extname.
    change ("emp_" +:+ taskId +:+ "." +:+ ext)
      with ("emp_" +:+ (taskId +:+ "." +:+ ext)).
    rewrite <- string_app_assoc, from_last_dot_media by exact Hext. reflexivity. }
  rewrite Hx. unfold basename.
  change ("temp_" +:+ taskId +:+ "." +:+ ext)
    with ("temp_" +:+ (taskId +:+ ("." +:+ ext))).
  rewrite <- string_app_assoc. rewrite endsWith_app.
  replace (String.eqb (("temp_" +:+ taskId) +:+ "." +:+ ext) ("." +:+ ext))
    with false by (destruct Hext as [->| ->]; reflexivity).
  cbn [andb negb]. rewrite length_app.
  replace (String.length ("temp_" +:+ taskId) + String.length ("." +:+ ext)
           - String.length ("." +:+ ext))%nat
    with (String.length ("temp_" +:+ taskId)) by lia.
  apply substring_app_keep.
Qed.

Lemma faults_of_run (w : world) (taskId : string) (o : options) (st : pstate) :
  fs_faults (snd (processVideo w taskId o st)) = run_faults (run_view w taskId o).
Proof. now rewrite processVideo_view. Qed.

(** X9: when the temporary file is named [temp_], the identifier of the
    task, a point and [mp3] or [mp4], as the handler of [/trim] names it,
    a name that starts with [temp_] and the identifier is left in the
    directory after the run, whatever its end, only when it is the final
    file of a run that completed (should it have such a name), or when it
    could not be removed: the directory could not be read, or unlinking
    the file threw. *)
Theorem a_run_leaves_no_temporary_file_of_its_task
    (w : world) (taskId : string) (o : options) (st : pstate) (ext : string) :
  ext = "mp3" \/ ext = "mp4" ->
  tempFile o = "temp_" +:+ taskId +:+ "." +:+ ext ->
  Forall
    (fun f =>
       startsWith f ("temp_" +:+ taskId) = true ->
       (f = finalFile o
        /\ last (events_since (the_bus st) (the_bus (snd (processVideo w taskId o st))))
           = Some (complete_event (filename o)))
       \/ readdir_error (fs_faults (snd (processVideo w taskId o st))) <> None
       \/ unlink_error (fs_faults (snd (processVideo w taskId o st))) f <> None)
    (disk (snd (processVideo w taskId o st))).
Proof.
  intros Hext Htemp. rewrite events_of_run, disk_of_run, faults_of_run.
  apply List.Forall_forall. intros f Hin Hf.
  assert (Herr : forall failing names,
            In f (swept failing (removed_on_error taskId o) names) ->
            readdir_error failing <> None \/ unlink_error failing f <> None).
  { intros failing names H. apply in_swept in H as [_ [H|[H|H]]];
      [now left| |now right].
    unfold removed_on_error in H.
    apply orb_false_iff in H as [H _].
    rewrite (startsWith_includes f "temp_" taskId Hf) in H. discriminate H. }
  unfold run_view in *.
  destruct (yt_view (yt_output w) _) as [reports v].
  destruct (end_error _ (yt_end w)) as [msg|]; cbn [run_disk run_faults] in Hin |- *.
  { right. now apply Herr in Hin. }
  destruct (readdir_error (faults_after_download w)) as [readdir_message|] eqn:Hread;
    cbn [run_disk run_faults] in Hin |- *.
  { right. now apply Herr in Hin. }
  destruct (negb _); cbn [run_disk run_faults] in Hin |- *.
  { right. now apply Herr in Hin. }
  destruct (end_error _ (ff_end w)) as [msg|]; cbn [run_disk run_faults] in Hin |- *.
  { right. now apply Herr in Hin. }
  destruct (bool_decide _); cbn [run_disk run_faults run_events] in Hin |- *.
  - apply in_swept in Hin as [_ [H|[H|H]]]; [right; now left| |right; now right].
    left. split; [|now rewrite last_snoc].
    unfold removed_on_success in H. rewrite Htemp, temp_basename in H by exact Hext.
    rewrite Hf in H. cbn [orb andb] in H. apply negb_false_iff in H.
    now apply String.eqb_eq in H.
  - right. now apply Herr in Hin.
Qed.

(** The theorem at work: the downloader left the video with a format
    suffix and an unfinished part; nothing fails, and after the run both
    are gone. *)
Lemma a_completed_run_sweeps_the_suffixed_files :
  tempFile example_options = "temp_" +:+ example_task +:+ "." +:+ "mp4"
  /\ Forall
       (fun f =>
          startsWith f ("temp_" +:+ example_task) = true ->
          (f = finalFile example_options
           /\ last (events_since (the_bus initial_state)
                      (the_bus (snd (processVideo world_success_with_suffix
                                       example_task example_options initial_state))))
              = Some (complete_event (filename example_options)))
          \/ readdir_error
               (fs_faults (snd (processVideo world_success_with_suffix
                                  example_task example_options initial_state)))
             <> None
          \/ unlink_error
               (fs_faults (snd (processVideo world_success_with_suffix
                                  example_task example_options initial_state)))
               f
             <> None)
       (disk (snd (processVideo world_success_with_suffix example_task
                     example_options initial_state)))
  /\ disk (snd (processVideo world_success_with_suffix example_task
                  example_options initial_state))
     = ["notes.txt"; "clip.mp4"].
Proof.
  split; [reflexivity|]. split.
  - apply (a_run_leaves_no_temporary_file_of_its_task world_success_with_suffix
             example_task example_options initial_state "mp4").
    + now right.
    + reflexivity.
  - vm_compute. reflexivity.
Defined.

End ServerMore.

(** ** Reading the percentage *)
Module PercentFacts.
Import JS Server ClockTime MoreExamples StringFacts.

(** A run of digits is read whole when what follows does not start with
    a digit. *)
Lemma span_digits_app (d r : string) :
  digits_only d = true ->
  match r with String c _ => is_digit c = false | EmptyString => True end ->
  span_digits (d +:+ r) = (d, r).
Proof.
  intros Hd Hr. induction d as [|c d IH].
  - change (EmptyString +:+ r) with r.
    destruct r as [|c r]; [reflexivity|]. cbn [span_digits]. now rewrite Hr.
  - cbn [digits_only] in Hd. apply andb_true_iff in Hd as [Hc Hd].
    rewrite app_cons. cbn [span_digits]. now rewrite Hc, IH.
Qed.

Lemma match_percent_at_token (d1 d2 rest : string) :
  d1 <> EmptyString -> digits_only d1 = true -> digits_only d2 = true ->
  match_percent_at (d1 +:+ "." +:+ d2 +:+ "%" +:+ rest) = Some (d1 +:+ "." +:+ d2).
Proof.
  intros Hne H1 H2. unfold match_percent_at.
  rewrite (span_digits_app d1 _ H1) by reflexivity.
  destruct d1 as [|c d1]; [now destruct Hne|].
  change ("." +:+ d2 +:+ "%" +:+ rest) with (String "." (d2 +:+ "%" +:+ rest)).
  cbn iota. rewrite (span_digits_app d2 _ H2) by reflexivity. reflexivity.
Qed.

Lemma match_percent_skips (pre s : string) :
  no_digit pre = true -> match_percent (pre +:+ s) = match_percent s.
Proof.
  intros H. induction pre as [|c pre IH]; [reflexivity|].
  cbn [no_digit] in H. apply andb_true_iff in H as [Hc Hpre].
  apply negb_true_iff in Hc.
  rewrite app_cons. cbn [match_percent]. unfold match_percent_at at 1.
  cbn [span_digits]. rewrite Hc. now apply IH.
Qed.

Lemma match_percent_at_whole (d1 rest : string) :
  d1 <> EmptyString -> digits_only d1 = true ->
  match_percent_at (d1 +:+ "%" +:+ rest) = Some d1.
Proof.
  intros Hne H1. unfold match_percent_at.
  rewrite (span_digits_app d1 _ H1) by reflexivity.
  destruct d1 as [|c d1]; [now destruct Hne|]. reflexivity.
Qed.

Lemma match_percent_found (s token : string) :
  match_percent_at s = Some token -> match_percent s = Some token.
Proof. intros H. destruct s; cbn [match_percent]; now rewrite H. Qed.

(** What a handler reports depends on the chunk through the percentage
    read in it, and on the variables through [lastProgress]; the error
    text is left as it is. *)
Lemma report_view_of_match (a b : string) (v v' : download_vars) :
  match_percent a = match_percent b ->
  lastProgress v = lastProgress v' ->
  fst (report_view a v) = fst (report_view b v')
  /\ lastProgress (snd (report_view a v)) = lastProgress (snd (report_view b v'))
  /\ errorOutput (snd (report_view a v)) = errorOutput v.
Proof.
  intros Hmatch Hlast. unfold report_view. rewrite <- Hmatch, <- Hlast.
  destruct (match_percent a) as [token|]; [|now repeat split].
  destruct (lastProgress v <? _)%float; now repeat split.
Qed.

(** X10: the download handlers read one percentage in a chunk, the
    first.  When the chunk starts with text without digits and then has a
    number, written with or without a fraction, and a percent sign, that
    number is the one read ([parseFloat] gives its decimal value), and
    what follows the percent sign plays no role for the event sent and
    for [lastProgress]: on the standard output the handler does the same
    as on the chunk cut after the sign; on the standard error it sends
    the same and keeps the same [lastProgress], and it appends the whole
    chunk, with what follows the sign, to [errorOutput]. *)
Theorem only_the_first_percentage_of_a_chunk_is_read
    (pre d1 d2 rest : string) (taskId : string) (v : download_vars) (st : pstate) :
  no_digit pre = true ->
  d1 <> EmptyString -> digits_only d1 = true -> digits_only d2 = true ->
  parseFloat (d1 +:+ "." +:+ d2)
  = decimal2F (digits_value (d1 +:+ d2)) (String.length d2)
  /\ parseFloat d1 = Z2F (digits_value d1)
  /\ forall number : string,
       number = d1 +:+ "." +:+ d2 \/ number = d1 ->
       match_percent (pre +:+ number +:+ "%" +:+ rest) = Some number
       /\ yt_on_data taskId (stdout (pre +:+ number +:+ "%" +:+ rest)) v st
          = yt_on_data taskId (stdout (pre +:+ number +:+ "%")) v st
       /\ snd (yt_on_data taskId (stderr (pre +:+ number +:+ "%" +:+ rest)) v st)
          = snd (yt_on_data taskId (stderr (pre +:+ number +:+ "%")) v st)
       /\ exists v1 v2 : download_vars,
            fst (yt_on_data taskId (stderr (pre +:+ number +:+ "%" +:+ rest)) v st)
            = returned v1
            /\ fst (yt_on_data taskId (stderr (pre +:+ number +:+ "%")) v st)
               = returned v2
            /\ lastProgress v1 = lastProgress v2
            /\ errorOutput v1
               = errorOutput v +:+ (pre +:+ number +:+ "%" +:+ rest)
            /\ errorOutput v2 = errorOutput v +:+ (pre +:+ number +:+ "%").
Proof.
  intros Hpre Hne H1 H2.
  assert (Hfrac : forall rest',
            match_percent (pre +:+ (d1 +:+ "." +:+ d2) +:+ "%" +:+ rest')
            = Some (d1 +:+ "." +:+ d2)).
  { intros rest'. rewrite (match_percent_skips pre _ Hpre).
    rewrite !ServerFacts.string_app_assoc.
    now apply match_percent_found, match_percent_at_token. }
  assert (Hwhole : forall rest',
            match_percent (pre +:+ d1 +:+ "%" +:+ rest') = Some d1).
  { intros rest'. rewrite (match_percent_skips pre _ Hpre).
    now apply match_percent_found, match_percent_at_whole. }
  split; [|split].
  - unfold parseFloat. rewrite (span_digits_app d1 _ H1) by reflexivity.
    destruct d1 as [|c d1]; [now destruct Hne|].
    change ("." +:+ d2) with (String "." d2). cbn iota.
    rewrite <- (ServerFacts.string_app_empty d2) at 1.
    now rewrite (span_digits_app d2 _ H2).
  - unfold parseFloat. rewrite <- (ServerFacts.string_app_empty d1) at 1.
    rewrite (span_digits_app d1 _ H1) by exact I.
    destruct d1 as [|c d1]; [now destruct Hne|]. reflexivity.
  - intros number Hnumber.
    assert (Hread : forall rest',
              match_percent (pre +:+ number +:+ "%" +:+ rest') = Some number)
      by (destruct Hnumber as [-> | ->]; [exact Hfrac|exact Hwhole]).
    assert (Hsame : match_percent (pre +:+ number +:+ "%" +:+ rest)
                    = match_percent (pre +:+ number +:+ "%")).
    { rewrite Hread. pose proof (Hread EmptyString) as Hend.
      change ("%" +:+ EmptyString) with "%" in Hend. now rewrite Hend. }
    split; [apply Hread|].
    unfold yt_on_data. rewrite !ServerFacts.report_download_view.
    cbn [fst snd].
    split.
    { destruct (report_view_of_match _ _ v v Hsame eq_refl) as (Hev & Hl & _).
      destruct (report_view_of_match (pre +:+ number +:+ "%") (pre +:+ number +:+ "%")
                  v v eq_refl eq_refl) as (_ & _ & He2).
      destruct (report_view_of_match (pre +:+ number +:+ "%" +:+ rest)
                  (pre +:+ number +:+ "%") v v Hsame eq_refl) as (_ & _ & He1).
      rewrite Hev. f_equal. f_equal.
      destruct (snd (report_view (pre +:+ number +:+ "%" +:+ rest) v)) as [l1 e1].
      destruct (snd (report_view (pre +:+ number +:+ "%") v)) as [l2 e2].
      cbn [lastProgress errorOutput] in *. congruence. }
    set (va := {| lastProgress := lastProgress v;
                  errorOutput := errorOutput v +:+ (pre +:+ number +:+ "%" +:+ rest) |}).
    set (vb := {| lastProgress := lastProgress v;
                  errorOutput := errorOutput v +:+ (pre +:+ number +:+ "%") |}).
    destruct (report_view_of_match _ _ va vb Hsame eq_refl) as (Hev & Hl & He1).
    destruct (report_view_of_match (pre +:+ number +:+ "%") (pre +:+ number +:+ "%")
                vb vb eq_refl eq_refl) as (_ & _ & He2).
    split; [now rewrite Hev|].
    eexists _, _. split; [reflexivity|]. split; [reflexivity|].
    split; [exact Hl|]. split; [exact He1|exact He2].
Qed.

(** The theorem at work: of a chunk with the lines for 12.5% and for 50.0%
    the handler of the standard output reads 12.5, and does what it does
    on the first line cut after the sign. *)
Lemma the_second_line_of_a_chunk_is_not_read :
  match_percent two_lines = Some "12.5"
  /\ parseFloat "12.5" = 12.5%float
  /\ yt_on_data Examples.example_task (stdout two_lines)
       {| lastProgress := 5; errorOutput := EmptyString |} initial_state
     = yt_on_data Examples.example_task (stdout "[download]  12.5%")
         {| lastProgress := 5; errorOutput := EmptyString |} initial_state.
Proof.
  destruct (only_the_first_percentage_of_a_chunk_is_read
              "[download]  " "12" "5"
              " of 10.00MiB at 1.00MiB/s[download]  50.0% of 10.00MiB"
              Examples.example_task
              {| lastProgress := 5; errorOutput := EmptyString |} initial_state)
    as (Hvalue & _ & Hchunk);
    [reflexivity|discriminate|reflexivity|reflexivity|].
  destruct (Hchunk "12.5" (or_introl eq_refl)) as (Hmatch & Hsame & _).
  split; [exact Hmatch|]. split; [|exact Hsame].
  change (parseFloat "12.5") with (parseFloat ("12" +:+ "." +:+ "5")).
  rewrite Hvalue. vm_compute. reflexivity.
Defined.

End PercentFacts.

(** ** The rate limiter *)
Module LimiterFacts.
Import JS Limiter MoreExamples.

Section LimiterFactsConfig.

Variable windowMs : Z.
Variable max : Z.

Lemma forget_old_lookup (now : Z) (store : gmap string entry) (ip : string) :
  forget_old windowMs now store !! ip
  = match store !! ip with
    | Some record => if windowMs <? now - startTime record then None else Some record
    | None => None
    end.
Proof.
  assert (H : forall acc0 : gmap string entry,
    map_fold
      (fun ip record store =>
         if windowMs <? now - startTime record then delete ip store else store)
      acc0 store !! ip
    = match store !! ip with
      | Some record => if windowMs <? now - startTime record then None else acc0 !! ip
      | None => acc0 !! ip
      end).
  { intros acc0.
    apply (map_fold_weak_ind
             (fun acc m =>
                acc !! ip
                = match m !! ip with
                  | Some record =>
                      if windowMs <? now - startTime record then None else acc0 !! ip
                  | None => acc0 !! ip
                  end)).
    - now rewrite lookup_empty.
    - intros i x m r Hi IH.
      destruct (decide (i = ip)) as [->|Hne].
      + rewrite lookup_insert_eq. rewrite Hi in IH.
        destruct (windowMs <? now - startTime x); [apply lookup_delete_eq|exact IH].
      + rewrite lookup_insert_ne by exact Hne.
        destruct (windowMs <? now - startTime x); [|exact IH].
        now rewrite lookup_delete_ne. }
  unfold forget_old. rewrite H.
  destruct (store !! ip) as [record|] eqn:Hs; [|reflexivity].
  now destruct (windowMs <? now - startTime record).
Qed.

(** The answer to a request, and the record it leaves for its client,
    depend on the record of that client only. *)
Lemma rateLimiter_local (req : request) (now : Z) (s1 s2 : gmap string entry) :
  s1 !! client_of req = s2 !! client_of req ->
  fst (rateLimiter windowMs max req now s1) = fst (rateLimiter windowMs max req now s2)
  /\ snd (rateLimiter windowMs max req now s1) !! client_of req
     = snd (rateLimiter windowMs max req now s2) !! client_of req.
Proof.
  intros H. unfold rateLimiter. rewrite H.
  destruct (s2 !! client_of req) as [record|] eqn:Hs.
  - destruct (windowMs <? now - startTime record);
      [|destruct (max <=? count record)]; cbn [fst snd];
      rewrite ?lookup_insert_eq; split; congruence.
  - cbn [fst snd]. now rewrite !lookup_insert_eq.
Qed.

(** A request leaves the records of the other clients as they are. *)
Lemma rateLimiter_frame (req : request) (now : Z) (s : gmap string entry) (ip : string) :
  ip <> client_of req ->
  snd (rateLimiter windowMs max req now s) !! ip = s !! ip.
Proof.
  intros Hne. unfold rateLimiter.
  destruct (s !! client_of req) as [record|];
    [destruct (windowMs <? now - startTime record);
     [|destruct (max <=? count record)]|];
    cbn [snd]; rewrite ?lookup_insert_ne by congruence; reflexivity.
Qed.

Lemma serve_cons (req : request) (now : Z) (rest : list (request * Z))
    (s : gmap string entry) :
  serve windowMs max ((req, now) :: rest) s
  = (fst (rateLimiter windowMs max req now s)
     :: fst (serve windowMs max rest (snd (rateLimiter windowMs max req now s))),
     snd (serve windowMs max rest (snd (rateLimiter windowMs max req now s)))).
Proof.
  cbn [serve]. destruct (rateLimiter windowMs max req now s) as [a s'].
  cbn [fst snd]. now destruct (serve windowMs max rest s').
Qed.

Lemma serve_frame (requests : list (request * Z)) (s : gmap string entry) (ip : string) :
  Forall (fun r => client_of (fst r) <> ip) requests ->
  snd (serve windowMs max requests s) !! ip = s !! ip.
Proof.
  revert s. induction requests as [|[req now] rest IH]; intros s H; [reflexivity|].
  rewrite serve_cons. cbn [snd]. inversion H as [|? ? Hreq Hrest]; subst.
  rewrite IH by exact Hrest. apply rateLimiter_frame. cbn [fst] in Hreq. congruence.
Qed.

Lemma rateLimiter_inside (req : request) (now : Z) (s : gmap string entry) (k t0 : Z) :
  s !! client_of req = Some {| count := k; startTime := t0 |} ->
  now - t0 <= windowMs ->
  rateLimiter windowMs max req now s
  = if max <=? k then (too_many_requests, s)
    else (next, <[client_of req := {| count := k + 1; startTime := t0 |}]> s).
Proof.
  intros Hs Ht. unfold rateLimiter. rewrite Hs. cbn [startTime count].
  now replace (windowMs <? now - t0) with false by (symmetry; apply Z.ltb_ge; lia).
Qed.

(** Inside a window: a client whose record counts [k] requests is let
    through until the count reaches [max], and refused after that; the
    start of the window does not move. *)
Lemma serve_inside_window (req : request) (times : list Z) (s : gmap string entry)
    (k t0 : Z) :
  s !! client_of req = Some {| count := k; startTime := t0 |} ->
  Forall (fun t => t - t0 <= windowMs) times ->
  fst (serve windowMs max (map (pair req) times) s)
  = repeat next (Nat.min (length times) (Z.to_nat (max - k)))
    ++ repeat too_many_requests (length times - Z.to_nat (max - k))
  /\ snd (serve windowMs max (map (pair req) times) s) !! client_of req
     = Some {| count := k + Z.of_nat (Nat.min (length times) (Z.to_nat (max - k)));
               startTime := t0 |}.
Proof.
  revert s k. induction times as [|t times IH]; intros s k Hs Hin.
  - cbn. split; [reflexivity|]. rewrite Hs. do 2 f_equal. lia.
  - inversion Hin as [|? ? Ht Hrest]; subst.
    cbn [map]. rewrite serve_cons. cbn [fst snd length].
    rewrite (rateLimiter_inside req t s k t0 Hs Ht).
    destruct (max <=? k) eqn:Hk.
    + apply Z.leb_le in Hk. cbn [fst snd].
      destruct (IH s k Hs Hrest) as [IH1 IH2]. rewrite IH1, IH2.
      replace (Z.to_nat (max - k)) with 0%nat by lia.
      rewrite !Nat.min_0_r, !Nat.sub_0_r. cbn. split; reflexivity.
    + apply Z.leb_gt in Hk. cbn [fst snd].
      destruct (IH (<[client_of req := {| count := k + 1; startTime := t0 |}]> s)
                  (k + 1)) as [IH1 IH2];
        [apply lookup_insert_eq|exact Hrest|].
      rewrite IH1, IH2.
      replace (Z.to_nat (max - k)) with (S (Z.to_nat (max - (k + 1)))) by lia.
      cbn [Nat.min Nat.sub repeat app]. split; [reflexivity|].
      do 2 f_equal. lia.
Qed.


(** The first request of a window: the client has no record, or one whose
    window is over. *)
Lemma rateLimiter_opens (req : request) (now : Z) (s : gmap string entry) :
  s !! client_of req = None
  \/ (exists record, s !! client_of req = Some record
                     /\ windowMs < now - startTime record) ->
  rateLimiter windowMs max req now s
  = (next, <[client_of req := {| count := 1; startTime := now |}]> s).
Proof.
  intros [H|(record & H & Hold)]; unfold rateLimiter; rewrite H; [reflexivity|].
  now replace (windowMs <? now - startTime record) with true
    by (symmetry; apply Z.ltb_lt; lia).
Qed.

(** X11: the first request of a client, one that has no record or whose
    window is over, is let through and opens a window; of the requests
    that follow it within [windowMs], the first [max - 1] are let through
    and all the others are refused.  (A [max] of 1 or less lets the first
    request through all the same.) *)
Theorem a_window_lets_max_requests_through
    (req : request) (now0 : Z) (times : list Z) (s : gmap string entry) :
  s !! client_of req = None
  \/ (exists record, s !! client_of req = Some record
                     /\ windowMs < now0 - startTime record) ->
  Forall (fun t => t - now0 <= windowMs) times ->
  fst (serve windowMs max (map (pair req) (now0 :: times)) s)
  = next
    :: repeat next (Nat.min (length times) (Z.to_nat (max - 1)))
    ++ repeat too_many_requests (length times - Z.to_nat (max - 1)).
Proof.
  intros Hopen Hin. cbn [map]. rewrite serve_cons, (rateLimiter_opens _ _ _ Hopen).
  cbn [fst snd]. f_equal.
  apply (serve_inside_window req times _ 1 now0); [apply lookup_insert_eq|exact Hin].
Qed.

(** X12: a refused request leaves the store as it is, so the window does
    not move: after any burst inside a window its record still starts at
    the first request, and a request that comes more than [windowMs]
    after that first one is let through and opens a new window with a
    count of 1, however many requests were refused in between. *)
Theorem refused_requests_do_not_extend_the_window
    (req : request) (now0 : Z) (burst : list Z) (later : Z) (s : gmap string entry) :
  s !! client_of req = None
  \/ (exists record, s !! client_of req = Some record
                     /\ windowMs < now0 - startTime record) ->
  Forall (fun t => t - now0 <= windowMs) burst ->
  windowMs < later - now0 ->
  (forall (req' : request) (now' : Z) (s' : gmap string entry),
      fst (rateLimiter windowMs max req' now' s') = too_many_requests ->
      snd (rateLimiter windowMs max req' now' s') = s')
  /\ (exists k : Z,
        snd (serve windowMs max (map (pair req) (now0 :: burst)) s) !! client_of req
        = Some {| count := k; startTime := now0 |})
  /\ fst (rateLimiter windowMs max req later
            (snd (serve windowMs max (map (pair req) (now0 :: burst)) s)))
     = next
  /\ snd (rateLimiter windowMs max req later
            (snd (serve windowMs max (map (pair req) (now0 :: burst)) s)))
     !! client_of req
     = Some {| count := 1; startTime := later |}.
Proof.
  intros Hopen Hin Hlater. split.
  { intros req' now' s'. unfold rateLimiter.
    destruct (s' !! client_of req') as [record|];
      [destruct (windowMs <? now' - startTime record);
       [|destruct (max <=? count record)]|];
      cbn [fst snd]; intros H; (discriminate H || reflexivity). }
  cbn [map]. rewrite serve_cons, (rateLimiter_opens _ _ _ Hopen). cbn [fst snd].
  destruct (serve_inside_window req burst
              (<[client_of req := {| count := 1; startTime := now0 |}]> s) 1 now0)
    as [_ Hrec]; [apply lookup_insert_eq|exact Hin|].
  split; [eexists; exact Hrec|].
  rewrite rateLimiter_opens.
  - cbn [fst snd]. split; [reflexivity|apply lookup_insert_eq].
  - right. eexists. split; [exact Hrec|exact Hlater].
Qed.

(** X13: the requests of other clients do not count against a client:
    they leave its record as it is, and its next request gets the same
    answer and leaves the same record as it would without them. *)
Theorem requests_of_other_clients_do_not_count
    (req : request) (now : Z) (others : list (request * Z)) (s : gmap string entry) :
  Forall (fun r => client_of (fst r) <> client_of req) others ->
  snd (serve windowMs max others s) !! client_of req = s !! client_of req
  /\ fst (rateLimiter windowMs max req now (snd (serve windowMs max others s)))
     = fst (rateLimiter windowMs max req now s)
  /\ snd (rateLimiter windowMs max req now (snd (serve windowMs max others s)))
     !! client_of req
     = snd (rateLimiter windowMs max req now s) !! client_of req.
Proof.
  intros H. pose proof (serve_frame others s (client_of req) H) as Hs.
  split; [exact Hs|]. now apply rateLimiter_local.
Qed.

Lemma rateLimiter_forgot (now0 : Z) (req : request) (now : Z)
    (s1 s2 : gmap string entry) :
  forgot windowMs now0 s1 s2 -> now0 <= now ->
  fst (rateLimiter windowMs max req now s1) = fst (rateLimiter windowMs max req now s2)
  /\ forgot windowMs now0 (snd (rateLimiter windowMs max req now s1))
       (snd (rateLimiter windowMs max req now s2)).
Proof.
  intros HR Hnow.
  assert (Hframe : forall ip, ip <> client_of req ->
            snd (rateLimiter windowMs max req now s1) !! ip
            = snd (rateLimiter windowMs max req now s2) !! ip
            \/ (snd (rateLimiter windowMs max req now s1) !! ip = None
                /\ exists record,
                     snd (rateLimiter windowMs max req now s2) !! ip = Some record
                     /\ windowMs < now0 - startTime record)).
  { intros ip Hne. rewrite !rateLimiter_frame by exact Hne. apply HR. }
  destruct (HR (client_of req)) as [Heq|(Hnone & record & Hsome & Hold)].
  - destruct (rateLimiter_local req now s1 s2 Heq) as [Ha Hs].
    split; [exact Ha|]. intros ip.
    destruct (decide (ip = client_of req)) as [->|Hne]; [now left|now apply Hframe].
  - rewrite (rateLimiter_opens req now s1) by now left.
    rewrite (rateLimiter_opens req now s2)
      by (right; exists record; split; [exact Hsome|lia]).
    split; [reflexivity|]. intros ip. cbn [snd].
    destruct (decide (ip = client_of req)) as [->|Hne].
    + left. now rewrite !lookup_insert_eq.
    + rewrite !lookup_insert_ne by congruence. apply HR.
Qed.

(** X14: the periodic callback forgets exactly the records whose window
    is over, and forgetting them changes no answer: the requests handled
    afterwards, at times not before that of the callback, are answered as
    they would be had nothing been forgotten. *)
Theorem forgetting_old_records_changes_no_answer
    (now0 : Z) (s : gmap string entry) (requests : list (request * Z)) :
  Forall (fun r => now0 <= snd r) requests ->
  (forall ip : string,
      forget_old windowMs now0 s !! ip
      = match s !! ip with
        | Some record =>
            if windowMs <? now0 - startTime record then None else Some record
        | None => None
        end)
  /\ fst (serve windowMs max requests (forget_old windowMs now0 s))
     = fst (serve windowMs max requests s).
Proof.
  intros Hlater. split; [apply forget_old_lookup|].
  assert (HR : forgot windowMs now0 (forget_old windowMs now0 s) s).
  { intros ip. rewrite forget_old_lookup.
    destruct (s !! ip) as [record|] eqn:Hs; [|now left].
    destruct (windowMs <? now0 - startTime record) eqn:Hold; [|now left].
    right. split; [reflexivity|]. exists record. split; [reflexivity|].
    now apply Z.ltb_lt. }
  revert HR. generalize (forget_old windowMs now0 s) as s1. generalize s as s2.
  induction requests as [|[req now] rest IH]; intros s2 s1 HR; [reflexivity|].
  inversion Hlater as [|? ? Hnow Hrest]; subst. cbn [snd] in Hnow.
  rewrite !serve_cons. cbn [fst].
  destruct (rateLimiter_forgot now0 req now s1 s2 HR Hnow) as [Ha HR'].
  rewrite Ha. f_equal. now apply IH.
Qed.

End LimiterFactsConfig.

(** The theorem at work, with a window of one minute and 10 requests in
    it: of twelve requests, one each second, the first ten are let
    through and the last two refused. *)
Lemma ten_requests_pass_and_two_are_refused :
  Forall (fun t => t - 1700000000000 <= 60000) burst
  /\ fst (serve 60000 10 (map (pair visitor) (1700000000000 :: burst)) ∅)
     = repeat next 10 ++ repeat too_many_requests 2.
Proof.
  assert (H : Forall (fun t => t - 1700000000000 <= 60000) burst)
    by (repeat constructor; discriminate).
  split; [exact H|].
  exact (a_window_lets_max_requests_through 60000 10 visitor 1700000000000
           burst ∅ (or_introl eq_refl) H).
Defined.

(** The theorem at work: after that burst, a request 60001 milliseconds
    after the first one is let through. *)
Lemma a_refused_client_waits_for_the_end_of_its_window :
  fst (rateLimiter 60000 10 visitor 1700000060001
         (snd (serve 60000 10 (map (pair visitor) (1700000000000 :: burst)) ∅)))
  = next
  /\ snd (rateLimiter 60000 10 visitor 1700000060001
            (snd (serve 60000 10 (map (pair visitor) (1700000000000 :: burst)) ∅)))
     !! client_of visitor
     = Some {| count := 1; startTime := 1700000060001 |}.
Proof.
  destruct (refused_requests_do_not_extend_the_window 60000 10 visitor
              1700000000000 burst 1700000060001 ∅)
    as (_ & _ & Hanswer & Hrecord).
  - left. reflexivity.
  - repeat constructor; discriminate.
  - reflexivity.
  - split; [exact Hanswer|exact Hrecord].
Defined.

(** The theorem at work: the burst of the visitor does not count against
    a neighbour. *)
Lemma the_burst_of_a_visitor_leaves_the_neighbour_alone :
  Forall (fun r => client_of (fst r) <> client_of neighbour)
    (map (pair visitor) (1700000000000 :: burst))
  /\ fst (rateLimiter 60000 10 neighbour 1700000012000
            (snd (serve 60000 10 (map (pair visitor) (1700000000000 :: burst)) ∅)))
     = next.
Proof.
  assert (H : Forall (fun r => client_of (fst r) <> client_of neighbour)
                (map (pair visitor) (1700000000000 :: burst)))
    by (repeat constructor; discriminate).
  split; [exact H|].
  destruct (requests_of_other_clients_do_not_count 60000 10 neighbour
              1700000012000 _ ∅ H) as (_ & Hanswer & _).
  rewrite Hanswer. reflexivity.
Defined.

(** The theorem at work: two minutes later the record of the visitor is
    forgotten, and the visitor is answered as if it were not. *)
Lemma forgetting_the_visitor_changes_nothing :
  forget_old 60000 1700000120000
    (snd (serve 60000 10 (map (pair visitor) (1700000000000 :: burst)) ∅))
  !! client_of visitor = None
  /\ fst (serve 60000 10 [(visitor, 1700000120000); (visitor, 1700000121000)]
            (forget_old 60000 1700000120000
               (snd (serve 60000 10
                       (map (pair visitor) (1700000000000 :: burst)) ∅))))
     = fst (serve 60000 10 [(visitor, 1700000120000); (visitor, 1700000121000)]
              (snd (serve 60000 10
                      (map (pair visitor) (1700000000000 :: burst)) ∅))).
Proof.
  destruct (forgetting_old_records_changes_no_answer 60000 10 1700000120000
              (snd (serve 60000 10 (map (pair visitor) (1700000000000 :: burst)) ∅))
              [(visitor, 1700000120000); (visitor, 1700000121000)])
    as [Hlookup Hsame].
  - repeat constructor; discriminate.
  - split; [|exact Hsame]. rewrite Hlookup. vm_compute. reflexivity.
Defined.

End LimiterFacts.

(** ** Handing out the result *)
Module DeliveryFacts.
Import JS Server Delivery Examples MoreExamples ServerFacts StringFacts.

Lemma endsWith_app_other (a suf suf' : string) :
  String.length suf = String.length suf' ->
  endsWith (a +:+ suf) suf' = String.eqb suf suf'.
Proof.
  intros Hlen. unfold endsWith. rewrite length_app, <- Hlen.
  replace (String.length suf <=? String.length a + String.length suf)%nat
    with true by (symmetry; apply Nat.leb_le; lia).
  replace (String.length a + String.length suf - String.length suf)%nat
    with (String.length a) by lia.
  now rewrite substring_app_skip, substring_0_all.
Qed.

Lemma strip_media_extension_app (stem ext : string) :
  ext = "mp3" \/ ext = "mp4" ->
  strip_media_extension (stem +:+ "." +:+ ext) = stem.
Proof.
  intros Hext. unfold strip_media_extension.
  rewrite !endsWith_app_other by (destruct Hext as [->| ->]; reflexivity).
  replace (String.eqb ("." +:+ ext) ".mp4" || String.eqb ("." +:+ ext) ".mp3")
    with true by (destruct Hext as [->| ->]; reflexivity).
  rewrite length_app.
  replace (String.length ("." +:+ ext)) with 4%nat
    by (destruct Hext as [->| ->]; reflexivity).
  replace (String.length stem + 4 - 4)%nat with (String.length stem) by lia.
  apply substring_app_keep.
Qed.

Section DeliveryFactsConfig.

Variable sanitizeFilename : option string -> string.
Variable autoDeleteAfterDownload : bool.
Variable cleanupIntervalMs : float.

(** The two names the handler computes, for a request of [stem.ext]. *)
Lemma download_names (stem ext : string) :
  ext = "mp3" \/ ext = "mp4" ->
  strip_media_extension (stem +:+ "." +:+ ext) = stem
  /\ (if endsWith (stem +:+ "." +:+ ext) ".mp3" then "mp3" else "mp4") = ext.
Proof.
  intros Hext. split; [now apply strip_media_extension_app|].
  rewrite endsWith_app_other by (destruct Hext as [->| ->]; reflexivity).
  destruct Hext as [->| ->]; reflexivity.
Qed.

(** X15: for a requested name [stem.ext] with [ext] one of [mp3] and
    [mp4], the handler of [/download] looks for the file named by the
    sanitized stem, a point and the same extension.  When it is absent
    the answer is 404.  When it is present the answer carries that name
    and the type [audio/mpeg] for [mp3], [video/mp4] for [mp4], with the
    timer for the deletion as the configuration says, or status 500 when
    reading fails.  The handler itself changes nothing. *)
Theorem a_download_looks_for_the_sanitized_stem
    (stem ext : string) (reading : stream_end) (st : pstate) :
  ext = "mp3" \/ ext = "mp4" ->
  get_download sanitizeFilename autoDeleteAfterDownload
    (stem +:+ "." +:+ ext) reading st
  = (returned
       (if bool_decide (sanitizeFilename (Some stem) +:+ "." +:+ ext ∈ disk st)
        then
          match reading with
          | stream_ended =>
              attachment (sanitizeFilename (Some stem) +:+ "." +:+ ext)
                (if String.eqb ext "mp3" then "audio/mpeg" else "video/mp4")
                autoDeleteAfterDownload
          | stream_failed _ =>
              stream_error (sanitizeFilename (Some stem) +:+ "." +:+ ext)
                (if String.eqb ext "mp3" then "audio/mpeg" else "video/mp4")
          end
        else not_found),
     st).
Proof.
  intros Hext. unfold get_download.
  destruct (download_names stem ext Hext) as [-> ->].
  unfold bind, existsSync.
  destruct (bool_decide _); cbn [negb]; [|reflexivity].
  now destruct reading.
Qed.

(** A completed run leaves its final file in the directory. *)
Lemma completed_run_has_final_file (w : world) (taskId : string) (o : options) (e : event) :
  In e (run_events (run_view w taskId o)) ->
  ev_status e = complete ->
  e = complete_event (filename o)
  /\ In (finalFile o) (run_disk (run_view w taskId o)).
Proof.
  intros Hin Hs.
  assert (Ht : In trimming_event (run_events (run_view w taskId o))).
  { apply (late_status_reached_trimming w taskId o e Hin); rewrite Hs; discriminate. }
  destruct (run_from_trimming w taskId o Ht) as (before & after & Hev & Hb & Hafter).
  rewrite Hev in Hin.
  apply in_run_after in Hin; [|exact Hb|rewrite Hs; discriminate..].
  destruct (end_error _ (ff_end w)) as [msg|].
  { destruct Hafter as [-> _]. destruct Hin as [<-|[]]. discriminate Hs. }
  destruct (bool_decide _) eqn:Hfinal; destruct Hafter as [-> Hdisk].
  - destruct Hin as [<-|[<-|[]]]; [discriminate Hs|].
    split; [reflexivity|]. rewrite Hdisk.
    apply bool_decide_eq_true in Hfinal. now apply list_elem_of_In.
  - destruct Hin as [<-|[<-|[]]]; discriminate Hs.
Qed.

(** X16: the file a task announces can be downloaded.  When a run sends
    [complete], the event carries the file name of the options; if that
    name and the final file are [stem.ext], as the handler of [/trim]
    builds them, and sanitizing the stem gives the stem, then a request
    to [/download] for the announced name, in the state the run left,
    finds the final file and answers with it. *)
Theorem the_announced_file_can_be_downloaded
    (w : world) (taskId : string) (o : options) (st : pstate)
    (stem ext : string) (e : event) :
  ext = "mp3" \/ ext = "mp4" ->
  filename o = stem +:+ "." +:+ ext ->
  finalFile o = stem +:+ "." +:+ ext ->
  sanitizeFilename (Some stem) = stem ->
  In e (events_since (the_bus st) (the_bus (snd (processVideo w taskId o st)))) ->
  ev_status e = complete ->
  ev_filename e = Some (filename o)
  /\ get_download sanitizeFilename autoDeleteAfterDownload (filename o) stream_ended
       (snd (processVideo w taskId o st))
     = (returned
          (attachment (finalFile o)
             (if String.eqb ext "mp3" then "audio/mpeg" else "video/mp4")
             autoDeleteAfterDownload),
        snd (processVideo w taskId o st)).
Proof.
  intros Hext Hname Hfinal Hclean Hin Hs. rewrite events_of_run in Hin.
  destruct (completed_run_has_final_file w taskId o e Hin Hs) as [-> Hdisk].
  split; [reflexivity|].
  rewrite Hname. unfold get_download.
  destruct (download_names stem ext Hext) as [-> ->].
  rewrite Hclean, <- Hfinal. unfold bind, existsSync. rewrite disk_of_run.
  now rewrite (bool_decide_eq_true_2 _ (proj2 (list_elem_of_In _ _) Hdisk)).
Qed.

Lemma filter_absent (name : string) (names : list string) :
  ~ In name names ->
  List.filter (fun f => negb (String.eqb f name)) names = names.
Proof.
  intros H. induction names as [|x names IH]; [reflexivity|]. cbn.
  destruct (String.eqb_spec x name) as [->|Hne]; cbn.
  - destruct H. now left.
  - f_equal. apply IH. intros Hin. apply H. now right.
Qed.

(** X17: with the deletion after download switched on, the timer of a
    file that was handed out tries to remove it, and nothing else: the
    handler changed nothing and the file was present; the callback of the
    timer never throws and touches only the directory.  When unlinking
    succeeds the file is gone, every other name stays, and a new request
    for the same name gets 404.  When unlinking throws, the error is
    caught, nothing has changed and the file is handed out again. *)
Theorem a_served_file_is_deleted_by_its_timer
    (filename : string) (reading : stream_end) (st : pstate)
    (safeFilename contentType : string) :
  fst (get_download sanitizeFilename autoDeleteAfterDownload filename reading st)
  = returned (attachment safeFilename contentType true) ->
  snd (get_download sanitizeFilename autoDeleteAfterDownload filename reading st) = st
  /\ In safeFilename (disk st)
  /\ fst (delete_after_download safeFilename st) = returned tt
  /\ match unlink_error (fs_faults st) safeFilename with
     | None =>
         (forall f : string,
            In f (disk (snd (delete_after_download safeFilename st)))
            <-> In f (disk st) /\ f <> safeFilename)
         /\ (forall again : stream_end,
               get_download sanitizeFilename autoDeleteAfterDownload filename again
                 (snd (delete_after_download safeFilename st))
               = (returned not_found, snd (delete_after_download safeFilename st)))
     | Some _ =>
         snd (delete_after_download safeFilename st) = st
         /\ get_download sanitizeFilename autoDeleteAfterDownload filename reading
              (snd (delete_after_download safeFilename st))
            = (returned (attachment safeFilename contentType true), st)
     end.
Proof.
  intros Hserved.
  assert (Hsame :
    snd (get_download sanitizeFilename autoDeleteAfterDownload filename reading st)
    = st).
  { unfold get_download, bind, existsSync.
    destruct (bool_decide _); cbn [negb]; [|reflexivity].
    now destruct reading. }
  split; [exact Hsame|].
  assert (Hname :
    safeFilename
    = sanitizeFilename (Some (strip_media_extension filename))
      +:+ "." +:+ (if endsWith filename ".mp3" then "mp3" else "mp4")
    /\ In safeFilename (disk st)).
  { revert Hserved. unfold get_download, bind, existsSync.
    destruct (bool_decide _) eqn:Hpresent; cbn [negb]; [|discriminate].
    apply bool_decide_eq_true, list_elem_of_In in Hpresent.
    destruct reading as [|msg]; cbn [ret fst]; [|discriminate].
    intros H. injection H as <- _ _. now split. }
  destruct Hname as [Hname Hpresent].
  split; [exact Hpresent|].
  unfold delete_after_download, try_catch, bind, existsSync.
  rewrite (bool_decide_eq_true_2 _ (proj2 (list_elem_of_In _ _) Hpresent)).
  unfold unlinkSync.
  destruct (unlink_error (fs_faults st) safeFilename) as [message|].
  - cbn [ret fst snd]. split; [reflexivity|]. split; [reflexivity|].
    rewrite <- Hsame at 2. rewrite <- Hserved. now destruct (get_download _ _ _ _ _).
  - cbn [fst snd disk]. split; [reflexivity|]. split.
    + intros f. rewrite filter_In, negb_true_iff.
      destruct (String.eqb_spec f safeFilename); intuition congruence.
    + intros again. unfold get_download, bind, existsSync. cbn [disk].
      rewrite <- Hname.
      rewrite (bool_decide_eq_false_2 (safeFilename ∈ _)); [reflexivity|].
      rewrite list_elem_of_In, filter_In, negb_true_iff, String.eqb_refl.
      intros [_ H]. discriminate H.
Qed.

(** A [try] whose [catch] block does nothing: what was done before the
    error stays done. *)
Lemma try_catch_swallows (body : proc ()) (st : pstate) :
  try_catch body (fun _ => ret tt) st = (returned tt, snd (body st)).
Proof.
  unfold try_catch. now destruct (body st) as [[[]|message] st'].
Qed.

(** The loop of the periodic clean-up: it handles the names listed
    before the first at which it stops, and of these it removes the old
    temporary media files. *)
Lemma periodic_sweep_view (now : float) (mtimeMs : string -> float)
    (files : list string) (st : pstate) :
  snd (forEach
         (fun file =>
            if startsWith file "temp_"
               && (endsWith file ".mp4" || endsWith file ".mp3") then
              mtime <- stat_mtimeMs mtimeMs file ;;
              let ageMs := (now - mtime)%float in
              if (cleanupIntervalMs <? ageMs)%float then unlinkSync file else ret tt
            else ret tt)
         files st)
  = {| the_bus := the_bus st;
       disk :=
         List.filter
           (fun f =>
              negb (startsWith f "temp_"
                    && (endsWith f ".mp4" || endsWith f ".mp3")
                    && (cleanupIntervalMs <? now - mtimeMs f)%float
                    && existsb (String.eqb f)
                         (listed_before
                            (sweep_stops_at cleanupIntervalMs (fs_faults st)
                               now mtimeMs)
                            files)))
           (disk st);
       fs_faults := fs_faults st;
       spawned := spawned st |}.
Proof.
  revert st. induction files as [|x files IH]; intros [b d fl s].
  - cbn [forEach ret snd listed_before the_bus disk fs_faults spawned].
    f_equal. symmetry.
    rewrite <- (List.filter_ext_in (fun _ => true)).
    + induction d as [|y d IHd]; simpl; [reflexivity|now rewrite IHd].
    + intros f _. rewrite andb_false_r. reflexivity.
  - cbn [forEach listed_before the_bus disk fs_faults spawned].
    unfold bind at 1. unfold sweep_stops_at at 1.
    destruct (startsWith x "temp_" && (endsWith x ".mp4" || endsWith x ".mp3"))
      eqn:Hmedia; cbn [andb].
    2:{ cbn [ret]. rewrite IH. cbn [the_bus disk fs_faults spawned].
        f_equal. apply List.filter_ext_in. intros f _. f_equal.
        cbn [existsb].
        destruct (String.eqb_spec f x) as [->|Hne]; [|reflexivity].
        now rewrite Hmedia. }
    unfold bind at 1, stat_mtimeMs at 1. cbn [fs_faults].
    destruct (stat_error fl x) as [message|].
    { cbn [snd]. f_equal. symmetry.
      rewrite <- (List.filter_ext_in (fun _ => true)).
      + induction d as [|y d IHd]; simpl; [reflexivity|now rewrite IHd].
      + intros f _. rewrite andb_false_r. reflexivity. }
    destruct (cleanupIntervalMs <? now - mtimeMs x)%float eqn:Hold; cbn [andb].
    2:{ cbn [ret]. rewrite IH. cbn [the_bus disk fs_faults spawned].
        f_equal. apply List.filter_ext_in. intros f _. f_equal.
        cbn [existsb].
        destruct (String.eqb_spec f x) as [->|Hne]; [|reflexivity].
        now rewrite Hold, andb_false_r. }
    unfold unlinkSync at 1, unlinkable. cbn [fs_faults].
    destruct (unlink_error fl x) as [message|]; cbn [negb].
    { cbn [snd]. f_equal. symmetry.
      rewrite <- (List.filter_ext_in (fun _ => true)).
      + induction d as [|y d IHd]; simpl; [reflexivity|now rewrite IHd].
      + intros f _. rewrite andb_false_r. reflexivity. }
    rewrite IH. cbn [the_bus disk fs_faults spawned]. f_equal.
    rewrite filter_twice. apply List.filter_ext_in. intros f _.
    cbn [existsb].
    destruct (String.eqb_spec f x) as [->|Hne]; cbn [negb andb orb].
    + now rewrite Hmedia, Hold.
    + reflexivity.
Qed.

Lemma cleanup_old_temp_files_view (now : float) (mtimeMs : string -> float) (st : pstate) :
  cleanup_old_temp_files cleanupIntervalMs now mtimeMs st
  = (returned tt,
     match readdir_error (fs_faults st) with
     | Some _ => st
     | None =>
         {| the_bus := the_bus st;
            disk :=
              List.filter
                (fun f =>
                   negb (startsWith f "temp_"
                         && (endsWith f ".mp4" || endsWith f ".mp3")
                         && (cleanupIntervalMs <? now - mtimeMs f)%float
                         && existsb (String.eqb f)
                              (listed_before
                                 (sweep_stops_at cleanupIntervalMs
                                    (fs_faults st) now mtimeMs)
                                 (disk st))))
                (disk st);
            fs_faults := fs_faults st;
            spawned := spawned st |}
     end).
Proof.
  unfold cleanup_old_temp_files. rewrite try_catch_swallows. f_equal.
  unfold bind at 1, readdirSync.
  destruct (readdir_error (fs_faults st)) as [message|]; [reflexivity|].
  apply periodic_sweep_view.
Qed.

Lemma substring_split (s : string) (k : nat) :
  (k <= String.length s)%nat ->
  s = String.substring 0 k s +:+ String.substring k (String.length s - k) s.
Proof.
  revert k. induction s as [|c s IH]; intros [|k] Hk; cbn in Hk |- *.
  - reflexivity.
  - lia.
  - now rewrite substring_0_all.
  - rewrite app_cons. f_equal. apply IH. lia.
Qed.

Lemma endsWith_split (s suf : string) :
  endsWith s suf = true -> exists a, s = a +:+ suf.
Proof.
  unfold endsWith. intros H. apply andb_true_iff in H as [Hlen H].
  apply Nat.leb_le in Hlen. apply String.eqb_eq in H.
  exists (String.substring 0 (String.length s - String.length suf) s).
  pose proof (substring_split s (String.length s - String.length suf)) as Hsp.
  replace (String.length s - (String.length s - String.length suf))%nat
    with (String.length suf) in Hsp by lia.
  rewrite H in Hsp. apply Hsp. lia.
Qed.

Lemma other_extension_is_not_mp4_or_mp3 (f : string) :
  endsWith f ".webm" = true \/ endsWith f ".mkv" = true ->
  endsWith f ".mp4" = false /\ endsWith f ".mp3" = false.
Proof.
  intros [H|H]; apply endsWith_split in H as [a ->].
  - change (a +:+ ".webm") with (a +:+ ("." +:+ "webm")).
    rewrite <- string_app_assoc. now rewrite !endsWith_app_other.
  - now rewrite !endsWith_app_other.
Qed.

(** X18: the periodic clean-up never throws and touches only the
    directory.  When the directory cannot be read it removes nothing.
    Otherwise it goes over the names in the order listed, and one [try]
    holds the whole loop: the loop stops at the first temporary media
    file (a name that starts with [temp_] and ends with [.mp4] or
    [.mp3]) for which [fs.statSync] throws, or which is old and for
    which [fs.unlinkSync] throws.  Of the names listed before that one
    it removes exactly the temporary media files whose age is above the
    interval, in the order of JavaScript numbers; the names from that one
    on stay, old or not.  A download that [yt-dlp] stored with the
    extension [.webm] or [.mkv], which [findDownloadedFile] accepts as a
    media file, is never removed by it. *)
Theorem the_periodic_cleanup_removes_old_temporary_media_only
    (now : float) (mtimeMs : string -> float) (st : pstate) :
  fst (cleanup_old_temp_files cleanupIntervalMs now mtimeMs st) = returned tt
  /\ the_bus (snd (cleanup_old_temp_files cleanupIntervalMs now mtimeMs st))
     = the_bus st
  /\ spawned (snd (cleanup_old_temp_files cleanupIntervalMs now mtimeMs st))
     = spawned st
  /\ match readdir_error (fs_faults st) with
     | Some _ =>
         disk (snd (cleanup_old_temp_files cleanupIntervalMs now mtimeMs st))
         = disk st
     | None =>
         forall f : string,
           In f (disk (snd (cleanup_old_temp_files cleanupIntervalMs now mtimeMs st)))
           <-> In f (disk st)
               /\ (startsWith f "temp_" = false
                   \/ (endsWith f ".mp4" = false /\ endsWith f ".mp3" = false)
                   \/ (cleanupIntervalMs <? now - mtimeMs f)%float = false
                   \/ ~ In f (listed_before
                                (sweep_stops_at cleanupIntervalMs (fs_faults st)
                                   now mtimeMs)
                                (disk st)))
     end
  /\ (forall f : string,
        In f (disk st) ->
        endsWith f ".webm" = true \/ endsWith f ".mkv" = true ->
        has_media_extension f = true
        /\ In f (disk (snd (cleanup_old_temp_files cleanupIntervalMs now mtimeMs st)))).
Proof.
  rewrite cleanup_old_temp_files_view. cbn [fst snd].
  assert (Hiff : forall f : string,
            In f (List.filter
                    (fun f =>
                       negb (startsWith f "temp_"
                             && (endsWith f ".mp4" || endsWith f ".mp3")
                             && (cleanupIntervalMs <? now - mtimeMs f)%float
                             && existsb (String.eqb f)
                                  (listed_before
                                     (sweep_stops_at cleanupIntervalMs
                                        (fs_faults st) now mtimeMs)
                                     (disk st))))
                    (disk st))
            <-> In f (disk st)
                /\ (startsWith f "temp_" = false
                    \/ (endsWith f ".mp4" = false /\ endsWith f ".mp3" = false)
                    \/ (cleanupIntervalMs <? now - mtimeMs f)%float = false
                    \/ ~ In f (listed_before
                                 (sweep_stops_at cleanupIntervalMs (fs_faults st)
                                    now mtimeMs)
                                 (disk st)))).
  { intros f. rewrite filter_In, negb_true_iff, !andb_false_iff, orb_false_iff.
    assert (Hlisted : forall names : list string,
              existsb (String.eqb f) names = false <-> ~ In f names).
    { intros names. rewrite <- not_true_iff_false, existsb_exists.
      split.
      - intros H Hin. apply H. exists f. split; [exact Hin|apply String.eqb_refl].
      - intros H (y & Hin & Hy). apply String.eqb_eq in Hy. now subst y. }
    rewrite Hlisted. tauto. }
  split; [reflexivity|].
  split; [now destruct (readdir_error (fs_faults st))|].
  split; [now destruct (readdir_error (fs_faults st))|].
  split.
  - destruct (readdir_error (fs_faults st)); [reflexivity|exact Hiff].
  - intros f Hin Hext. split.
    + unfold has_media_extension. destruct Hext as [-> | ->];
        now rewrite ?orb_true_r.
    + destruct (readdir_error (fs_faults st)); [exact Hin|].
      cbn [disk]. apply Hiff. split; [exact Hin|]. right. left.
      now apply other_extension_is_not_mp4_or_mp3.
Qed.

End DeliveryFactsConfig.

(** The theorem at work: a request for [clip.mp3] when only [clip.mp4] is
    there gets 404, and one for [clip.mp4] gets the file as a video. *)
Lemma the_extension_asked_for_is_the_one_looked_for :
  get_download keep_name false ("clip" +:+ "." +:+ "mp3") stream_ended
    state_with_clip
  = (returned not_found, state_with_clip)
  /\ get_download keep_name false ("clip" +:+ "." +:+ "mp4") stream_ended
       state_with_clip
     = (returned (attachment "clip.mp4" "video/mp4" false), state_with_clip).
Proof.
  split.
  - rewrite (a_download_looks_for_the_sanitized_stem keep_name false "clip"
               "mp3" stream_ended state_with_clip (or_introl eq_refl)).
    reflexivity.
  - rewrite (a_download_looks_for_the_sanitized_stem keep_name false "clip"
               "mp4" stream_ended state_with_clip (or_intror eq_refl)).
    reflexivity.
Defined.

Lemma last_is_in {A : Type} (l : list A) (x : A) : last l = Some x -> In x l.
Proof.
  induction l as [|y l IH]; [discriminate|].
  destruct l as [|z l]; cbn.
  - intros H. injection H as ->. now left.
  - intros H. right. now apply IH.
Qed.

(** The theorem at work: the run of the examples that completes announces
    [clip.mp4], and the request for it finds the file. *)
Lemma the_clip_of_the_example_can_be_downloaded :
  In (complete_event "clip.mp4")
    (events_since (the_bus initial_state)
       (the_bus (snd (processVideo world_success example_task example_options
                        initial_state))))
  /\ ev_filename (complete_event "clip.mp4") = Some (filename example_options)
  /\ get_download keep_name true (filename example_options) stream_ended
       (snd (processVideo world_success example_task example_options
               initial_state))
     = (returned (attachment (finalFile example_options) "video/mp4" true),
        snd (processVideo world_success example_task example_options
               initial_state)).
Proof.
  assert (Hin : In (complete_event "clip.mp4")
                  (events_since (the_bus initial_state)
                     (the_bus (snd (processVideo world_success example_task
                                      example_options initial_state)))))
    by (apply last_is_in; vm_compute; reflexivity).
  split; [exact Hin|].
  exact (the_announced_file_can_be_downloaded keep_name true world_success
           example_task example_options initial_state "clip" "mp4"
           (complete_event "clip.mp4") (or_intror eq_refl) eq_refl eq_refl
           eq_refl Hin eq_refl).
Defined.

(** The theorem at work: [clip.mp4] is handed out once; after the timer
    the notes are still there and the clip is not.  When the clip cannot
    be unlinked, the timer changes nothing and the clip is handed out
    again. *)
Lemma a_clip_is_handed_out_once :
  (fst (get_download keep_name true "clip.mp4" stream_ended state_with_clip)
   = returned (attachment "clip.mp4" "video/mp4" true)
   /\ disk (snd (delete_after_download "clip.mp4" state_with_clip)) = ["notes.txt"]
   /\ get_download keep_name true "clip.mp4" stream_ended
        (snd (delete_after_download "clip.mp4" state_with_clip))
      = (returned not_found, snd (delete_after_download "clip.mp4" state_with_clip)))
  /\ (fst (get_download keep_name true "clip.mp4" stream_ended
             state_with_locked_clip)
      = returned (attachment "clip.mp4" "video/mp4" true)
      /\ get_download keep_name true "clip.mp4" stream_ended
           (snd (delete_after_download "clip.mp4" state_with_locked_clip))
         = (returned (attachment "clip.mp4" "video/mp4" true),
            state_with_locked_clip)).
Proof.
  assert (H : fst (get_download keep_name true "clip.mp4" stream_ended
                     state_with_clip)
              = returned (attachment "clip.mp4" "video/mp4" true))
    by reflexivity.
  assert (H' : fst (get_download keep_name true "clip.mp4" stream_ended
                      state_with_locked_clip)
               = returned (attachment "clip.mp4" "video/mp4" true))
    by reflexivity.
  split.
  - split; [exact H|]. split; [reflexivity|].
    destruct (a_served_file_is_deleted_by_its_timer keep_name true "clip.mp4"
                stream_ended state_with_clip "clip.mp4" "video/mp4" H)
      as (_ & _ & _ & _ & Hagain).
    exact (Hagain stream_ended).
  - split; [exact H'|].
    destruct (a_served_file_is_deleted_by_its_timer keep_name true "clip.mp4"
                stream_ended state_with_locked_clip "clip.mp4" "video/mp4" H')
      as (_ & _ & _ & _ & Hagain).
    exact Hagain.
Defined.

End DeliveryFacts.

(** ** The preview of a video *)
Module VideoInfoFacts.
Import JS VideoInfo.

Lemma or_default_truthy (v : option json) (d : json) :
  truthy (Some d) = true -> truthy (Some (or_default v d)) = true.
Proof.
  intros Hd. unfold or_default. destruct v as [value|]; [|exact Hd].
  now destruct (truthy (Some value)) eqn:Hv.
Qed.

Lemma or_default_or (v : option json) (d : json) :
  truthy (Some (or_default v d)) = true \/ or_default v d = d.
Proof.
  unfold or_default. destruct v as [value|]; [|now right].
  destruct (truthy (Some value)) eqn:Hv; [now left|now right].
Qed.

Section InfoFactsHandler.

Variable sanitizeYouTubeUrl : option string -> option string.
Variable extractVideoId : string -> option string.
Variable supportedQualities : json.
Variable JSON_parse : string -> option json.

Lemma thumbnail_truthy (videoId : option string) :
  truthy (Some (default_thumbnail videoId)) = true.
Proof. reflexivity. Qed.

Lemma fallback_well_formed (videoId : option string) :
  well_formed supportedQualities videoId (fallback supportedQualities videoId).
Proof. unfold well_formed. cbn. repeat split; try reflexivity; now right. Qed.

Lemma from_info_well_formed (videoId : option string) (info : json) (data : video_data) :
  from_info supportedQualities videoId info = Some data -> well_formed supportedQualities videoId data.
Proof.
  unfold from_info.
  destruct (property info "title") as [t|]; [|discriminate].
  destruct (property info "duration") as [d|]; [|discriminate].
  destruct (property info "duration_string") as [ds|]; [|discriminate].
  destruct (property info "thumbnail") as [th|]; [|discriminate].
  destruct (property info "uploader") as [u|]; [|discriminate].
  destruct (property info "view_count") as [vc|]; [|discriminate].
  intros H. injection H as <-. unfold well_formed. cbn [id video_formats title
    durationFormatted thumbnail uploader duration viewCount].
  repeat split; try (apply or_default_truthy; reflexivity); apply or_default_or.
Qed.

(** X19: [GET /video-info] answers 400, and runs no command, exactly
    when the sanitized address counts as false.  Otherwise it always
    answers with [success: true], after one command for the sanitized
    address: the data carry the identifier extracted from the address and
    the supported formats, the title, the formatted duration, the
    thumbnail and the uploader count as true, and each number counts as
    true or is 0.  When the command fails, or prints what
    [JSON.parse] rejects or reads as [null], the data are the fallback of
    the [catch] block. *)
Theorem video_info_answers_every_valid_address
    (url : option string) (exec : string -> string + string) :
  (Robot.js_not (sanitizeYouTubeUrl url) = true ->
   get_video_info sanitizeYouTubeUrl extractVideoId supportedQualities JSON_parse
     url exec
   = (invalid_url, []))
  /\ (Robot.js_not (sanitizeYouTubeUrl url) = false ->
      exists data : video_data,
        get_video_info sanitizeYouTubeUrl extractVideoId supportedQualities
          JSON_parse url exec
        = (video_info data, [Robot.js_text (sanitizeYouTubeUrl url)])
        /\ well_formed supportedQualities
             (extractVideoId (Robot.js_text (sanitizeYouTubeUrl url))) data
        /\ ((exists message,
               exec (Robot.js_text (sanitizeYouTubeUrl url)) = inr message)
            \/ (exists stdout,
                  exec (Robot.js_text (sanitizeYouTubeUrl url)) = inl stdout
                  /\ (JSON_parse stdout = None \/ JSON_parse stdout = Some jnull)) ->
            data
            = fallback supportedQualities
                (extractVideoId (Robot.js_text (sanitizeYouTubeUrl url))))).
Proof.
  unfold get_video_info. split; intros Hurl; rewrite Hurl; [reflexivity|].
  eexists. split; [reflexivity|].
  destruct (exec _) as [stdout|message].
  2:{ split; [apply fallback_well_formed|reflexivity]. }
  destruct (JSON_parse stdout) as [info|] eqn:Hparse.
  2:{ split; [apply fallback_well_formed|reflexivity]. }
  destruct (from_info supportedQualities _ info) as [data|] eqn:Hinfo; cbn [default].
  - split; [now apply from_info_well_formed in Hinfo|].
    intros [[message H]|(out & H & [Hp|Hp])]; [discriminate H|..];
      injection H as <-; rewrite Hparse in Hp; [discriminate Hp|].
    injection Hp as ->. discriminate Hinfo.
  - split; [apply fallback_well_formed|reflexivity].
Qed.

End InfoFactsHandler.

End VideoInfoFacts.


(** ** The causes of a failed run *)
Module ServerCauses.
Import JS Server Examples MoreExamples ServerFacts StringFacts.

Lemma end_error_cases (stage : string -> string) (e : stage_end) :
  (e = close (Some 0) /\ end_error stage e = None)
  \/ (exists code, code <> Some 0 /\ e = close code
                   /\ end_error stage e = Some (stage (show_code code)))
  \/ (exists message, e = spawn_error message /\ end_error stage e = Some message).
Proof.
  destruct e as [[[| |]|]|message]; cbn.
  - now left.
  - right. left. eexists. repeat split. discriminate.
  - right. left. eexists. repeat split. discriminate.
  - right. left. eexists. repeat split. discriminate.
  - right. right. now exists message.
Qed.

(** X20: the error of a run names its cause.  When both subprocesses
    have ended and the run with them, its last event is
    [complete] with the file name of the options, or it is [error] with a
    message that tells which step failed: the downloader closed with a
    code other than 0 (the message carries the code and the first 200
    code units of what it wrote to its error stream), the downloader
    could not be started (the message of that error), the directory could
    not be read when the downloaded file was looked for (the message of
    the error of [fs.readdirSync]), the download ended well but left no
    temporary file, the cutter closed with a code other than 0, the
    cutter could not be started, or both ended well and the final file
    is not there. *)
Theorem the_error_of_a_run_names_its_cause
    (w : world) (taskId : string) (o : options) (st : pstate) :
  last (events_since (the_bus st) (the_bus (snd (processVideo w taskId o st))))
  = Some (complete_event (filename o))
  \/ exists cause : string,
       last (events_since (the_bus st) (the_bus (snd (processVideo w taskId o st))))
       = Some (error_event cause)
       /\ ((exists code : option Z,
              code <> Some 0 /\ yt_end w = close code
              /\ cause
                 = "Download gagal (code " +:+ show_code code +:+ "): "
                   +:+ substring_0 200 (stderr_text (yt_output w)))
           \/ yt_end w = spawn_error cause
           \/ (yt_end w = close (Some 0)
               /\ readdir_error (faults_after_download w) = Some cause)
           \/ (yt_end w = close (Some 0)
               /\ readdir_error (faults_after_download w) = None
               /\ cause = "File download tidak ditemukan"
               /\ ~ In (tempFile o) (disk_after_download w))
           \/ (yt_end w = close (Some 0)
               /\ exists code : option Z,
                    code <> Some 0 /\ ff_end w = close code
                    /\ cause = "ffmpeg exited with code " +:+ show_code code)
           \/ (yt_end w = close (Some 0) /\ ff_end w = spawn_error cause)
           \/ (yt_end w = close (Some 0) /\ ff_end w = close (Some 0)
               /\ cause = "File hasil trim tidak ditemukan"
               /\ ~ In (finalFile o) (disk_after_cut w))).
Proof.
  rewrite events_of_run. unfold run_view.
  pose proof (yt_view_errorOutput (yt_output w)
                {| lastProgress := 5; errorOutput := EmptyString |}) as Herr.
  destruct (yt_view (yt_output w) _) as [reports v]. cbn [snd errorOutput] in Herr.
  change (EmptyString +:+ stderr_text (yt_output w))
    with (stderr_text (yt_output w)) in Herr.
  destruct (end_error_cases
              (fun code => "Download gagal (code " +:+ code +:+ "): "
                           +:+ substring_0 200 (errorOutput v))
              (yt_end w))
    as [[Hyt ->]|[(code & Hcode & Hyt & ->)|(message & Hyt & ->)]].
  2:{ right. eexists. cbn [run_events]. rewrite last_snoc. split; [reflexivity|].
      left. exists code. rewrite Herr. now repeat split. }
  2:{ right. exists message. cbn [run_events]. rewrite last_snoc.
      split; [reflexivity|]. right. now left. }
  destruct (readdir_error (faults_after_download w)) as [message|] eqn:Hread.
  { right. exists message. cbn [run_events]. rewrite last_snoc.
    split; [reflexivity|]. do 2 right. left. now split. }
  destruct (bool_decide (found_view (disk_after_download w) (tempFile o)
                           ∈ disk_after_download w)) eqn:Hfound; cbn [negb].
  2:{ right. eexists. cbn [run_events]. rewrite last_snoc. split; [reflexivity|].
      do 3 right. left. split; [exact Hyt|]. split; [reflexivity|].
      split; [reflexivity|].
      intros Hin. apply bool_decide_eq_false in Hfound. apply Hfound.
      unfold found_view.
      rewrite (bool_decide_eq_true_2 _ (proj2 (list_elem_of_In _ _) Hin)).
      now apply list_elem_of_In. }
  destruct (end_error_cases (fun code => "ffmpeg exited with code " +:+ code)
              (ff_end w))
    as [[Hff ->]|[(code & Hcode & Hff & ->)|(message & Hff & ->)]].
  2:{ right. eexists. cbn [run_events]. rewrite last_snoc. split; [reflexivity|].
      do 4 right. left. split; [exact Hyt|]. exists code. now repeat split. }
  2:{ right. exists message. cbn [run_events]. rewrite last_snoc.
      split; [reflexivity|]. do 5 right. left. now split. }
  destruct (bool_decide (finalFile o ∈ _)) eqn:Hfinal; cbn [run_events].
  - left. now rewrite last_snoc.
  - right. eexists. rewrite last_snoc. split; [reflexivity|].
    do 6 right. split; [exact Hyt|]. split; [exact Hff|]. split; [reflexivity|].
    intros Hin. apply bool_decide_eq_false in Hfinal. apply Hfinal.
    now apply final_file_survives_success_cleanup.
Qed.

End ServerCauses.


(** ** The page and the events of a run *)
Module PageFacts.
Import JS Server Page ServerFacts.

(** The events of a run: all but the last are not terminal, and the last
    is [complete] with the file name of the options, or [error]. *)
Lemma run_ends_with (w : world) (taskId : string) (o : options) :
  exists (earlier : list event) (final : event),
    run_events (run_view w taskId o) = earlier ++ [final]
    /\ Forall (fun e => is_terminal (ev_status e) = false) earlier
    /\ (final = complete_event (filename o)
        \/ exists cause, final = error_event cause).
Proof.
  unfold run_view.
  assert (Hdl : Forall (fun e => is_terminal (ev_status e) = false)
                  (fst (yt_view (yt_output w)
                          {| lastProgress := 5; errorOutput := EmptyString |}))).
  { eapply List.Forall_impl; [|apply yt_view_downloading]. now intros e ->. }
  assert (Hff : Forall (fun e => is_terminal (ev_status e) = false)
                  (ff_view (ff_output w))).
  { eapply List.Forall_impl; [|apply ff_view_cutting]. now intros e ->. }
  destruct (yt_view (yt_output w) _) as [reports v]. cbn [fst] in Hdl.
  destruct (end_error _ (yt_end w)) as [msg|]; cbn [run_events].
  { eexists _, _. split; [reflexivity|]. split; [now constructor|].
    right. now eexists. }
  destruct (readdir_error (faults_after_download w)) as [readdir_message|]; cbn [run_events].
  { eexists _, _. split; [reflexivity|]. split; [|right; now eexists].
    apply List.Forall_app. split; [now constructor|now repeat constructor]. }
  destruct (negb _); cbn [run_events].
  { eexists _, _. split; [reflexivity|]. split; [|right; now eexists].
    apply List.Forall_app. split; [now constructor|now repeat constructor]. }
  destruct (end_error _ (ff_end w)) as [msg|]; cbn [run_events].
  { eexists _, _. split; [reflexivity|]. split; [|right; now eexists].
    rewrite !List.Forall_app. repeat split; [now constructor|now repeat constructor|].
    now constructor. }
  destruct (bool_decide (finalFile o ∈ _)); cbn [run_events].
  - eexists _, _. split; [reflexivity|]. split; [|now left].
    rewrite !List.Forall_app.
    repeat split; [now constructor|now repeat constructor| |now repeat constructor].
    now constructor.
  - eexists _, _. split; [reflexivity|]. split; [|right; now eexists].
    rewrite !List.Forall_app.
    repeat split; [now constructor|now repeat constructor| |now repeat constructor].
    now constructor.
Qed.

(** A message that is not terminal leaves the source open, and the
    timers, the notice, the button and the background as they are. *)
Lemma onmessage_goes_on (data : event) (p : page) :
  is_terminal (ev_status data) = false ->
  eventSource (onmessage data p) = eventSource p
  /\ timers (onmessage data p) = timers p
  /\ notice (onmessage data p) = notice p
  /\ button_enabled (onmessage data p) = button_enabled p
  /\ bar_background (onmessage data p) = bar_background p.
Proof.
  unfold onmessage, updateProgress.
  destruct (ev_status data); cbn; intros H; try discriminate H; now repeat split.
Qed.

Lemma deliver_goes_on (messages rest : list event) (p : page) :
  Forall (fun e => is_terminal (ev_status e) = false) messages ->
  eventSource p = true ->
  deliver (messages ++ rest) p
  = deliver rest (fold_left (fun p data => onmessage data p) messages p)
  /\ eventSource (fold_left (fun p data => onmessage data p) messages p) = true
  /\ timers (fold_left (fun p data => onmessage data p) messages p) = timers p
  /\ notice (fold_left (fun p data => onmessage data p) messages p) = notice p
  /\ button_enabled (fold_left (fun p data => onmessage data p) messages p)
     = button_enabled p
  /\ bar_background (fold_left (fun p data => onmessage data p) messages p)
     = bar_background p.
Proof.
  revert p. induction messages as [|data messages IH]; intros p Hall Hopen.
  - now repeat split.
  - inversion Hall as [|? ? Hdata Hrest]; subst.
    destruct (onmessage_goes_on data p Hdata) as (Ho & Ht & Hn & Hb & Hg).
    cbn [app deliver fold_left]. rewrite Hopen.
    destruct (IH (onmessage data p) Hrest) as (H1 & H2 & H3 & H4 & H5 & H6);
      [congruence|].
    rewrite H1, H2, H3, H4, H5, H6. repeat split; congruence.
Qed.

(** A list that ends a list made of a last element after others ends
    with that element, after some of the others. *)
Lemma suffix_of_snoc {A : Type} (missed seen earlier : list A) (final : A) :
  missed ++ seen = earlier ++ [final] ->
  seen <> [] ->
  exists seen_earlier : list A,
    seen = seen_earlier ++ [final] /\ earlier = missed ++ seen_earlier.
Proof.
  intros Heq Hseen.
  destruct (exists_last Hseen) as (seen_earlier & x & ->).
  rewrite app_assoc in Heq. apply app_inj_tail in Heq as [<- <-].
  now exists seen_earlier.
Qed.

(** X21: a page that subscribes during a run follows it to its end and
    then stops listening.  The page calls [connectToProgress] only after
    [/trim] answered, so it misses the events sent before its source was
    registered.  For a run whose file name is not empty, a page with an
    open source that is sent [connected] and then the events of the run
    from some point on, the last one among them, handles every one of
    them (none arrives after the source is closed); in the end the source
    is closed and the bar shows the progress of the last event.  When the
    run completed, the download of the announced file is scheduled, once,
    and the bar is green; when it failed, no download is scheduled, the
    error is shown with its cause, the button is enabled again and the
    bar is red. *)
Theorem the_page_follows_a_run_to_its_end
    (w : world) (taskId : string) (o : options) (st : pstate) (p : page)
    (missed seen : list event) :
  events_since (the_bus st) (the_bus (snd (processVideo w taskId o st)))
  = missed ++ seen ->
  seen <> [] ->
  filename o <> EmptyString ->
  eventSource p = true ->
  exists final : event,
    last seen = Some final
    /\ deliver (connected_event :: seen) p
       = fold_left (fun p data => onmessage data p) (connected_event :: seen) p
    /\ eventSource (deliver (connected_event :: seen) p) = false
    /\ bar_width (deliver (connected_event :: seen) p) = ev_progress final
    /\ ((final = complete_event (filename o)
         /\ timers (deliver (connected_event :: seen) p)
            = timers p ++ [filename o]
         /\ bar_background (deliver (connected_event :: seen) p) = green)
        \/ (exists cause : string,
              final = error_event cause
              /\ timers (deliver (connected_event :: seen) p) = timers p
              /\ notice (deliver (connected_event :: seen) p)
                 = Some ("error", Some (text ("Error: " +:+ cause)))
              /\ button_enabled (deliver (connected_event :: seen) p) = true
              /\ bar_background (deliver (connected_event :: seen) p) = red)).
Proof.
  intros Hevents Hseen Hname Hopen. rewrite events_of_run in Hevents.
  destruct (run_ends_with w taskId o) as (all & final & Hrun & Hall & Hfinal).
  rewrite Hrun in Hevents.
  destruct (suffix_of_snoc missed seen all final (eq_sym Hevents) Hseen)
    as (earlier & -> & ->).
  apply List.Forall_app in Hall as [_ Hearlier].
  exists final. split; [apply last_snoc|].
  change (connected_event :: earlier ++ [final])
    with ((connected_event :: earlier) ++ [final]).
  assert (Hall : Forall (fun e => is_terminal (ev_status e) = false)
                   (connected_event :: earlier)) by (now constructor).
  destruct (deliver_goes_on (connected_event :: earlier) [final] p Hall Hopen)
    as (Hd & Ho & Ht & Hn & Hb & Hg).
  rewrite Hd, fold_left_app.
  set (q := fold_left (fun p data => onmessage data p) (connected_event :: earlier) p)
    in *.
  cbn [deliver fold_left]. rewrite Ho.
  split; [reflexivity|].
  destruct Hfinal as [->|[cause ->]].
  - unfold onmessage. cbn [ev_status complete_event ev_filename present_text].
    destruct (filename o) as [|c name] eqn:Hf; [now destruct Hname|].
    cbn [present_text eventSource bar_width timers bar_background updateProgress
         ev_progress ev_status default].
    split; [reflexivity|]. split; [reflexivity|]. left.
    split; [reflexivity|]. split; [now rewrite Ht|reflexivity].
  - unfold onmessage. cbn [ev_status error_event progress_event].
    cbn [eventSource bar_width timers bar_background updateProgress notice
         button_enabled ev_progress ev_status ev_message].
    split; [reflexivity|]. split; [reflexivity|]. right. exists cause.
    split; [reflexivity|]. split; [exact Ht|]. now repeat split.
Qed.

(** The theorem at work: the page of the example misses the first event
    of the run that completes, and schedules the download of
    [clip.mp4]. *)
Lemma the_page_of_the_example_schedules_the_download :
  timers (deliver (connected_event :: PageExamples.seen_by_the_page)
            PageExamples.waiting_page)
  = ["clip.mp4"]
  /\ eventSource (deliver (connected_event :: PageExamples.seen_by_the_page)
                    PageExamples.waiting_page)
     = false.
Proof.
  assert (Hseen : PageExamples.seen_by_the_page <> [])
    by (intros H; vm_compute in H; discriminate H).
  destruct (the_page_follows_a_run_to_its_end Examples.world_success
              Examples.example_task Examples.example_options initial_state
              PageExamples.waiting_page
              (take 1 (events_since (the_bus initial_state)
                         (the_bus (snd (processVideo Examples.world_success
                                          Examples.example_task
                                          Examples.example_options
                                          initial_state)))))
              PageExamples.seen_by_the_page
              (eq_sym (take_drop 1 _)) Hseen)
    as (final & Hlast & _ & Hclosed & _ & Hend); [discriminate|reflexivity|].
  split; [|exact Hclosed].
  destruct Hend as [(_ & Htimers & _)|(cause & -> & _)].
  - exact Htimers.
  - exfalso.
    assert (H : last PageExamples.seen_by_the_page
                = Some (complete_event "clip.mp4"))
      by (vm_compute; reflexivity).
    rewrite H in Hlast. discriminate Hlast.
Defined.

End PageFacts.


(** ** The download history *)
Module HistoryFacts.
Import JS VideoInfo History.

Lemma reread_number (x : float) :
  reread (reread (jnumber x)) = reread (jnumber x).
Proof.
  cbn [reread]. destruct (is_finite x) eqn:Hfinite; [|reflexivity].
  destruct (is_zero x) eqn:Hzero; cbn [reread].
  - reflexivity.
  - now rewrite Hfinite, Hzero.
Qed.

(** Writing and reading a value that was written and read changes
    nothing. *)
Lemma reread_again : forall v : json, reread (reread v) = reread v.
Proof.
  fix IH 1. intros [ |b|x|s|items|properties].
  - reflexivity.
  - reflexivity.
  - apply reread_number.
  - reflexivity.
  - cbn [reread]. f_equal. rewrite map_map.
    induction items as [|v items IHitems]; [reflexivity|].
    cbn [map]. now rewrite IH, IHitems.
  - cbn [reread]. f_equal. rewrite map_map.
    induction properties as [|[name value] properties IHproperties];
      [reflexivity|].
    cbn [map]. now rewrite IH, IHproperties.
Qed.

Lemma reread_entry (item : download_item) (timestamp : string) :
  reread (history_entry item timestamp) = history_entry item timestamp.
Proof. reflexivity. Qed.

Lemma take_app_take {A : Type} (n k : nat) (l m : list A) :
  (n <= k)%nat -> take n (l ++ take k m) = take n (l ++ m).
Proof.
  revert n. induction l as [|x l IH]; intros n Hn; cbn [app].
  - rewrite take_take. f_equal. lia.
  - destruct n as [|n]; [reflexivity|]. cbn [take]. f_equal. apply IH. lia.
Qed.

Lemma add_array (a : addition) (s : storage) (history : list json) :
  getHistory s = jarray history ->
  getHistory (add s a)
  = jarray (if a.2
            then take 10 (history_entry a.1.1 a.1.2 :: map reread history)
            else history).
Proof.
  intros Hs. unfold add, addToHistory. rewrite Hs.
  destruct a.2; [|exact Hs].
  cbn [getHistory reread]. f_equal. unfold MAX_HISTORY_ITEMS.
  now rewrite <- firstn_map.
Qed.

Lemma add_no_array (a : addition) (s : storage) :
  (forall history, getHistory s <> jarray history) ->
  add s a = s.
Proof.
  intros Hs. unfold add, addToHistory.
  destruct (getHistory s) eqn:Hv; try reflexivity. now destruct (Hs items).
Qed.

Lemma adds_array (additions : list addition) (s : storage) (history : list json) :
  getHistory s = jarray history ->
  getHistory (fold_left add additions s)
  = jarray (match saved additions with
            | [] => history
            | _ :: _ => take 10 (rev (saved additions) ++ map reread history)
            end).
Proof.
  revert s history.
  induction additions as [|a additions IH]; intros s history Hs; [exact Hs|].
  cbn [fold_left]. rewrite (IH _ _ (add_array a s history Hs)).
  unfold saved. cbn [List.filter]. destruct a.2; [|reflexivity].
  cbn [map]. fold (saved additions).
  destruct (saved additions) as [|e entries] eqn:Hsaved.
  - reflexivity.
  - f_equal. rewrite <- Hsaved. clear Hsaved.
    cbn [rev]. rewrite <- app_assoc. cbn [app].
    rewrite <- firstn_map. rewrite (take_app_take 10 10) by lia.
    cbn [map]. rewrite reread_entry.
    do 3 f_equal. rewrite map_map.
    apply map_ext. intros v. apply reread_again.
Qed.

(** X22: the history keeps the ten newest downloads, the newest first.
    After any calls of [addToHistory], the history that [getHistory]
    reads is: the value it read before, when that is no array (the
    history is then never written again) or when no write was accepted;
    otherwise the entries of the accepted calls, the last call first,
    followed by the entries that were there before as they are read
    back, and of these the first ten. *)
Theorem the_history_keeps_the_ten_newest
    (s : storage) (additions : list addition) :
  getHistory (fold_left add additions s)
  = match getHistory s, saved additions with
    | jarray old, _ :: _ =>
        jarray (take 10 (rev (saved additions) ++ map reread old))
    | before, _ => before
    end.
Proof.
  destruct (getHistory s) as [ |b|x|t|old|properties] eqn:Hs.
  5:{ rewrite (adds_array additions s old Hs).
      now destruct (saved additions). }
  all: assert (Hsame : fold_left add additions s = s)
         by (induction additions as [|a additions IH]; [reflexivity|];
             cbn [fold_left]; rewrite add_no_array; [exact IH|];
             intros history; rewrite Hs; discriminate).
  all: now rewrite Hsame, Hs.
Qed.

End HistoryFacts.
